(** * mcsqs_caller: a shallow embedding of [pymatgen/command_line/mcsqs_caller.py]

    The module drives the external AT-AT binaries [mcsqs] and [str2cif].
    Its two functions, [run_mcsqs] and [_parse_sqs_path], are written here
    as programs of a state-and-exception monad over a [World] that holds
    what the Python code acts on: the working directory, the files, a clock,
    the table of launched processes, and a log of the calls made.

    What the external binaries and the Python runtime do is not in the
    source; it is taken from a [Host] record. The theorems are stated for
    every host; the examples are run on the host of [Demo]. *)

From Stdlib Require Import QArith Qround Qminmax Lqa String Ascii List ZArith DecimalString.
From stdpp Require Import gmap strings list fin_maps pretty.

Open Scope string_scope.

(* ===================================================================== *)
(** ** Python strings *)
(* ===================================================================== *)

Module PyStr.

(** [str.isspace] on the ASCII range: TAB..CR, FS..US and the blank. File
    contents are taken to be ASCII text. *)
Definition is_space (c : ascii) : bool :=
  let n := nat_of_ascii c in
  ((9 <=? n)%nat && (n <=? 13)%nat) || ((28 <=? n)%nat && (n <=? 32)%nat).

Definition newline : ascii := ascii_of_nat 10.
Definition carriage_return : ascii := ascii_of_nat 13.
Definition nl : string := String newline EmptyString.

Definition is_empty (s : string) : bool :=
  match s with EmptyString => true | String _ _ => false end.

(** Text mode with [newline=None]: CR LF and a lone CR are read as LF. *)
Fixpoint universal_newlines (s : string) : string :=
  match s with
  | EmptyString => EmptyString
  | String c s' =>
      if Ascii.eqb c carriage_return then
        match s' with
        | String c' _ =>
            if Ascii.eqb c' newline then universal_newlines s'
            else String newline (universal_newlines s')
        | EmptyString => String newline EmptyString
        end
      else String c (universal_newlines s')
  end.

(** The lines of a text, each with its terminator, as [readlines] gives
    them once the newlines are translated. *)
Fixpoint keepends (s : string) : list string :=
  match s with
  | EmptyString => []
  | String c s' =>
      if Ascii.eqb c newline then String c EmptyString :: keepends s'
      else match keepends s' with
           | [] => [String c EmptyString]
           | l :: ls => String c l :: ls
           end
  end.

Definition readlines (content : string) : list string :=
  keepends (universal_newlines content).

(** [s.split(sep)] for a one-character separator: never empty. *)
Fixpoint split (sep : ascii) (s : string) : list string :=
  match s with
  | EmptyString => [EmptyString]
  | String c s' =>
      if Ascii.eqb c sep then EmptyString :: split sep s'
      else match split sep s' with
           | [] => [String c EmptyString]
           | x :: xs => String c x :: xs
           end
  end.

Fixpoint lstrip (s : string) : string :=
  match s with
  | EmptyString => EmptyString
  | String c s' => if is_space c then lstrip s' else s
  end.

Fixpoint rstrip (s : string) : string :=
  match s with
  | EmptyString => EmptyString
  | String c s' =>
      let r := rstrip s' in
      if is_space c && is_empty r then EmptyString else String c r
  end.

Definition strip (s : string) : string := rstrip (lstrip s).

(** [l[-1]]: [None] stands for IndexError. *)
Definition last_item {A} (l : list A) : option A := List.last (map Some l) None.

(** The text after the last [sep] of the last line, without the blanks
    around it. *)
Definition last_field (sep : ascii) (lines : list string) : option string :=
  match last_item lines with
  | Some l =>
      match last_item (split sep l) with
      | Some t => Some (strip t)
      | None => None
      end
  | None => None
  end.

Definition single_quote : ascii := ascii_of_nat 39.
Definition double_quote : ascii := ascii_of_nat 34.
Definition backslash : ascii := ascii_of_nat 92.

Fixpoint has_char (c : ascii) (s : string) : bool :=
  match s with
  | EmptyString => false
  | String a s' => Ascii.eqb a c || has_char c s'
  end.

Definition hex_digit (n : nat) : ascii :=
  nth n (list_ascii_of_string "0123456789abcdef") "0"%char.

(** One character of [repr(s)]: the quote and the backslash are escaped,
    TAB, LF and CR are written [\t], [\n] and [\r], the other control
    characters [\xhh]. *)
Definition escape (quote c : ascii) : string :=
  let n := nat_of_ascii c in
  if Ascii.eqb c quote || Ascii.eqb c backslash then String backslash (String c EmptyString)
  else if (n =? 9)%nat then String backslash "t"
  else if (n =? 10)%nat then String backslash "n"
  else if (n =? 13)%nat then String backslash "r"
  else if (n <? 32)%nat || (n =? 127)%nat then
    String backslash
      (String "x" (String (hex_digit (n / 16)) (String (hex_digit (n mod 16)) EmptyString)))
  else String c EmptyString.

Fixpoint escape_all (quote : ascii) (s : string) : string :=
  match s with
  | EmptyString => EmptyString
  | String c s' => escape quote c ++ escape_all quote s'
  end.

(** [repr(s)] of a string of the ASCII range: in single quotes, or in
    double quotes when the string holds a single quote and no double one. *)
Definition repr (s : string) : string :=
  let quote :=
    if has_char single_quote s && negb (has_char double_quote s) then double_quote
    else single_quote in
  String quote (escape_all quote s ++ String quote EmptyString).

End PyStr.

(* ===================================================================== *)
(** ** Paths *)
(* ===================================================================== *)

(** Directories are named by absolute normalised paths, as [os.getcwd()]
    returns them: ["/"], or ["/a/b"] with no empty, [.] or [..] component.
    The file system has no symbolic links. *)
Module PyPath.

Definition is_absolute (path : string) : bool :=
  match path with
  | String c _ => Ascii.eqb c "/"
  | EmptyString => false
  end.

(** The components of a path that name something: not the empty ones
    between slashes, and not [.]. *)
Definition names (path : string) : list string :=
  List.filter (fun c => negb (PyStr.is_empty c || String.eqb c "."))
              (PyStr.split "/" path).

(** The directory above: the text before the last slash, the root when
    that is empty. *)
Definition parent (base : string) : string :=
  let p := String.concat "/" (removelast (PyStr.split "/" base)) in
  if PyStr.is_empty p then "/" else p.

Definition child (base name : string) : string :=
  if String.eqb base "/" then "/" ++ name else base ++ "/" ++ name.

Fixpoint walk (base : string) (components : list string) : string :=
  match components with
  | [] => base
  | name :: rest =>
      walk (if String.eqb name ".." then parent base else child base name) rest
  end.

(** [str(Path(path).resolve())] in the working directory [cwd], which is
    also the directory the operating system opens [Path(path) / name] in:
    from the root for an absolute path and from [cwd] for a relative one,
    one component after the other. *)
Definition resolve_from (cwd path : string) : string :=
  walk (if is_absolute path then "/" else cwd) (names path).

End PyPath.

(* ===================================================================== *)
(** ** Glob patterns, as [pathlib.Path.glob] matches one path component *)
(* ===================================================================== *)

Inductive glob_item :=
| GLit (c : ascii)
| GStar
| GRange (lo hi : ascii).

Definition in_range (lo hi c : ascii) : bool :=
  (nat_of_ascii lo <=? nat_of_ascii c)%nat && (nat_of_ascii c <=? nat_of_ascii hi)%nat.

Fixpoint glob_match (p : list glob_item) (s : string) {struct p} : bool :=
  match p with
  | [] => PyStr.is_empty s
  | GLit c :: p' =>
      match s with
      | String c' s' => Ascii.eqb c c' && glob_match p' s'
      | EmptyString => false
      end
  | GRange lo hi :: p' =>
      match s with
      | String c' s' => in_range lo hi c' && glob_match p' s'
      | EmptyString => false
      end
  | GStar :: p' =>
      (fix star (t : string) : bool :=
         glob_match p' t ||
         match t with
         | String _ t' => star t'
         | EmptyString => false
         end) s
  end.

Fixpoint glob_lits (s : string) : list glob_item :=
  match s with
  | EmptyString => []
  | String c s' => GLit c :: glob_lits s'
  end.

(** The pattern ['bestsqs*[0-9]*'] of line 194. *)
Definition bestsqs_glob : list glob_item :=
  glob_lits "bestsqs" ++ [GStar; GRange "0" "9"; GStar].

(* ===================================================================== *)
(** ** Numbers *)
(* ===================================================================== *)

(** A Python [Union[int, float]]. A finite float is the rational it denotes;
    infinities and NaN are left out, and so is rounding. *)
Inductive num :=
| Int (z : Z)
| Float (x : Q).

Definition num_mul_int (a : num) (n : Z) : num :=
  match a with
  | Int z => Int (z * n)
  | Float x => Float (x * inject_Z n)
  end.

(** [a % 1] *)
Definition num_mod_1 (a : num) : num :=
  match a with
  | Int z => Int (z mod 1)
  | Float x => Float (x - inject_Z (Qfloor x))
  end.

(** Truth value of a number: non-zero. *)
Definition num_truthy (a : num) : bool :=
  match a with
  | Int z => negb (z =? 0)%Z
  | Float x => negb (Qeq_bool x 0)
  end.

(** [lines[-1].split('=')[-1].strip()] *)
Definition objective_token (lines : list string) : option string :=
  PyStr.last_field "=" lines.

(** The objective function of a run: [Union[float, Literal["Perfect_match"]]]. *)
Inductive objective :=
| Perfect_match
| Objective (v : Q).

(* ===================================================================== *)
(** ** Structures *)
(* ===================================================================== *)

(** Modelled from the spec: [pymatgen.Structure] is imported by the module
    and is not part of the source at hand. The spec uses it as an opaque
    value with the operations "scale by factor", "serialize to an input
    file" and "deserialize from a structure file", and calls a structure
    disordered when at least one site has fractional occupancy. A structure
    is the list of its sites; a site records its species and occupancy. *)
Record Site := mkSite { species : string; occupancy : Q }.

Definition Structure := list Site.

(** Modelled from the spec: a site is ordered when its occupancy is not
    fractional, a structure when all its sites are. *)
Definition site_is_ordered (s : Site) : bool := Qeq_bool (occupancy s) 1.

Definition is_ordered (s : Structure) : bool := forallb site_is_ordered s.

(** Modelled from the spec: [structure * [a, b, c]], the supercell with
    [a*b*c] images of every site. *)
Definition supercell (s : Structure) (a b c : Z) : Structure :=
  flat_map (fun site => repeat site (Z.to_nat (a * b * c))) s.

(** The [scaling] argument, [Union[int, List[int]]]; line 90 also lets a
    float through. *)
Inductive scaling_spec :=
| Scalar (k : num)
| Vector (a b c : Z).

(** One entry of [allsqs]: the dict with keys ['structure'] and
    ['objective_function']. *)
Record SqsEntry := mkEntry {
  entry_structure : Structure;
  entry_objective_function : objective
}.

(** The [Sqs] named tuple. *)
Record Sqs := mkSqs {
  bestsqs : Structure;
  objective_function : objective;
  allsqs : list SqsEntry;
  directory : string
}.

(* ===================================================================== *)
(** ** The host: what lies outside the module *)
(* ===================================================================== *)

Abbreviation files := (gmap (string * string) string).

(** Everything the module obtains from the Python runtime, the operating
    system and the two AT-AT binaries. A file is named by its directory and
    its name; a directory by its absolute path. *)
Record Host := mkHost {
  (** [os.cpu_count()]: a count of at least one, or [None] *)
  cpu_count : option positive;
  (** the directory [tempfile.mkdtemp()] creates *)
  mkdtemp : string;
  (** [str(x)] of a float *)
  str_float : Q -> string;
  (** [float(s)]; [None] when it raises ValueError *)
  float_of_str : string -> option Q;
  (** the text [structure.to(filename="rndstr.in")] writes *)
  to_rndstr : Structure -> string;
  (** [Structure.from_file] on the text of a cif file; [None] when it raises *)
  from_cif : string -> option Structure;
  (** [str2cif], from standard input to standard output *)
  str2cif : string -> string;
  (** how long a command runs when left alone, in seconds; [None] when it
      runs until it is killed *)
  run_time : list string -> option Q;
  (** the files a command leaves behind when it has run for that many
      seconds in that directory; the module looks at the files of a process
      only after it has waited for it, so they are added at that moment *)
  output : list string -> Q -> string -> files -> files
}.

(* ===================================================================== *)
(** ** The world *)
(* ===================================================================== *)

Inductive proc_state :=
| Running
| Killed (at_time : Q)
| Reaped.

(** A [Popen] object. *)
Record proc := mkProc {
  p_cmd : list string;
  p_cwd : string;
  p_start : Q;
  p_state : proc_state
}.

(** The calls the module makes, in the order it makes them. *)
Inductive event :=
| EvChdir (d : string)
| EvWrite (d name content : string)
| EvPopen (pid : nat) (cmd : list string)
| EvShell (d cmdline : string)
| EvCommunicate (pid : nat) (timeout : option Q)
| EvKill (pid : nat).

Record World := mkWorld {
  cwd : string;
  fs : files;
  clock : Q;
  procs : list proc;
  trace : list event
}.

Definition set_cwd (d : string) (w : World) : World :=
  mkWorld d (fs w) (clock w) (procs w) (trace w).
Definition set_fs (f : files) (w : World) : World :=
  mkWorld (cwd w) f (clock w) (procs w) (trace w).
Definition set_clock (t : Q) (w : World) : World :=
  mkWorld (cwd w) (fs w) t (procs w) (trace w).
Definition set_procs (ps : list proc) (w : World) : World :=
  mkWorld (cwd w) (fs w) (clock w) ps (trace w).
Definition log (e : event) (w : World) : World :=
  mkWorld (cwd w) (fs w) (clock w) (procs w) (trace w ++ [e]).

Definition set_state (st : proc_state) (p : proc) : proc :=
  mkProc (p_cmd p) (p_cwd p) (p_start p) st.

(* ===================================================================== *)
(** ** Exceptions and the monad *)
(* ===================================================================== *)

Inductive exn :=
| ValueError (msg : string)
| Exception_ (msg : string)
| TimeoutError (msg : string)
| TimeoutExpired
| TypeError
| IndexError
| FileNotFoundError (d name : string)
| StructureParseError.

(** How a call ends: it returns, it raises, or it blocks for ever (a
    [communicate()] without timeout on a process that never exits). *)
Inductive outcome (A : Type) :=
| Ret (a : A)
| Raise (e : exn)
| Hang.
Arguments Ret {A} a.
Arguments Raise {A} e.
Arguments Hang {A}.

Definition M (A : Type) : Type := World -> outcome A * World.

Definition ret {A} (a : A) : M A := fun w => (Ret a, w).
Definition raise {A} (e : exn) : M A := fun w => (Raise e, w).
Definition bind {A B} (m : M A) (k : A -> M B) : M B :=
  fun w =>
    match m w with
    | (Ret a, w') => k a w'
    | (Raise e, w') => (Raise e, w')
    | (Hang, w') => (Hang, w')
    end.

(** [try: body except TimeoutExpired: handler] *)
Definition try_except_TimeoutExpired {A} (body handler : M A) : M A :=
  fun w =>
    match body w with
    | (Raise TimeoutExpired, w') => handler w'
    | r => r
    end.

Declare Scope py_scope.
Delimit Scope py_scope with py.
Notation "x <- c ;; k" := (bind c (fun x => k))
  (at level 100, c at next level, k at level 200, right associativity) : py_scope.
Notation "c ;; k" := (bind c (fun _ => k))
  (at level 100, k at level 200, right associativity) : py_scope.
Open Scope py_scope.

Definition get {A} (f : World -> A) : M A := fun w => (Ret (f w), w).
Definition modify (f : World -> World) : M unit := fun w => (Ret tt, f w).

Fixpoint for_each {A} (l : list A) (body : A -> M unit) : M unit :=
  match l with
  | [] => ret tt
  | x :: l' => body x ;; for_each l' body
  end.

(** A loop that appends one item per round to a list. *)
Fixpoint for_append {A B} (l : list A) (body : A -> M B) (acc : list B) : M (list B) :=
  match l with
  | [] => ret acc
  | x :: l' => y <- body x ;; for_append l' body (acc ++ [y])
  end.

(* ===================================================================== *)
(** ** The calls into the runtime *)
(* ===================================================================== *)

Section Runtime.

Context (H : Host).

Definition str_num (a : num) : string :=
  match a with
  | Int z => pretty z
  | Float x => str_float H x
  end.

Definition getcwd : M string := get cwd.

(** [os.chdir(d)]: the module passes it what [os.getcwd()] or
    [tempfile.mkdtemp()] returned, or the caller's directory, taken to be
    given as an absolute normalised path. *)
Definition chdir (d : string) : M unit :=
  modify (fun w => log (EvChdir d) (set_cwd d w)).

(** [os.path.exists(name)], relative to the working directory *)
Definition path_exists (name : string) : M bool :=
  get (fun w => bool_decide (is_Some (fs w !! (cwd w, name)))).

(** [with open(name, "w") as f: f.write(content)] *)
Definition write_file (name content : string) : M unit :=
  modify (fun w =>
    log (EvWrite (cwd w) name content)
        (set_fs (<[(cwd w, name) := content]> (fs w)) w)).

(** [with open(d / name, 'r') as f: lines = f.readlines()] *)
Definition read_lines (d name : string) : M (list string) :=
  fun w =>
    match fs w !! (d, name) with
    | Some c => (Ret (PyStr.readlines c), w)
    | None => (Raise (FileNotFoundError d name), w)
    end.

(** [Structure.from_file(d / name)] *)
Definition Structure_from_file (d name : string) : M Structure :=
  fun w =>
    match fs w !! (d, name) with
    | Some c =>
        match from_cif H c with
        | Some s => (Ret s, w)
        | None => (Raise StructureParseError, w)
        end
    | None => (Raise (FileNotFoundError d name), w)
    end.

(** [structure.to(filename=name)] *)
Definition Structure_to (s : Structure) (name : string) : M unit :=
  write_file name (to_rndstr H s).

(** [Popen(cmd)]: the handle is the index in the process table. *)
Definition Popen (cmd : list string) : M nat :=
  fun w =>
    let pid := length (procs w) in
    (Ret pid,
     log (EvPopen pid cmd)
         (set_procs (procs w ++ [mkProc cmd (cwd w) (clock w) Running]) w)).

(** The process is gone: its files are there, its entry is marked. *)
Definition reap (pid : nat) (p : proc) (ran : Q) (w : World) : World :=
  set_procs (<[pid := set_state Reaped p]> (procs w))
            (set_fs (output H (p_cmd p) ran (p_cwd p) (fs w)) w).

(** [p.communicate(timeout=t)] with no pipes: wait for the process to
    exit. The process is polled once at least, so a timeout below zero
    counts as zero; TimeoutExpired is raised when the process is still
    running once the timeout has passed. *)
Definition communicate (pid : nat) (timeout : option Q) : M unit :=
  fun w0 =>
    let w := log (EvCommunicate pid timeout) w0 in
    match procs w !! pid with
    | None => (Ret tt, w)
    | Some p =>
        match p_state p with
        | Reaped => (Ret tt, w)
        | Killed t => (Ret tt, reap pid p (t - p_start p) w)
        | Running =>
            match run_time H (p_cmd p), timeout with
            | Some d, None =>
                (Ret tt, reap pid p d (set_clock (Qmax (clock w) (p_start p + d)) w))
            | Some d, Some t =>
                if Qle_bool (p_start p + d) (clock w + Qmax 0 t) then
                  (Ret tt, reap pid p d (set_clock (Qmax (clock w) (p_start p + d)) w))
                else (Raise TimeoutExpired, set_clock (clock w + Qmax 0 t) w)
            | None, Some t => (Raise TimeoutExpired, set_clock (clock w + Qmax 0 t) w)
            | None, None => (Hang, w)
            end
        end
    end.

(** Has the process exited by itself by now? *)
Definition exited (p : proc) (now : Q) : bool :=
  match run_time H (p_cmd p) with
  | Some d => Qle_bool (p_start p + d) now
  | None => false
  end.

(** [p.kill()]: nothing happens to a process that has exited. *)
Definition kill (pid : nat) : M unit :=
  fun w0 =>
    let w := log (EvKill pid) w0 in
    match procs w !! pid with
    | Some p =>
        match p_state p with
        | Running =>
            if exited p (clock w) then (Ret tt, w)
            else (Ret tt, set_procs (<[pid := set_state (Killed (clock w)) p]> (procs w)) w)
        | _ => (Ret tt, w)
        end
    | None => (Ret tt, w)
    end.

(** The command [Popen(cmdline, shell=True)] runs. *)
Definition shell_cmd (cmdline : string) : list string := ["/bin/sh"; "-c"; cmdline].

(** [p = Popen("str2cif <" + infile + ">" + outfile, shell=True, cwd=d)]
    and [p.communicate()]: a shell is started in [d] and waited for
    without timeout. The shell opens the input first: when it is missing
    it runs nothing and exits at once; otherwise the converter runs for as
    long as the host says, or for ever, and the output file holds what it
    prints. *)
Definition shell_str2cif (d cmdline infile outfile : string) : M unit :=
  fun w0 =>
    let pid := length (procs w0) in
    let p := mkProc (shell_cmd cmdline) d (clock w0) Running in
    let w := log (EvCommunicate pid None)
                 (log (EvShell d cmdline) (set_procs (procs w0 ++ [p]) w0)) in
    let reaped := <[pid := set_state Reaped p]> (procs w) in
    match fs w !! (d, infile) with
    | None => (Ret tt, set_procs reaped w)
    | Some c =>
        match run_time H (shell_cmd cmdline) with
        | Some t =>
            (Ret tt,
             set_procs reaped
               (set_fs (<[(d, outfile) := str2cif H c]> (fs w))
                  (set_clock (Qmax (clock w) (clock w + t)) w)))
        | None => (Hang, w)
        end
    end.

(** [Path(path)], as the directory it names from the working directory:
    where [path.glob], [path / name] and [cwd=path] look, and what
    [str(path.resolve())] returns. *)
Definition resolve (path : string) : M string :=
  get (fun w => PyPath.resolve_from (cwd w) path).

(** [len(list(d.glob(pattern)))] *)
Definition glob_count (d : string) (pattern : list glob_item) : M nat :=
  get (fun w =>
    length (filter (fun k : string * string =>
                      k.1 = d /\ glob_match pattern k.2 = true)
                   (elements (dom (fs w))))).

End Runtime.

(* ===================================================================== *)
(** ** The module *)
(* ===================================================================== *)

Section Module_.

Context (H : Host).

(** [float(s)]; the message of its ValueError ends with [repr(s)]. *)
Definition float (s : string) : M Q :=
  match float_of_str H s with
  | Some x => ret x
  | None => raise (ValueError ("could not convert string to float: " ++ PyStr.repr s))
  end.

(** [lines[-1].split('=')[-1].strip()], lines 213 and 238; IndexError
    when there is no line. *)
Definition last_token (lines : list string) : M string :=
  match objective_token lines with
  | Some t => ret t
  | None => raise IndexError
  end.

(** Lines 213-215: the objective function of the best structure. *)
Definition best_objective (lines : list string) : M objective :=
  objective_function <- last_token lines ;;
  if negb (String.eqb objective_function "Perfect_match") then
    x <- float objective_function ;; ret (Objective x)
  else ret Perfect_match.

(** Lines 238-242: the objective function of one instance. *)
Definition instance_objective (objective_function : objective)
    (lines : list string) : M objective :=
  obj <- last_token lines ;;
  if String.eqb obj "Perfect_match" then ret objective_function
  else x <- float obj ;; ret (Objective x).

(** Lines 221-243: one round of the loop over [range(instances)]. The
    structure is read from [sqs_cif] as it is, a name relative to the
    working directory; the two other files are under [path]. *)
Definition parse_instance (path : string) (objective_function : objective)
    (i : nat) : M SqsEntry :=
  let sqs_out := "bestsqs" ++ pretty (i + 1)%nat ++ ".out" in
  let sqs_cif := "bestsqs" ++ pretty (i + 1)%nat ++ ".cif" in
  let corr_out := "bestcorr" ++ pretty (i + 1)%nat ++ ".out" in
  shell_str2cif H path ("str2cif <" ++ sqs_out ++ ">" ++ sqs_cif) sqs_out sqs_cif ;;
  here <- getcwd ;;
  sqs <- Structure_from_file H here sqs_cif ;;
  lines <- read_lines path corr_out ;;
  obj <- instance_objective objective_function lines ;;
  ret (mkEntry sqs obj).

(** Lines 180-250. *)
Definition _parse_sqs_path (path : string) : M Sqs :=
  path <- resolve path ;;
  instances <- glob_count path bestsqs_glob ;;
  shell_str2cif H path "str2cif < bestsqs.out > bestsqs.cif" "bestsqs.out" "bestsqs.cif" ;;
  bestsqs <- Structure_from_file H path "bestsqs.cif" ;;
  lines <- read_lines path "bestcorr.out" ;;
  objective_function <- best_objective lines ;;
  allsqs <- for_append (seq 0 instances) (parse_instance path objective_function) [] ;;
  ret (mkSqs bestsqs objective_function allsqs path).

(** The text of [sqscell.out], lines 100-103. *)
Definition identity_cell : string :=
  "1" ++ PyStr.nl ++ "1 0 0" ++ PyStr.nl ++ "0 1 0" ++ PyStr.nl ++ "0 0 1" ++ PyStr.nl.

(** Lines 90-105: the structure to write and the search command. *)
Definition prepare_scaling (structure : Structure) (num_atoms : Z)
    (scaling : scaling_spec) : M (Structure * list string) :=
  match scaling with
  | Scalar k =>
      if num_truthy (num_mod_1 k) then
        raise (ValueError ("Scaling should be an integer, not " ++ str_num H k))
      else ret (structure, ["mcsqs"; "-n " ++ str_num H (num_mul_int k num_atoms)])
  | Vector a b c =>
      write_file "sqscell.out" identity_cell ;;
      ret (supercell structure a b c, ["mcsqs"; "-rc"; "-n " ++ pretty num_atoms])
  end.

(** Lines 110-112. *)
Definition generate_clusters_cmd (clusters : list (Z * num)) : list string :=
  "mcsqs" :: map (fun kv : Z * num => "-" ++ pretty kv.1 ++ "=" ++ str_num H kv.2) clusters.

(** Lines 121-127. *)
Definition add_ons (temperature wr wn wd tol : num) : list string :=
  [ "-T " ++ str_num H temperature;
    "-wr " ++ str_num H wr;
    "-wn " ++ str_num H wn;
    "-wd " ++ str_num H wd;
    "-tol " ++ str_num H tol ].

(** [instances > 1]; the count is [None] when [os.cpu_count()] is. *)
Definition more_than_one (instances : option Z) : M bool :=
  match instances with
  | Some n => ret (1 <? n)%Z
  | None => raise TypeError
  end.

(** Lines 129-141: the handles of the search processes. *)
Definition launch (instances : option Z) (cmd : list string) : M (list nat) :=
  parallel <- more_than_one instances ;;
  if parallel then
    for_append (seqZ 0 (default 0%Z instances))
               (fun i => Popen (cmd ++ ["-ip " ++ pretty (i + 1)%Z])) []
  else
    p <- Popen cmd ;; ret [p].

(** Lines 147-151 and 165-169: [mcsqs -best] when there are several
    instances. *)
Definition select_best (instances : option Z) : M unit :=
  parallel <- more_than_one instances ;;
  if parallel then p <- Popen ["mcsqs"; "-best"] ;; communicate H p None
  else ret tt.

(** [os.path.exists("bestsqs.out") and os.path.exists("bestcorr.out")] *)
Definition best_files_exist : M bool :=
  a <- path_exists "bestsqs.out" ;;
  if a then path_exists "bestcorr.out" else ret false.

(** Lines 144-145. *)
Definition wait_all (processes : list nat) (search_time : Q) : M unit :=
  for_each processes (fun p => communicate H p (Some (search_time * 60)%Q)).

(** Lines 147-157. *)
Definition on_completion (instances : option Z) : M Sqs :=
  select_best instances ;;
  found <- best_files_exist ;;
  if found then _parse_sqs_path "."
  else raise (Exception_ "mcsqs exited before timeout reached").

(** Lines 160-177. *)
Definition on_timeout (processes : list nat) (instances : option Z)
    (original_directory : string) : M Sqs :=
  for_each processes (fun p => kill H p ;; communicate H p None) ;;
  select_best instances ;;
  found <- best_files_exist ;;
  if found then _parse_sqs_path "."
  else
    chdir original_directory ;;
    raise (TimeoutError "Cluster expansion took too long.").

(** Lines 143-177. *)
Definition search (processes : list nat) (instances : option Z)
    (search_time : Q) (original_directory : string) : M Sqs :=
  try_except_TimeoutExpired
    (wait_all processes search_time ;; on_completion instances)
    (on_timeout processes instances original_directory).

(** Lines 33-177. The [@requires] guard is taken as passed: both binaries
    are installed. *)
Definition run_mcsqs (structure : Structure) (clusters : list (Z * num))
    (scaling : scaling_spec) (search_time : Q) (directory : option string)
    (instances : option Z) (temperature wr wn wd tol : num) : M Sqs :=
  let num_atoms := Z.of_nat (length structure) in
  if is_ordered structure then raise (ValueError "Pick a disordered structure")
  else
    let instances :=
      match instances with
      | None => Z.pos <$> cpu_count H
      | Some n => Some n
      end in
    original_directory <- getcwd ;;
    let directory :=
      match directory with
      | None | Some EmptyString => mkdtemp H
      | Some d => d
      end in
    chdir directory ;;
    prepared <- prepare_scaling structure num_atoms scaling ;;
    let structure := prepared.1 in
    let mcsqs_find_sqs_cmd := prepared.2 in
    Structure_to H structure "rndstr.in" ;;
    p <- Popen (generate_clusters_cmd clusters) ;;
    communicate H p None ;;
    mcsqs_find_sqs_processes <-
      launch instances (mcsqs_find_sqs_cmd ++ add_ons temperature wr wn wd tol) ;;
    search mcsqs_find_sqs_processes instances search_time original_directory.

(** The waiting loop the spec describes: one deadline, [search_time * 60]
    seconds after the loop starts, shared by all the waits; each wait gets
    what is left of it. It is compared with [wait_all] below. *)
Definition wait_all_shared_deadline_spec (processes : list nat) (search_time : Q) : M unit :=
  start <- get clock ;;
  let deadline := (start + search_time * 60)%Q in
  for_each processes (fun p =>
    now <- get clock ;;
    communicate H p (Some (deadline - now)%Q)).

End Module_.

(* ===================================================================== *)
(** ** A concrete host, to run the module on *)
(* ===================================================================== *)

Module Demo.

(** The instance index of a search command: the [k] of its ["-ip k"]. *)
Definition instance_of (cmd : list string) : option string :=
  match filter (fun a => String.prefix "-ip " a = true) cmd with
  | a :: _ => Some (String.substring 4 (String.length a - 4) a)
  | [] => None
  end.

Definition has_flag (flag : string) (cmd : list string) : bool :=
  existsb (String.eqb flag) cmd.

Definition is_search (cmd : list string) : bool :=
  existsb (String.prefix "-T ") cmd.

(** Instance 1 needs 50 seconds and instance 2 needs 100; any other search
    runs until it is killed. Cluster generation and [-best] take a second. *)
Definition demo_run_time (cmd : list string) : option Q :=
  if is_search cmd then
    match instance_of cmd with
    | Some "1" => Some 50%Q
    | Some "2" => Some 100%Q
    | _ => None
    end
  else Some 1%Q.

Definition copy (d from to : string) (f : files) : files :=
  match f !! (d, from) with
  | Some c => <[(d, to) := c]> f
  | None => f
  end.

(** A search leaves its first result after 10 seconds, under the names of
    its instance; [-best] copies the files of instance 1. *)
Definition demo_output (cmd : list string) (ran : Q) (d : string) (f : files) : files :=
  if is_search cmd then
    if Qle_bool 10 ran then
      let k := default "" (instance_of cmd) in
      <[(d, "bestsqs" ++ k ++ ".out") := "Fe" ++ PyStr.nl ++ "Ni" ++ PyStr.nl]>
        (<[(d, "bestcorr" ++ k ++ ".out") := "Objective_function= 7" ++ PyStr.nl]> f)
    else f
  else if has_flag "-best" cmd then
    copy d "bestsqs1.out" "bestsqs.out" (copy d "bestcorr1.out" "bestcorr.out" f)
  else <[(d, "clusters.out") := ""]> f.

(** Floats are printed as fractions and read as decimal integers. *)
Definition demo_str_float (x : Q) : string :=
  pretty (Qnum x) ++ "/" ++ pretty (Z.pos (Qden x)).

Definition demo_float_of_str (s : string) : option Q :=
  match DecimalString.NilZero.int_of_string s with
  | Some i => Some (inject_Z (Z.of_int i))
  | None => None
  end.

(** A structure file lists the species, one per line. *)
Definition demo_to_rndstr (s : Structure) : string :=
  String.concat "" (map (fun site => species site ++ PyStr.nl) s).

Definition demo_from_cif (c : string) : option Structure :=
  Some (map (fun l => mkSite (PyStr.strip l) 1) (PyStr.readlines c)).

Definition host : Host :=
  mkHost (Some 2%positive) "/tmp/run" demo_str_float demo_float_of_str
         demo_to_rndstr demo_from_cif (fun s => s) demo_run_time demo_output.

(** The same machine with one core. *)
Definition single_core : Host :=
  mkHost (Some 1%positive) "/tmp/run" demo_str_float demo_float_of_str
         demo_to_rndstr demo_from_cif (fun s => s) demo_run_time demo_output.

(** A machine whose binaries exit after a second and write nothing. *)
Definition broken : Host :=
  mkHost (Some 2%positive) "/tmp/run" demo_str_float demo_float_of_str
         demo_to_rndstr demo_from_cif (fun s => s)
         (fun _ => Some 1%Q) (fun _ _ _ f => f).

Definition empty_world : World := mkWorld "/home" ∅ 0 [] [].

(** A disordered structure of two sites, and an ordered one. *)
Definition alloy : Structure := [mkSite "Fe" (1 # 2); mkSite "Ni" 1].
Definition crystal : Structure := [mkSite "Fe" 1; mkSite "Ni" 1].

Definition clusters : list (Z * num) := [(2%Z, Float (3 # 1)); (3%Z, Int 2)].

(** The world right after two instances are launched. *)
Definition search_cmd : list string := ["mcsqs"; "-n 8"; "-T 1"].
Definition two_launched : World := (launch (Some 2%Z) search_cmd empty_world).2.

(** A run directory as a parallel run of one instance's worth of output
    leaves it, before it is parsed. *)
Definition run_dir : World :=
  mkWorld "/run"
    (<[("/run", "bestsqs.out") := "Fe" ++ PyStr.nl]>
     (<[("/run", "bestcorr.out") := "Objective_function= 7" ++ PyStr.nl]>
      (<[("/run", "bestsqs1.out") := "Fe" ++ PyStr.nl]>
       (<[("/run", "bestcorr1.out") := "Objective_function= Perfect_match" ++ PyStr.nl]> ∅))))
    0 [] [].

(** A machine whose binaries never exit by themselves. *)
Definition stalled : Host :=
  mkHost (Some 2%positive) "/tmp/run" demo_str_float demo_float_of_str
         demo_to_rndstr demo_from_cif (fun s => s)
         (fun _ => None) (fun _ _ _ f => f).

(** The same files seen from another working directory. *)
Definition elsewhere : World := set_cwd "/home" run_dir.

(** A run directory with the two best-output files only. *)
Definition plain_dir : World :=
  mkWorld "/run"
    (<[("/run", "bestsqs.out") := "Fe" ++ PyStr.nl]>
     (<[("/run", "bestcorr.out") := "Objective_function= 7" ++ PyStr.nl]> ∅))
    0 [] [].

End Demo.

(* ===================================================================== *)
(** ** Notions used in the statements *)
(* ===================================================================== *)

Open Scope list_scope.

(** What a computation leaves alone. *)
Definition grows {A} (m : M A) : Prop :=
  forall w, exists l, trace (m w).2 = trace w ++ l.

Definition stays {A} (m : M A) : Prop :=
  forall w, cwd (m w).2 = cwd w.

(** The exceptions a computation can end with. *)
Definition raises {A} (P : exn -> Prop) (m : M A) : Prop :=
  forall w e, (m w).1 = Raise e -> P e.

(** Where a computation leaves the working directory: back in [orig] when
    it ends with TimeoutError, where it was otherwise. *)
Definition ends {A} (orig : string) (m : M A) : Prop :=
  forall w,
    match (m w).1 with
    | Raise (TimeoutError _) => cwd (m w).2 = orig
    | _ => cwd (m w).2 = cwd w
    end.

(** The exceptions that are neither of the two time-outs. *)
Definition no_timeout (e : exn) : Prop :=
  match e with
  | TimeoutExpired | TimeoutError _ => False
  | _ => True
  end.

(** The errors of reading and parsing the output files. *)
Definition parse_error (e : exn) : Prop :=
  match e with
  | ValueError _ | IndexError | FileNotFoundError _ _ | StructureParseError => True
  | _ => False
  end.

Definition is_Popen (e : event) : bool :=
  match e with
  | EvPopen _ _ | EvShell _ _ => true
  | _ => false
  end.

(** The number of subprocesses a log shows. *)
Definition launched (t : list event) : nat := length (filter (fun e => is_Popen e = true) t).

(** Both best-output files are in the working directory. *)
Definition best_files_present (w : World) : bool :=
  bool_decide (is_Some (fs w !! (cwd w, "bestsqs.out"))) &&
  bool_decide (is_Some (fs w !! (cwd w, "bestcorr.out"))).

(** The directory a run works in: the one given, or a fresh one. *)
Definition run_directory (H : Host) (directory : option string) : string :=
  match directory with
  | None | Some EmptyString => mkdtemp H
  | Some d => d
  end.

(** What follows the validation of the input in [run_mcsqs], lines 107-177. *)
Definition after_validation (H : Host) (clusters : list (Z * num)) (search_time : Q)
    (instances : option Z) (temperature wr wn wd tol : num)
    (original_directory : string) (prepared : Structure * list string) : M Sqs :=
  (Structure_to H prepared.1 "rndstr.in" ;;
   p <- Popen (generate_clusters_cmd H clusters) ;;
   communicate H p None ;;
   mcsqs_find_sqs_processes <-
     launch instances (prepared.2 ++ add_ons H temperature wr wn wd tol) ;;
   search H mcsqs_find_sqs_processes instances search_time original_directory)%py.

(** What follows the writing of the input files in [run_mcsqs], lines
    109-177. *)
Definition after_input (H : Host) (clusters : list (Z * num)) (search_time : Q)
    (instances : option Z) (temperature wr wn wd tol : num)
    (original_directory : string) (mcsqs_find_sqs_cmd : list string) : M Sqs :=
  (p <- Popen (generate_clusters_cmd H clusters) ;;
   communicate H p None ;;
   mcsqs_find_sqs_processes <-
     launch instances (mcsqs_find_sqs_cmd ++ add_ons H temperature wr wn wd tol) ;;
   search H mcsqs_find_sqs_processes instances search_time original_directory)%py.

(** The instance count after line 81. *)
Definition default_instances (H : Host) (instances : option Z) : option Z :=
  match instances with
  | None => Z.pos <$> cpu_count H
  | Some n => Some n
  end.

(** A scalar with an integer value. *)
Definition integer_valued (k : num) : Prop :=
  match k with
  | Int _ => True
  | Float x => exists z : Z, x == inject_Z z
  end.

Definition positive_integer (k : num) : Prop :=
  match k with
  | Int z => (0 < z)%Z
  | Float x => exists z : Z, (0 < z)%Z /\ x == inject_Z z
  end.

(** The rows of a cell file: the lines after the first, split at blanks. *)
Definition cell_rows (text : string) : list (list string) :=
  map (fun l => PyStr.split " " (PyStr.strip l)) (tail (PyStr.readlines text)).

(** The number of files of a directory that match ['bestsqs*[0-9]*']. *)
Definition indexed_count (d : string) (f : files) : nat :=
  length (filter (fun k : string * string =>
                    k.1 = d /\ glob_match bestsqs_glob k.2 = true)
                 (elements (dom f))).

(** Lines 160-162: every process is killed and waited for. *)
Definition kill_all (H : Host) (processes : list nat) : M unit :=
  for_each processes (fun p => kill H p ;; communicate H p None)%py.

(** The [-ip] flag of instance [i + 1], line 133. *)
Definition instance_cmd (i : Z) : list string := [("-ip " ++ pretty (i + 1)%Z)%string].

(** The directory [Path(path)] stands for. *)
Definition resolved (w : World) (path : string) : string :=
  PyPath.resolve_from (cwd w) path.

(** The name of the correlation report of instance [i + 1], line 223. *)
Definition corr_out (i : nat) : string :=
  ("bestcorr" ++ pretty (i + 1)%nat ++ ".out")%string.

(** How the text of a correlation report and the objective function read
    from it are related, given what stands for the sentinel: the token
    after the last ['='] of the last line is the sentinel text, or a float. *)
Definition read_as (H : Host) (for_sentinel : objective) (report : string)
    (o : objective) : Prop :=
  exists tok,
    objective_token (PyStr.readlines report) = Some tok
    /\ (tok = "Perfect_match" -> o = for_sentinel)
    /\ (tok <> "Perfect_match" -> exists x, float_of_str H tok = Some x /\ o = Objective x).

(** The name of the converted structure of instance [i + 1], line 222. *)
Definition sqs_cif (i : nat) : string :=
  ("bestsqs" ++ pretty (i + 1)%nat ++ ".cif")%string.

(** No file is lost from [f] to [f']. *)
Definition files_kept (f f' : files) : Prop :=
  forall k, is_Some (f !! k) -> is_Some (f' !! k).

(** Two file systems with the same correlation reports. *)
Definition same_reports (f f' : files) : Prop :=
  forall d name, String.prefix "bestcorr" name = true -> f' !! (d, name) = f !! (d, name).

(** A command with no [-ip] flag: not one of the instances of a parallel
    search. *)
Definition unindexed_cmd (cmd : list string) : Prop :=
  Forall (fun a => String.prefix "-ip " a = false) cmd.

(** The binaries of the host, run without [-ip] flag, create no file whose
    name matches the pattern of line 194. *)
Definition writes_unindexed (H : Host) : Prop :=
  forall cmd ran d (f : files) dir name,
    unindexed_cmd cmd ->
    glob_match bestsqs_glob name = true ->
    is_Some (output H cmd ran d f !! (dir, name)) ->
    is_Some (f !! (dir, name)).

(** No file of the directory matches the pattern of line 194. *)
Definition no_indexed (d : string) (f : files) : Prop :=
  forall name, is_Some (f !! (d, name)) -> glob_match bestsqs_glob name = false.

(** What holds all along a run with a single instance in directory [d]:
    the process is in [d], no file of [d] matches the pattern, and the
    processes launched since the run began (those from [n0] on) have no
    [-ip] flag. *)
Definition single_inv (d : string) (n0 : nat) (w : World) : Prop :=
  cwd w = d
  /\ no_indexed d (fs w)
  /\ (n0 <= length (procs w))%nat
  /\ forall pid p, (n0 <= pid)%nat -> procs w !! pid = Some p -> unindexed_cmd (p_cmd p).

(** A triple: from a world in [I], the computation returns in [Q] and
    raises TimeoutExpired in [J]. *)
Definition triple {A} (I : World -> Prop) (m : M A) (Q : A -> World -> Prop)
    (J : World -> Prop) : Prop :=
  forall w, I w ->
    match (m w).1 with
    | Ret a => Q a (m w).2
    | Raise TimeoutExpired => J (m w).2
    | _ => True
    end.

(** Does the character occur in the string? *)
Fixpoint occurs (c : ascii) (s : string) : bool :=
  match s with
  | EmptyString => false
  | String a s' => Ascii.eqb a c || occurs c s'
  end.

(** A text made of whole lines: empty, or ended by a newline. *)
Definition whole_lines (s : string) : Prop :=
  s = EmptyString \/ exists s0, s = (s0 ++ PyStr.nl)%string.

(** The state of a launched process. *)
Definition state_of (w : World) (pid : nat) : option proc_state :=
  p_state <$> procs w !! pid.

(** Does the string hold a decimal digit? *)
Fixpoint has_digit (s : string) : bool :=
  match s with
  | EmptyString => false
  | String c s' => in_range "0" "9" c || has_digit s'
  end.

(** The scalings that line 92 lets through. *)
Definition scaling_accepted (scaling : scaling_spec) : Prop :=
  match scaling with
  | Scalar k => integer_valued k
  | Vector _ _ _ => True
  end.

(** The search command of lines 94 and 105, before the weights. *)
Definition find_sqs_cmd (H : Host) (structure : Structure) (scaling : scaling_spec)
    : list string :=
  match scaling with
  | Scalar k =>
      ["mcsqs"; ("-n " ++ str_num H (num_mul_int k (Z.of_nat (length structure))))%string]
  | Vector _ _ _ =>
      ["mcsqs"; "-rc"; ("-n " ++ pretty (Z.of_nat (length structure)))%string]
  end.

(** The structure of line 107. *)
Definition written_structure (structure : Structure) (scaling : scaling_spec) : Structure :=
  match scaling with
  | Scalar _ => structure
  | Vector a b c => supercell structure a b c
  end.

(** What the run logs before cluster generation is launched. *)
Definition preparation_events (H : Host) (d : string) (structure : Structure)
    (scaling : scaling_spec) : list event :=
  EvChdir d
  :: match scaling with
     | Scalar _ => []
     | Vector _ _ _ => [EvWrite d "sqscell.out" identity_cell]
     end
  ++ [EvWrite d "rndstr.in" (to_rndstr H (written_structure structure scaling))].

(** The events of launching the search, lines 130-141. *)
Definition launch_events (first : nat) (instances : Z) (cmd : list string) : list event :=
  if (1 <? instances)%Z then
    imap (fun j i => EvPopen (first + j) (cmd ++ instance_cmd i)) (seqZ 0 instances)
  else [EvPopen first cmd].

(** A computation that leaves the world as it is. *)
Definition pure {A} (m : M A) : Prop := forall w, (m w).2 = w.

(** A computation that takes every world to one related to it. *)
Definition respects {A} (R : World -> World -> Prop) (m : M A) : Prop :=
  forall w, R w (m w).2.

(** The name of a converted structure: [bestsqs...cif]. *)
Definition cif_name (name : string) : Prop :=
  exists mid, name = ("bestsqs" ++ mid ++ ".cif")%string.

(** The calls of a conversion: the launch of a shell and the wait for
    it, without timeout. *)
Definition is_conversion_call (e : event) : bool :=
  match e with
  | EvShell _ _ | EvCommunicate _ None => true
  | _ => false
  end.

(** A shell started in the directory [d]. *)
Definition shell_in (d : string) (p : proc) : Prop :=
  p_cwd p = d /\ exists cmdline, p_cmd p = shell_cmd cmdline.

(** From [w] to [w'] nothing has happened but conversions by shells
    started in [d]: the working directory is the same, the clock has not
    gone back, the processes of [w] are as they were and those added are
    such shells, no file is lost, the files that differ are converted
    structures of [d], and the log has grown by the calls of conversions. *)
Definition only_cif_written (d : string) (w w' : World) : Prop :=
  cwd w' = cwd w
  /\ (clock w <= clock w')%Q
  /\ (exists new, procs w' = procs w ++ new /\ Forall (shell_in d) new)
  /\ (forall k, is_Some (fs w !! k) -> is_Some (fs w' !! k))
  /\ (forall k, fs w' !! k <> fs w !! k -> k.1 = d /\ cif_name k.2)
  /\ exists l, trace w' = trace w ++ l /\ Forall (fun e => is_conversion_call e = true) l.

(** The text [bestsqs.cif] holds once line 197 has run: the conversion of
    [bestsqs.out] when that file is there, and what it held before when not. *)
Definition converted_best (H : Host) (w : World) (d : string) : option string :=
  match fs w !! (d, "bestsqs.out") with
  | Some c => Some (str2cif H c)
  | None => fs w !! (d, "bestsqs.cif")
  end.

(** From [w] to [w'] no process is lost and none that was reaped is back. *)
Definition reaped_kept (w w' : World) : Prop :=
  (length (procs w) <= length (procs w'))%nat
  /\ forall q, state_of w q = Some Reaped -> state_of w' q = Some Reaped.

Definition is_kill (e : event) : bool :=
  match e with
  | EvKill _ => true
  | _ => false
  end.

(** From [w] to [w'] the log has grown, and by no kill. *)
Definition no_kill (w w' : World) : Prop :=
  exists l, trace w' = trace w ++ l /\ Forall (fun e => is_kill e = false) l.

(* ===================================================================== *)
(** ** The monad: how properties pass through [bind] and the loops *)
(* ===================================================================== *)

Section Frames.

Context {A B : Type}.

Lemma bind_Ret (m : M A) (k : A -> M B) w a w' :
  m w = (Ret a, w') -> bind m k w = k a w'.
Proof. intros E. unfold bind. now rewrite E. Qed.

Lemma bind_Raise (m : M A) (k : A -> M B) w e w' :
  m w = (Raise e, w') -> bind m k w = (Raise e, w').
Proof. intros E. unfold bind. now rewrite E. Qed.

Lemma bind_Hang (m : M A) (k : A -> M B) w w' :
  m w = (Hang, w') -> bind m k w = (Hang, w').
Proof. intros E. unfold bind. now rewrite E. Qed.

Lemma grows_bind (m : M A) (k : A -> M B) :
  grows m -> (forall a, grows (k a)) -> grows (bind m k).
Proof.
  intros Hm Hk w. unfold bind.
  destruct (Hm w) as [l1 E1]. destruct (m w) as [[a | e |] w1]; simpl in *.
  - destruct (Hk a w1) as [l2 E2]. exists (l1 ++ l2).
    now rewrite E2, E1, app_assoc.
  - now exists l1.
  - now exists l1.
Qed.

Lemma stays_bind (m : M A) (k : A -> M B) :
  stays m -> (forall a, stays (k a)) -> stays (bind m k).
Proof.
  intros Hm Hk w. unfold bind.
  pose proof (Hm w) as E1. destruct (m w) as [[a | e |] w1]; simpl in *; auto.
  now rewrite (Hk a w1).
Qed.

Lemma raises_bind P (m : M A) (k : A -> M B) :
  raises P m -> (forall a, raises P (k a)) -> raises P (bind m k).
Proof.
  intros Hm Hk w e. unfold bind.
  pose proof (Hm w) as E1. destruct (m w) as [[a | e' |] w1]; simpl in *.
  - apply Hk.
  - intros [= <-]. now apply E1.
  - discriminate.
Qed.

Lemma raises_weaken (P Q : exn -> Prop) (m : M A) :
  (forall e, P e -> Q e) -> raises P m -> raises Q m.
Proof. intros HPQ Hm w e E. apply HPQ, (Hm w e E). Qed.

Lemma grows_ret (a : A) : grows (ret a).
Proof. intros w. exists []. simpl. now rewrite app_nil_r. Qed.

Lemma stays_ret (a : A) : stays (ret a).
Proof. now intros w. Qed.

Lemma raises_ret P (a : A) : raises P (ret a).
Proof. intros w e. discriminate. Qed.

Lemma grows_raise (e : exn) : grows (@raise A e).
Proof. intros w. exists []. simpl. now rewrite app_nil_r. Qed.

Lemma stays_raise (e : exn) : stays (@raise A e).
Proof. now intros w. Qed.

Lemma raises_raise (P : exn -> Prop) (e : exn) : P e -> raises P (@raise A e).
Proof. intros HP w e' [= <-]. exact HP. Qed.

Lemma grows_get (f : World -> A) : grows (get f).
Proof. intros w. exists []. simpl. now rewrite app_nil_r. Qed.

Lemma stays_get (f : World -> A) : stays (get f).
Proof. now intros w. Qed.

Lemma raises_get P (f : World -> A) : raises P (get f).
Proof. intros w e. discriminate. Qed.

End Frames.

Lemma raises_modify P (f : World -> World) : raises P (modify f).
Proof. intros w e. discriminate. Qed.

Lemma grows_for_each {A} (l : list A) (body : A -> M unit) :
  (forall x, grows (body x)) -> grows (for_each l body).
Proof.
  intros Hb. induction l as [| x l IH]; simpl.
  - apply grows_ret.
  - apply grows_bind; auto.
Qed.

Lemma stays_for_each {A} (l : list A) (body : A -> M unit) :
  (forall x, stays (body x)) -> stays (for_each l body).
Proof.
  intros Hb. induction l as [| x l IH]; simpl.
  - apply stays_ret.
  - apply stays_bind; auto.
Qed.

Lemma raises_for_each {A} P (l : list A) (body : A -> M unit) :
  (forall x, raises P (body x)) -> raises P (for_each l body).
Proof.
  intros Hb. induction l as [| x l IH]; simpl.
  - apply raises_ret.
  - apply raises_bind; auto.
Qed.

Lemma grows_for_append {A B} (l : list A) (body : A -> M B) acc :
  (forall x, grows (body x)) -> grows (for_append l body acc).
Proof.
  intros Hb. revert acc. induction l as [| x l IH]; intros acc; simpl.
  - apply grows_ret.
  - apply grows_bind; auto.
Qed.

Lemma stays_for_append {A B} (l : list A) (body : A -> M B) acc :
  (forall x, stays (body x)) -> stays (for_append l body acc).
Proof.
  intros Hb. revert acc. induction l as [| x l IH]; intros acc; simpl.
  - apply stays_ret.
  - apply stays_bind; auto.
Qed.

Lemma raises_for_append {A B} P (l : list A) (body : A -> M B) acc :
  (forall x, raises P (body x)) -> raises P (for_append l body acc).
Proof.
  intros Hb. revert acc. induction l as [| x l IH]; intros acc; simpl.
  - apply raises_ret.
  - apply raises_bind; auto.
Qed.

(* ===================================================================== *)
(** ** The runtime calls: what each one leaves alone *)
(* ===================================================================== *)

Ltac grows_step :=
  first [ exists []; simpl; now rewrite app_nil_r
        | eexists; simpl; reflexivity ].

Ltac by_cases tac :=
  intros w; unfold tac, modify, get; simpl; repeat case_match; simpl.

Create HintDb frame.

Section RuntimeFrames.

Context (H : Host).

Lemma grows_chdir d : grows (chdir d).
Proof. intros w. now exists [EvChdir d]. Qed.

Lemma grows_write_file name c : grows (write_file name c).
Proof. intros w. now exists [EvWrite (cwd w) name c]. Qed.

Lemma stays_write_file name c : stays (write_file name c).
Proof. now intros w. Qed.

Lemma grows_read_lines d name : grows (read_lines d name).
Proof. by_cases read_lines; grows_step. Qed.

Lemma stays_read_lines d name : stays (read_lines d name).
Proof. by_cases read_lines; reflexivity. Qed.

Lemma raises_read_lines d name : raises parse_error (read_lines d name).
Proof. by_cases read_lines; intros e [= <-]; exact I. Qed.

Lemma grows_Structure_from_file d name : grows (Structure_from_file H d name).
Proof. by_cases Structure_from_file; grows_step. Qed.

Lemma stays_Structure_from_file d name : stays (Structure_from_file H d name).
Proof. by_cases Structure_from_file; reflexivity. Qed.

Lemma raises_Structure_from_file d name :
  raises parse_error (Structure_from_file H d name).
Proof. by_cases Structure_from_file; intros e [= <-]; exact I. Qed.

Lemma grows_Popen cmd : grows (Popen cmd).
Proof. intros w. now exists [EvPopen (length (procs w)) cmd]. Qed.

Lemma stays_Popen cmd : stays (Popen cmd).
Proof. now intros w. Qed.

Lemma raises_Popen P cmd : raises P (Popen cmd).
Proof. intros w e. discriminate. Qed.

Lemma trace_communicate pid t w :
  trace (communicate H pid t w).2 = trace w ++ [EvCommunicate pid t].
Proof. unfold communicate. repeat case_match; reflexivity. Qed.

Lemma grows_communicate pid t : grows (communicate H pid t).
Proof. intros w. eexists. apply trace_communicate. Qed.

Lemma stays_communicate pid t : stays (communicate H pid t).
Proof. by_cases communicate; reflexivity. Qed.

(** Without a timeout nothing is raised. *)
Lemma raises_communicate_None P pid : raises P (communicate H pid None).
Proof. by_cases communicate; intros e; discriminate. Qed.

(** With a timeout only TimeoutExpired is. *)
Lemma raises_communicate_Some pid t :
  raises (fun e => e = TimeoutExpired) (communicate H pid (Some t)).
Proof. by_cases communicate; intros e E; now inversion E. Qed.

Lemma trace_kill pid w : trace (kill H pid w).2 = trace w ++ [EvKill pid].
Proof. unfold kill. repeat case_match; reflexivity. Qed.

Lemma grows_kill pid : grows (kill H pid).
Proof. intros w. eexists. apply trace_kill. Qed.

Lemma stays_kill pid : stays (kill H pid).
Proof. by_cases kill; reflexivity. Qed.

Lemma raises_kill P pid : raises P (kill H pid).
Proof. by_cases kill; intros e; discriminate. Qed.

Lemma trace_shell_str2cif d c i o w :
  trace (shell_str2cif H d c i o w).2
  = trace w ++ [EvShell d c; EvCommunicate (length (procs w)) None].
Proof.
  unfold shell_str2cif. simpl. repeat case_match; simpl; now rewrite <- app_assoc.
Qed.

Lemma grows_shell_str2cif d c i o : grows (shell_str2cif H d c i o).
Proof. intros w. eexists. apply trace_shell_str2cif. Qed.

Lemma stays_shell_str2cif d c i o : stays (shell_str2cif H d c i o).
Proof. by_cases shell_str2cif; reflexivity. Qed.

Lemma raises_shell_str2cif P d c i o : raises P (shell_str2cif H d c i o).
Proof. by_cases shell_str2cif; intros e; discriminate. Qed.

(** The files after a conversion: the output file is written when the
    input is there and the converter exits. *)
Lemma fs_shell_str2cif d cmdline infile outfile w :
  fs (shell_str2cif H d cmdline infile outfile w).2
  = match fs w !! (d, infile), run_time H (shell_cmd cmdline) with
    | Some c, Some _ => <[(d, outfile) := str2cif H c]> (fs w)
    | _, _ => fs w
    end.
Proof.
  unfold shell_str2cif. simpl.
  destruct (fs w !! (d, infile)); [| reflexivity].
  destruct (run_time H (shell_cmd cmdline)); reflexivity.
Qed.

(** A conversion that returns has run the converter if the input was there. *)
Lemma shell_str2cif_Ret d cmdline infile outfile w w' :
  shell_str2cif H d cmdline infile outfile w = (Ret tt, w') ->
  fs w' = match fs w !! (d, infile) with
          | Some c => <[(d, outfile) := str2cif H c]> (fs w)
          | None => fs w
          end
  /\ (is_Some (fs w !! (d, infile)) -> is_Some (run_time H (shell_cmd cmdline))).
Proof.
  unfold shell_str2cif. simpl.
  destruct (fs w !! (d, infile)); [| intros [= <-]; split; [reflexivity | now intros []]].
  destruct (run_time H (shell_cmd cmdline)); [| discriminate].
  intros [= <-]. split; [reflexivity | eauto].
Qed.

Lemma grows_float s : grows (float H s).
Proof. by_cases float; grows_step. Qed.

Lemma stays_float s : stays (float H s).
Proof. by_cases float; reflexivity. Qed.

Lemma raises_float s : raises parse_error (float H s).
Proof. by_cases float; intros e [= <-]; exact I. Qed.

Lemma grows_last_token l : grows (last_token l).
Proof. by_cases last_token; grows_step. Qed.

Lemma stays_last_token l : stays (last_token l).
Proof. by_cases last_token; reflexivity. Qed.

Lemma raises_last_token l : raises parse_error (last_token l).
Proof. by_cases last_token; intros e [= <-]; exact I. Qed.

End RuntimeFrames.

#[export] Hint Resolve
  grows_ret grows_raise grows_get grows_chdir grows_write_file grows_read_lines
  grows_Structure_from_file grows_Popen grows_communicate grows_kill
  grows_shell_str2cif grows_float grows_last_token : frame.
#[export] Hint Resolve
  stays_ret stays_raise stays_get stays_write_file stays_read_lines
  stays_Structure_from_file stays_Popen stays_communicate stays_kill
  stays_shell_str2cif stays_float stays_last_token : frame.
#[export] Hint Resolve
  raises_ret raises_get raises_modify raises_read_lines raises_Structure_from_file
  raises_Popen raises_communicate_None raises_kill raises_shell_str2cif raises_float
  raises_last_token : frame.

(** Goes through a computation: [bind] by [bind], case by case. *)
Ltac frame_with bind_lemma loop1 loop2 :=
  repeat first
    [ progress intros
    | solve [ auto with frame ]
    | apply bind_lemma
    | apply loop1
    | apply loop2
    | match goal with
      | |- context [ if ?b then _ else _ ] => destruct b
      | |- context [ match ?x with _ => _ end ] => destruct x
      end ].

Ltac grows_auto := frame_with @grows_bind @grows_for_each @grows_for_append.
Ltac stays_auto := frame_with @stays_bind @stays_for_each @stays_for_append.

(* ===================================================================== *)
(** ** The module's functions: what each one leaves alone *)
(* ===================================================================== *)

Lemma grows_try_except {A} (body handler : M A) :
  grows body -> grows handler -> grows (try_except_TimeoutExpired body handler).
Proof.
  intros Hb Hh w. unfold try_except_TimeoutExpired.
  destruct (Hb w) as [l1 E1]. destruct (body w) as [[a | e |] w1]; simpl in *;
    try (now exists l1).
  destruct e; try (now exists l1).
  destruct (Hh w1) as [l2 E2]. exists (l1 ++ l2). now rewrite E2, E1, app_assoc.
Qed.

Section ModuleFrames.

Context (H : Host).

Lemma raises_best_objective l : raises parse_error (best_objective H l).
Proof.
  unfold best_objective. apply raises_bind; [apply raises_last_token |].
  intros t. destruct (negb _); [| apply raises_ret].
  apply raises_bind; [apply raises_float | intros; apply raises_ret].
Qed.

Lemma raises_instance_objective o l : raises parse_error (instance_objective H o l).
Proof.
  unfold instance_objective. apply raises_bind; [apply raises_last_token |].
  intros t. destruct (String.eqb _ _); [apply raises_ret |].
  apply raises_bind; [apply raises_float | intros; apply raises_ret].
Qed.

Lemma grows_best_objective l : grows (best_objective H l).
Proof. unfold best_objective. grows_auto. Qed.

Lemma stays_best_objective l : stays (best_objective H l).
Proof. unfold best_objective. stays_auto. Qed.

Lemma grows_instance_objective o l : grows (instance_objective H o l).
Proof. unfold instance_objective. grows_auto. Qed.

Lemma stays_instance_objective o l : stays (instance_objective H o l).
Proof. unfold instance_objective. stays_auto. Qed.

Lemma grows_parse_instance path o i : grows (parse_instance H path o i).
Proof.
  unfold parse_instance, getcwd.
  pose proof grows_instance_objective. grows_auto.
Qed.

Lemma stays_parse_instance path o i : stays (parse_instance H path o i).
Proof.
  unfold parse_instance, getcwd.
  pose proof stays_instance_objective. stays_auto.
Qed.

Lemma raises_parse_instance path o i : raises parse_error (parse_instance H path o i).
Proof.
  unfold parse_instance, getcwd.
  pose proof raises_instance_objective.
  repeat first [ progress intros | solve [auto with frame] | apply raises_bind ].
Qed.

Lemma grows__parse_sqs_path path : grows (_parse_sqs_path H path).
Proof.
  unfold _parse_sqs_path, resolve, glob_count.
  pose proof grows_best_objective. pose proof grows_parse_instance. grows_auto.
Qed.

Lemma stays__parse_sqs_path path : stays (_parse_sqs_path H path).
Proof.
  unfold _parse_sqs_path, resolve, glob_count.
  pose proof stays_best_objective. pose proof stays_parse_instance. stays_auto.
Qed.

(** When the parser raises, it is an error of reading or parsing: it
    never times out. *)
Lemma raises__parse_sqs_path path : raises parse_error (_parse_sqs_path H path).
Proof.
  unfold _parse_sqs_path, resolve, glob_count.
  pose proof raises_best_objective. pose proof raises_parse_instance.
  repeat first [ progress intros | solve [auto with frame] | apply raises_bind
               | apply raises_for_append ].
Qed.

Lemma grows_select_best i : grows (select_best H i).
Proof. unfold select_best, more_than_one. grows_auto. Qed.

Lemma stays_select_best i : stays (select_best H i).
Proof. unfold select_best, more_than_one. stays_auto. Qed.

Lemma raises_select_best i : raises (fun e => e = TypeError) (select_best H i).
Proof.
  unfold select_best, more_than_one. destruct i as [n |].
  - apply raises_bind; [apply raises_ret |]. intros [|]; [| apply raises_ret].
    apply raises_bind; [apply raises_Popen | intros; apply raises_communicate_None].
  - apply raises_bind; [now apply raises_raise | intros [|]; [| apply raises_ret]].
    apply raises_bind; [apply raises_Popen | intros; apply raises_communicate_None].
Qed.

Lemma grows_best_files_exist : grows best_files_exist.
Proof. unfold best_files_exist, path_exists. grows_auto. Qed.

Lemma stays_best_files_exist : stays best_files_exist.
Proof. unfold best_files_exist, path_exists. stays_auto. Qed.

Lemma best_files_exist_eq w : best_files_exist w = (Ret (best_files_present w), w).
Proof.
  unfold best_files_exist, best_files_present, path_exists, bind, get. simpl.
  now destruct (bool_decide _).
Qed.

Lemma grows_prepare_scaling s n sc : grows (prepare_scaling H s n sc).
Proof. unfold prepare_scaling. grows_auto. Qed.

Lemma stays_prepare_scaling s n sc : stays (prepare_scaling H s n sc).
Proof. unfold prepare_scaling. stays_auto. Qed.

Lemma grows_launch i cmd : grows (launch i cmd).
Proof. unfold launch, more_than_one. grows_auto. Qed.

Lemma stays_launch i cmd : stays (launch i cmd).
Proof. unfold launch, more_than_one. stays_auto. Qed.

Lemma grows_wait_all ps t : grows (wait_all H ps t).
Proof. unfold wait_all. grows_auto. Qed.

Lemma stays_wait_all ps t : stays (wait_all H ps t).
Proof. unfold wait_all. stays_auto. Qed.

Lemma raises_wait_all ps t : raises (fun e => e = TimeoutExpired) (wait_all H ps t).
Proof. unfold wait_all. apply raises_for_each. intros. apply raises_communicate_Some. Qed.

Lemma grows_on_completion i : grows (on_completion H i).
Proof.
  unfold on_completion.
  pose proof grows_select_best. pose proof grows_best_files_exist.
  pose proof grows__parse_sqs_path. grows_auto.
Qed.

Lemma grows_on_timeout ps i d : grows (on_timeout H ps i d).
Proof.
  unfold on_timeout.
  pose proof grows_select_best. pose proof grows_best_files_exist.
  pose proof grows__parse_sqs_path. grows_auto.
Qed.

Lemma grows_search ps i t d : grows (search H ps i t d).
Proof.
  unfold search. apply grows_try_except; [| apply grows_on_timeout].
  apply grows_bind; [apply grows_wait_all | intros; apply grows_on_completion].
Qed.

End ModuleFrames.

(* ===================================================================== *)
(** ** Input validation and preparation *)
(* ===================================================================== *)

Section Preparation.

Context (H : Host).
Variables (clusters : list (Z * num)) (search_time : Q)
          (directory : option string) (instances : option Z)
          (temperature wr wn wd tol : num).

(** A run on a disordered structure: the directory is entered, the
    scaling is looked at, and the rest follows. *)
Lemma run_mcsqs_disordered structure scaling w :
  is_ordered structure = false ->
  run_mcsqs H structure clusters scaling search_time directory instances
            temperature wr wn wd tol w
  = bind (prepare_scaling H structure (Z.of_nat (length structure)) scaling)
         (after_validation H clusters search_time (default_instances H instances)
                           temperature wr wn wd tol (cwd w))
         (log (EvChdir (run_directory H directory))
              (set_cwd (run_directory H directory) w)).
Proof.
  intros Hd. unfold run_mcsqs. rewrite Hd.
  unfold getcwd, get, chdir, modify. unfold bind at 1 2.
  reflexivity.
Qed.

Lemma grows_after_validation orig prepared :
  grows (after_validation H clusters search_time instances
                          temperature wr wn wd tol orig prepared).
Proof.
  unfold after_validation, Structure_to.
  pose proof (grows_launch). pose proof (grows_search H). grows_auto.
Qed.

(** After a valid input the structure is written and cluster generation
    is launched. *)
Lemma after_validation_trace orig prepared w :
  exists rest,
    trace (after_validation H clusters search_time instances
                            temperature wr wn wd tol orig prepared w).2
    = trace w ++ [EvWrite (cwd w) "rndstr.in" (to_rndstr H prepared.1);
                  EvPopen (length (procs w)) (generate_clusters_cmd H clusters)] ++ rest.
Proof.
  unfold after_validation, Structure_to, write_file, modify, Popen.
  unfold bind at 1 2.
  match goal with
  | |- context [ bind ?m ?k ?w0 ] =>
      assert (G : grows (bind m k)); [| destruct (G w0) as [l E]; exists l; rewrite E ]
  end.
  - pose proof (grows_launch). pose proof (grows_search H). grows_auto.
  - simpl. now rewrite <- !app_assoc.
Qed.

Lemma integer_valued_iff k : num_truthy (num_mod_1 k) = false <-> integer_valued k.
Proof.
  destruct k as [z | x]; simpl.
  - rewrite Z.mod_1_r. simpl. tauto.
  - rewrite negb_false_iff, Qeq_bool_iff. split.
    + intros E. exists (Qfloor x). lra.
    + intros [z E]. rewrite E at 2. rewrite Qfloor_Z. lra.
Qed.

End Preparation.

Section Validation.

Context (H : Host).
Variables (clusters : list (Z * num)) (search_time : Q)
          (directory : option string) (instances : option Z)
          (temperature wr wn wd tol : num).

(** C9. A fully ordered structure makes [run_mcsqs] raise
    ValueError("Pick a disordered structure") at once: the world is left
    as it was, so no call was made and no subprocess was launched. *)
Theorem ordered_structure_rejected structure scaling w :
  is_ordered structure = true ->
  run_mcsqs H structure clusters scaling search_time directory instances
            temperature wr wn wd tol w
  = (Raise (ValueError "Pick a disordered structure"), w)
  /\ launched (trace (run_mcsqs H structure clusters scaling search_time directory
                                instances temperature wr wn wd tol w).2)
     = launched (trace w).
Proof.
  intros Ho. unfold run_mcsqs. rewrite Ho. split; reflexivity.
Qed.

(** C6, as the code has it. On a disordered structure, a scalar scaling
    that is not integer-valued makes the run raise ValueError after the
    directory is entered and before any subprocess is launched; a scalar
    scaling that is integer-valued, whatever its sign, is accepted: the
    structure is written and cluster generation is launched. *)
Theorem scalar_scaling_validation structure k w :
  is_ordered structure = false ->
  let d := run_directory H directory in
  let r := run_mcsqs H structure clusters (Scalar k) search_time directory
                     instances temperature wr wn wd tol w in
  (~ integer_valued k ->
     r = (Raise (ValueError ("Scaling should be an integer, not " ++ str_num H k)%string),
          log (EvChdir d) (set_cwd d w))
     /\ launched (trace r.2) = launched (trace w))
  /\ (integer_valued k ->
        exists rest,
          trace r.2
          = trace w ++ [EvChdir d;
                        EvWrite d "rndstr.in" (to_rndstr H structure);
                        EvPopen (length (procs w)) (generate_clusters_cmd H clusters)]
                    ++ rest).
Proof.
  intros Hd d r. subst r. rewrite (run_mcsqs_disordered H); [| exact Hd].
  fold d. unfold prepare_scaling.
  destruct (num_truthy (num_mod_1 k)) eqn:Ek.
  - split.
    + intros _. split; [reflexivity |].
      simpl. unfold launched. rewrite filter_app. simpl.
      now rewrite app_nil_r.
    + intros Hi. apply integer_valued_iff in Hi. congruence.
  - split.
    + intros Hn. exfalso. apply Hn. now apply integer_valued_iff.
    + intros _. unfold bind at 1. unfold ret at 1.
      destruct (after_validation_trace H clusters search_time
                  (default_instances H instances) temperature wr wn wd tol (cwd w)
                  (structure, ["mcsqs"; ("-n " ++ str_num H (num_mul_int k (Z.of_nat (length structure))))%string])
                  (log (EvChdir d) (set_cwd d w))) as [rest E].
      exists rest. rewrite E. simpl. now rewrite <- !app_assoc.
Qed.

Lemma supercell_length structure a b c :
  (0 <= a * b * c)%Z ->
  Z.of_nat (length (supercell structure a b c))
  = (a * b * c * Z.of_nat (length structure))%Z.
Proof.
  intros Hpos. unfold supercell.
  induction structure as [| s l IH]; simpl; [lia |].
  rewrite length_app, repeat_length. lia.
Qed.

(** C7, as the code has it. With a vector scaling [a, b, c], whatever its
    values, the run enters its directory, writes [sqscell.out] with the
    fixed text whose rows are those of the identity matrix, and then
    writes to [rndstr.in] the structure already expanded by [a, b, c];
    both files are in the run directory when cluster generation is
    launched, and the search command carries [-rc]. The expanded structure
    has a*b*c times as many sites as the one passed in when that product
    is not negative. *)
Theorem vector_scaling_prepared structure a b c w :
  is_ordered structure = false ->
  let d := run_directory H directory in
  let written := supercell structure a b c in
  let r := run_mcsqs H structure clusters (Vector a b c) search_time directory
                     instances temperature wr wn wd tol w in
  r = after_input H clusters search_time (default_instances H instances)
                  temperature wr wn wd tol (cwd w)
                  ["mcsqs"; "-rc"; ("-n " ++ pretty (Z.of_nat (length structure)))%string]
                  (mkWorld d
                     (<[(d, "rndstr.in") := to_rndstr H written]>
                        (<[(d, "sqscell.out") := identity_cell]> (fs w)))
                     (clock w) (procs w)
                     (trace w ++ [EvChdir d;
                                  EvWrite d "sqscell.out" identity_cell;
                                  EvWrite d "rndstr.in" (to_rndstr H written)]))
  /\ (exists rest,
        trace r.2
        = trace w ++ [EvChdir d;
                      EvWrite d "sqscell.out" identity_cell;
                      EvWrite d "rndstr.in" (to_rndstr H written)] ++ rest)
  /\ cell_rows identity_cell = [["1"; "0"; "0"]; ["0"; "1"; "0"]; ["0"; "0"; "1"]]
  /\ ((0 <= a * b * c)%Z ->
      Z.of_nat (length written) = (a * b * c * Z.of_nat (length structure))%Z).
Proof.
  intros Hd d written r. subst r. rewrite (run_mcsqs_disordered H); [| exact Hd].
  fold d. split; [| split; [| split]].
  - unfold prepare_scaling, after_validation, Structure_to, write_file, modify.
    unfold bind at 1 2 3. unfold ret at 1. cbn [fst snd].
    unfold after_input. f_equal.
    unfold log, set_fs, set_cwd. simpl. f_equal. now rewrite <- !app_assoc.
  - unfold prepare_scaling, write_file, modify.
    unfold bind at 1 2. unfold ret at 1.
    destruct (after_validation_trace H clusters search_time
                (default_instances H instances) temperature wr wn wd tol (cwd w)
                (supercell structure a b c,
                 ["mcsqs"; "-rc"; ("-n " ++ pretty (Z.of_nat (length structure)))%string])
                (log (EvWrite d "sqscell.out" identity_cell)
                   (set_fs (<[(d, "sqscell.out") := identity_cell]> (fs w))
                      (log (EvChdir d) (set_cwd d w))))) as [rest E].
    eexists. simpl in *. rewrite E. rewrite <- !app_assoc. simpl. reflexivity.
  - reflexivity.
  - apply supercell_length.
Qed.

End Validation.

Lemma ordered_structure_rejected_witness :
  is_ordered Demo.crystal = true /\
  (run_mcsqs Demo.host Demo.crystal Demo.clusters (Scalar (Int 4)) 1 None None
             (Int 1) (Int 1) (Int 1) (Float (1 # 2)) (Float (1 # 1000))
             Demo.empty_world).1
  = Raise (ValueError "Pick a disordered structure").
Proof.
  split; [reflexivity |].
  now rewrite (proj1 (ordered_structure_rejected Demo.host Demo.clusters 1 None None
                        (Int 1) (Int 1) (Int 1) (Float (1 # 2)) (Float (1 # 1000))
                        Demo.crystal (Scalar (Int 4)) Demo.empty_world eq_refl)).
Defined.

(** C6 as the spec words it fails: a scaling of -2 is not a positive
    integer, and the run accepts it, searches for a supercell of -4 atoms
    and returns a result. *)
Lemma nonpositive_scaling_accepted :
  ~ positive_integer (Int (-2)) /\
  let r := run_mcsqs Demo.host Demo.alloy Demo.clusters (Scalar (Int (-2))) 1
                     (Some "/d") (Some 1%Z)
                     (Int 1) (Int 1) (Int 1) (Float (1 # 2)) (Float (1 # 1000))
                     Demo.empty_world in
  (exists sqs, r.1 = Ret sqs) /\
  In (EvPopen 1 ["mcsqs"; "-n -4"; "-T 1"; "-wr 1"; "-wn 1"; "-wd 1/2"; "-tol 1/1000"])
     (trace r.2).
Proof.
  split; [simpl; lia |].
  vm_compute. split; [eexists; reflexivity |]. tauto.
Qed.

Lemma scalar_scaling_validation_witness :
  is_ordered Demo.alloy = false /\
  launched (trace (run_mcsqs Demo.host Demo.alloy Demo.clusters (Scalar (Float (3 # 2))) 1
                             (Some "/d") (Some 1%Z)
                             (Int 1) (Int 1) (Int 1) (Float (1 # 2)) (Float (1 # 1000))
                             Demo.empty_world).2) = 0.
Proof.
  split; [reflexivity |].
  refine (proj2 (proj1 (scalar_scaling_validation Demo.host Demo.clusters 1 (Some "/d")
                          (Some 1%Z) (Int 1) (Int 1) (Int 1) (Float (1 # 2))
                          (Float (1 # 1000)) Demo.alloy (Float (3 # 2)) Demo.empty_world
                          eq_refl) _)).
  intros [z E]. unfold Qeq in E. simpl in E. lia.
Defined.

(** C7 as the spec words it fails: no check rejects the vector
    [-1, 1, 1]; the run writes both files and launches cluster generation,
    and no structure has -2 sites, which is a*b*c times the two of the
    input. *)
Lemma negative_vector_scaling_count :
  let r := run_mcsqs Demo.host Demo.alloy Demo.clusters (Vector (-1) 1 1) 1
                     (Some "/d") (Some 1%Z)
                     (Int 1) (Int 1) (Int 1) (Float (1 # 2)) (Float (1 # 1000))
                     Demo.empty_world in
  is_ordered Demo.alloy = false
  /\ In (EvWrite "/d" "sqscell.out" identity_cell) (trace r.2)
  /\ (exists text, In (EvWrite "/d" "rndstr.in" text) (trace r.2))
  /\ In (EvPopen 0 (generate_clusters_cmd Demo.host Demo.clusters)) (trace r.2)
  /\ forall written : Structure,
       Z.of_nat (length written) <> (-1 * 1 * 1 * Z.of_nat (length Demo.alloy))%Z.
Proof.
  intros r. split; [reflexivity |].
  assert (E : exists rest,
             trace r.2 = [EvChdir "/d"; EvWrite "/d" "sqscell.out" identity_cell;
                          EvWrite "/d" "rndstr.in" EmptyString;
                          EvPopen 0 (generate_clusters_cmd Demo.host Demo.clusters)] ++ rest).
  { eexists. vm_compute. reflexivity. }
  destruct E as [rest E]. rewrite E.
  split; [simpl; tauto |]. split; [exists EmptyString; simpl; tauto |].
  split; [simpl; tauto |].
  intros written. simpl. lia.
Qed.

Lemma vector_scaling_prepared_witness :
  let r := run_mcsqs Demo.host Demo.alloy Demo.clusters (Vector 2 1 3) 1
                     (Some "/d") (Some 2%Z)
                     (Int 1) (Int 1) (Int 1) (Float (1 # 2)) (Float (1 # 1000))
                     Demo.empty_world in
  is_ordered Demo.alloy = false /\ (0 <= 2 * 1 * 3)%Z
  /\ (exists rest,
        trace r.2
        = [] ++ [EvChdir "/d"; EvWrite "/d" "sqscell.out" identity_cell;
                 EvWrite "/d" "rndstr.in"
                         (Demo.demo_to_rndstr (supercell Demo.alloy 2 1 3))] ++ rest)
  /\ Z.of_nat (length (supercell Demo.alloy 2 1 3)) = (2 * 1 * 3 * 2)%Z.
Proof.
  intros r. split; [reflexivity |].
  assert (L : (0 <= 2 * 1 * 3)%Z) by lia. split; [exact L |].
  pose proof (vector_scaling_prepared Demo.host Demo.clusters 1 (Some "/d") (Some 2%Z)
                (Int 1) (Int 1) (Int 1) (Float (1 # 2)) (Float (1 # 1000))
                Demo.alloy 2 1 3 Demo.empty_world eq_refl) as K.
  cbv zeta in K. destruct K as (_ & E & _ & K).
  split; [exact E | exact (K L)].
Defined.

(* ===================================================================== *)
(** ** Launching the instances *)
(* ===================================================================== *)

Section Launch.

Context (H : Host).

(** The loop of lines 132-136 launches one process per index, in order,
    each with its own flag. *)
Lemma launch_loop (cmd : list string) (l : list Z) (acc : list nat) (w : World) :
  for_append l (fun i => Popen (cmd ++ instance_cmd i)) acc w
  = (Ret (acc ++ seq (length (procs w)) (length l)),
     mkWorld (cwd w) (fs w) (clock w)
             (procs w ++ map (fun i => mkProc (cmd ++ instance_cmd i) (cwd w) (clock w) Running) l)
             (trace w ++ imap (fun j i => EvPopen (length (procs w) + j) (cmd ++ instance_cmd i)) l)).
Proof.
  revert acc w. induction l as [| i l IH]; intros acc w.
  - simpl. unfold ret. rewrite !app_nil_r. now destruct w.
  - cbn [for_append]. unfold bind, Popen at 1. rewrite IH. simpl.
    rewrite length_app. simpl. rewrite Nat.add_1_r, Nat.add_0_r.
    rewrite <- !app_assoc. simpl.
    f_equal. f_equal. f_equal. f_equal.
    apply imap_ext. intros j x _. simpl. do 2 f_equal. lia.
Qed.

End Launch.



(* ===================================================================== *)
(** ** Waiting for the instances *)
(* ===================================================================== *)

Section Waiting.

Context (H : Host).

(** One wait with a timeout returns or times out, and takes no longer
    than its timeout. *)
Lemma communicate_timeout_clock pid t w :
  ((communicate H pid (Some t) w).1 = Ret tt
   \/ (communicate H pid (Some t) w).1 = Raise TimeoutExpired)
  /\ (clock w <= clock (communicate H pid (Some t) w).2)%Q
  /\ (clock (communicate H pid (Some t) w).2 <= clock w + Qmax 0 t)%Q.
Proof.
  pose proof (Q.le_max_l 0 t) as H0.
  unfold communicate. simpl.
  destruct (procs w !! pid) as [p |]; simpl; [| split; [auto | split; lra]].
  destruct (p_state p); simpl; try (split; [auto | split; lra]).
  destruct (run_time H (p_cmd p)) as [d |]; simpl; [| split; [auto | split; lra]].
  destruct (Qle_bool (p_start p + d) (clock w + Qmax 0 t)) eqn:E; simpl.
  - apply Qle_bool_iff in E. split; [auto | split].
    + apply Q.le_max_l.
    + apply Q.max_lub; [lra | exact E].
  - split; [auto | split; lra].
Qed.

(** C1, as the code has it. The instances are waited for one after the
    other, every wait with the same timeout of [search_time * 60] seconds,
    counted from the moment that wait begins; the first wait that times out
    ends the loop, so that of [k] waits made the last is the only one that
    can have timed out, and the loop as a whole takes up to [k] times the
    timeout. *)
Theorem waits_have_separate_timeouts (processes : list nat) (search_time : Q) (w : World) :
  let r := wait_all H processes search_time w in
  exists k : nat,
    (k <= length processes)%nat
    /\ trace r.2 = trace w ++ map (fun p => EvCommunicate p (Some (search_time * 60)%Q))
                                  (take k processes)
    /\ (r.1 = Ret tt /\ k = length processes
        \/ r.1 = Raise TimeoutExpired /\ (0 < k)%nat)
    /\ (clock w <= clock r.2)%Q
    /\ (clock r.2 <= clock w + inject_Z (Z.of_nat k) * Qmax 0 (search_time * 60))%Q.
Proof.
  revert w. induction processes as [| p ps IH]; intros w; cbn zeta.
  - exists 0%nat. simpl. rewrite app_nil_r.
    repeat split; [lia | auto | lra |].
    change (inject_Z (Z.of_nat 0)) with 0%Q. lra.
  - unfold wait_all. cbn [for_each]. fold (wait_all H ps search_time).
    destruct (communicate_timeout_clock p (search_time * 60)%Q w) as ([E | E] & C1 & C2).
    + pose proof (trace_communicate H p (Some (search_time * 60)%Q) w) as T.
      destruct (communicate H p (Some (search_time * 60)%Q) w) as [o w1] eqn:Ew.
      simpl in E, C1, C2, T. subst o.
      rewrite (bind_Ret _ _ _ _ _ Ew).
      destruct (IH w1) as (k & Hk & Ht & Ho & Hc1 & Hc2).
      exists (S k). simpl. rewrite Ht, T, <- app_assoc. simpl.
      split; [lia |]. split; [reflexivity |]. split.
      { destruct Ho as [[-> ->] | [-> Hpos]]; [left | right]; split; auto; lia. }
      split; [lra |].
      rewrite Nat2Z.inj_succ, <- Z.add_1_r, inject_Z_plus.
      change (inject_Z 1) with 1%Q.
      pose proof (Q.le_max_l 0 (search_time * 60)%Q). nra.
    + pose proof (trace_communicate H p (Some (search_time * 60)%Q) w) as T.
      destruct (communicate H p (Some (search_time * 60)%Q) w) as [o w1] eqn:Ew.
      simpl in E, C1, C2, T. subst o.
      rewrite (bind_Raise _ _ _ _ _ Ew).
      exists 1%nat. simpl take. rewrite take_0. simpl.
      split; [lia |]. split; [exact T |]. split; [right; split; [auto | lia] |].
      split; [lra |]. change (inject_Z (Z.of_nat 1)) with 1%Q. lra.
Qed.

End Waiting.

(** C1 as the spec words it fails. Two instances are launched at time 0
    with a search time of one minute; the first exits after 50 seconds and
    the second after 100. The loop of the code waits for both and ends
    without a timeout at second 100, past the 60 seconds of the budget; the
    loop with one shared deadline times out on the second wait, at second 60. *)
Lemma waits_do_not_share_a_deadline :
  let code := wait_all Demo.host [0; 1]%nat 1 Demo.two_launched in
  let shared := wait_all_shared_deadline_spec Demo.host [0; 1]%nat 1 Demo.two_launched in
  code.1 = Ret tt /\ (clock code.2 == 100)%Q /\ (1 * 60 < clock code.2)%Q
  /\ shared.1 = Raise TimeoutExpired /\ (clock shared.2 == 60)%Q
  /\ code.1 <> shared.1.
Proof.
  vm_compute. repeat split; discriminate.
Qed.

(* ===================================================================== *)
(** ** Killing and reaping *)
(* ===================================================================== *)

Section Killing.

Context (H : Host).

Lemma state_of_insert_eq w pid p x :
  procs w !! pid = Some p ->
  p_state <$> (<[pid := x]> (procs w)) !! pid = Some (p_state x).
Proof.
  intros E. rewrite list_lookup_insert_eq; [reflexivity |].
  eapply lookup_lt_Some; eauto.
Qed.

Lemma state_of_insert_Reaped w pid p x q :
  p_state x = Reaped ->
  p_state <$> procs w !! q = Some Reaped ->
  procs w !! pid = Some p ->
  p_state <$> (<[pid := x]> (procs w)) !! q = Some Reaped.
Proof.
  intros Ex Eq Ep. destruct (decide (pid = q)) as [-> | Hne].
  - rewrite <- Ex. eapply state_of_insert_eq; eauto.
  - now rewrite list_lookup_insert_ne.
Qed.

(** Killing a process and waiting for it always returns, and leaves the
    process reaped; processes reaped before stay so. *)
Lemma kill_then_communicate (p : nat) (w : World) :
  exists w',
    bind (kill H p) (fun _ => communicate H p None) w = (Ret tt, w')
    /\ trace w' = trace w ++ [EvKill p; EvCommunicate p None]
    /\ cwd w' = cwd w
    /\ length (procs w') = length (procs w)
    /\ ((p < length (procs w))%nat -> state_of w' p = Some Reaped)
    /\ (forall q, state_of w q = Some Reaped -> state_of w' q = Some Reaped).
Proof.
  unfold bind, kill, communicate, state_of. simpl.
  destruct (procs w !! p) as [pr |] eqn:Ep; simpl.
  - destruct (p_state pr) eqn:Es; simpl.
    + unfold exited. destruct (run_time H (p_cmd pr)) as [d |] eqn:Ed; simpl.
      * destruct (Qle_bool (p_start pr + d) (clock w)) eqn:Ex; simpl.
        -- rewrite Ep, Es, Ed. simpl. eexists. split; [reflexivity |]. simpl.
           rewrite <- app_assoc, length_insert.
           repeat split; auto.
           ++ intros _. eapply (state_of_insert_eq _ _ _ (set_state Reaped _)); eauto.
           ++ intros q Hq. eapply state_of_insert_Reaped; eauto.
        -- rewrite list_lookup_insert_eq by (eapply lookup_lt_Some; eauto). simpl.
           eexists. split; [reflexivity |]. simpl.
           rewrite <- app_assoc, !length_insert, list_insert_insert_eq.
           repeat split; auto.
           ++ intros _. eapply (state_of_insert_eq _ _ _ (set_state Reaped _)); eauto.
           ++ intros q Hq. eapply state_of_insert_Reaped; eauto.
      * rewrite list_lookup_insert_eq by (eapply lookup_lt_Some; eauto). simpl.
        eexists. split; [reflexivity |]. simpl.
        rewrite <- app_assoc, !length_insert, list_insert_insert_eq.
        repeat split; auto.
        -- intros _. eapply (state_of_insert_eq _ _ _ (set_state Reaped _)); eauto.
        -- intros q Hq. eapply state_of_insert_Reaped; eauto.
    + rewrite Ep, Es. simpl. eexists. split; [reflexivity |]. simpl.
      rewrite <- app_assoc, length_insert.
      repeat split; auto.
      * intros _. eapply (state_of_insert_eq _ _ _ (set_state Reaped _)); eauto.
      * intros q Hq. eapply state_of_insert_Reaped; eauto.
    + rewrite Ep, Es. simpl. eexists. split; [reflexivity |]. simpl.
      rewrite <- app_assoc.
      repeat split; auto.
      intros _. rewrite Ep. simpl. now rewrite Es.
  - rewrite Ep. simpl. eexists. split; [reflexivity |]. simpl.
    rewrite <- app_assoc.
    repeat split; auto.
    intros Hlt. apply lookup_ge_None in Ep. lia.
Qed.

(** Lines 160-162 always return: every process of the list is killed
    and waited for, in order, and those that were launched are reaped. *)
Lemma kill_all_reaps (processes : list nat) (w : World) :
  exists w',
    kill_all H processes w = (Ret tt, w')
    /\ trace w' = trace w ++ flat_map (fun p => [EvKill p; EvCommunicate p None]) processes
    /\ cwd w' = cwd w
    /\ length (procs w') = length (procs w)
    /\ (forall p, In p processes -> (p < length (procs w))%nat ->
                  state_of w' p = Some Reaped)
    /\ (forall q, state_of w q = Some Reaped -> state_of w' q = Some Reaped).
Proof.
  revert w. induction processes as [| p ps IH]; intros w.
  - exists w. simpl. rewrite app_nil_r. unfold kill_all. simpl.
    repeat split; auto. intros p [].
  - destruct (kill_then_communicate p w) as (w1 & E1 & T1 & C1 & L1 & R1 & K1).
    destruct (IH w1) as (w2 & E2 & T2 & C2 & L2 & R2 & K2).
    exists w2. unfold kill_all in *. cbn [for_each].
    rewrite (bind_Ret _ _ _ _ _ E1). split; [exact E2 |].
    split; [rewrite T2, T1, <- app_assoc; reflexivity |].
    split; [congruence |]. split; [congruence |]. split.
    + intros q [<- | Hq] Hlt.
      * apply K2, R1, Hlt.
      * apply R2; [exact Hq | lia].
    + intros q Hq. apply K2, K1, Hq.
Qed.

End Killing.

(* ===================================================================== *)
(** ** The end of the search: completion, timeout, and the final check *)
(* ===================================================================== *)

Section Finalization.

Context (H : Host).

Lemma parse_error_no_timeout e : parse_error e -> no_timeout e.
Proof. now destruct e. Qed.

Lemma raises_on_completion i : raises no_timeout (on_completion H i).
Proof.
  unfold on_completion.
  apply raises_bind.
  { eapply raises_weaken; [| apply raises_select_best]. now intros e ->. }
  intros _. apply raises_bind.
  { unfold best_files_exist, path_exists.
    apply raises_bind; [apply raises_get |]. intros [|]; auto with frame. }
  intros [|].
  - eapply raises_weaken; [apply parse_error_no_timeout | apply raises__parse_sqs_path].
  - now apply raises_raise.
Qed.

(** When every wait returns, the search is what lines 147-157 do. *)
Lemma search_completed ps i t orig w w1 :
  wait_all H ps t w = (Ret tt, w1) ->
  search H ps i t orig w = on_completion H i w1.
Proof.
  intros E. unfold search, try_except_TimeoutExpired.
  rewrite (bind_Ret _ _ _ _ _ E).
  pose proof (raises_on_completion i w1) as R.
  destruct (on_completion H i w1) as [[a | e |] w2]; try reflexivity.
  specialize (R e eq_refl). now destruct e.
Qed.

(** When a wait times out, the search is what lines 160-177 do. *)
Lemma search_timed_out ps i t orig w w1 :
  wait_all H ps t w = (Raise TimeoutExpired, w1) ->
  search H ps i t orig w = on_timeout H ps i orig w1.
Proof.
  intros E. unfold search, try_except_TimeoutExpired.
  now rewrite (bind_Raise _ _ _ _ _ E).
Qed.

Lemma on_timeout_after_kill ps i orig w1 w2 w3 :
  kill_all H ps w1 = (Ret tt, w2) ->
  select_best H i w2 = (Ret tt, w3) ->
  on_timeout H ps i orig w1
  = if best_files_present w3 then _parse_sqs_path H "." w3
    else (Raise (TimeoutError "Cluster expansion took too long."),
          log (EvChdir orig) (set_cwd orig w3)).
Proof.
  intros E1 E2. unfold on_timeout. fold (kill_all H ps).
  rewrite (bind_Ret _ _ _ _ _ E1), (bind_Ret _ _ _ _ _ E2).
  rewrite (bind_Ret _ _ _ _ _ (best_files_exist_eq w3)).
  now destruct (best_files_present w3).
Qed.

Lemma on_completion_after_best i w1 w2 :
  select_best H i w1 = (Ret tt, w2) ->
  on_completion H i w1
  = if best_files_present w2 then _parse_sqs_path H "." w2
    else (Raise (Exception_ "mcsqs exited before timeout reached"), w2).
Proof.
  intros E. unfold on_completion.
  rewrite (bind_Ret _ _ _ _ _ E), (bind_Ret _ _ _ _ _ (best_files_exist_eq w2)).
  now destruct (best_files_present w2).
Qed.


Lemma select_best_single n w :
  (n <= 1)%Z -> select_best H (Some n) w = (Ret tt, w).
Proof.
  intros Hn. unfold select_best, more_than_one. unfold bind at 1. unfold ret at 1.
  replace (1 <? n)%Z with false by (symmetry; apply Z.ltb_ge; lia).
  reflexivity.
Qed.


Lemma ends_of_stays {A} orig (m : M A) :
  stays m -> raises no_timeout m -> ends orig m.
Proof.
  intros Hs Hr w. pose proof (Hs w) as S. pose proof (Hr w) as R.
  destruct (m w) as [[a | e |] w']; simpl in *; auto.
  specialize (R e eq_refl). destruct e; simpl in *; auto. contradiction.
Qed.

Lemma ends_bind {A B} orig (m : M A) (k : A -> M B) :
  stays m -> raises no_timeout m -> (forall a, ends orig (k a)) ->
  ends orig (bind m k).
Proof.
  intros Hs Hr Hk w. unfold bind.
  pose proof (Hs w) as S. pose proof (Hr w) as R.
  destruct (m w) as [[a | e |] w'] eqn:E; simpl in *; auto.
  - pose proof (Hk a w') as K.
    destruct (k a w') as [[b | e |] w'']; simpl in *; try congruence.
    destruct e; congruence.
  - specialize (R e eq_refl). destruct e; simpl in *; auto. contradiction.
Qed.

Lemma raises_no_timeout_TypeError {A} (m : M A) :
  raises (fun e => e = TypeError) m -> raises no_timeout m.
Proof. apply raises_weaken. now intros e ->. Qed.

Lemma raises_no_timeout_parse {A} (m : M A) :
  raises parse_error m -> raises no_timeout m.
Proof. apply raises_weaken, parse_error_no_timeout. Qed.

Lemma stays_on_completion i : stays (on_completion H i).
Proof.
  unfold on_completion.
  pose proof stays_select_best. pose proof stays_best_files_exist.
  pose proof stays__parse_sqs_path. stays_auto.
Qed.

Lemma stays_kill_all ps : stays (kill_all H ps).
Proof. unfold kill_all. stays_auto. Qed.

Lemma raises_kill_all P ps : raises P (kill_all H ps).
Proof.
  unfold kill_all. apply raises_for_each. intros p.
  apply raises_bind; [apply raises_kill | intros; apply raises_communicate_None].
Qed.

Lemma ends_on_timeout ps i orig : ends orig (on_timeout H ps i orig).
Proof.
  unfold on_timeout. fold (kill_all H ps).
  apply ends_bind; [apply stays_kill_all | apply raises_kill_all |]. intros _.
  apply ends_bind;
    [apply stays_select_best | apply raises_no_timeout_TypeError, raises_select_best |].
  intros _. intros w.
  rewrite (bind_Ret _ _ _ _ _ (best_files_exist_eq w)).
  destruct (best_files_present w).
  - apply (ends_of_stays orig (_parse_sqs_path H "."));
      [apply stays__parse_sqs_path | apply raises_no_timeout_parse, raises__parse_sqs_path].
  - reflexivity.
Qed.

Lemma ends_search ps i t orig : ends orig (search H ps i t orig).
Proof.
  intros w.
  pose proof (stays_wait_all H ps t w) as S. pose proof (raises_wait_all H ps t w) as R.
  destruct (wait_all H ps t w) as [[[] | e |] w1] eqn:E; simpl in *.
  - rewrite (search_completed _ _ _ _ _ _ E).
    pose proof (ends_of_stays orig _ (stays_on_completion i) (raises_on_completion i) w1) as K.
    rewrite <- S. exact K.
  - specialize (R e eq_refl). subst e.
    rewrite (search_timed_out _ _ _ _ _ _ E).
    pose proof (ends_on_timeout ps i orig w1) as K. rewrite <- S. exact K.
  - unfold search, try_except_TimeoutExpired. rewrite (bind_Hang _ _ _ _ E). exact S.
Qed.

End Finalization.

Section FinalCheck.

Context (H : Host).

Lemma raises_prepare_scaling s n sc : raises no_timeout (prepare_scaling H s n sc).
Proof.
  unfold prepare_scaling. destruct sc as [k | a b c].
  - destruct (num_truthy _); [now apply raises_raise | apply raises_ret].
  - apply raises_bind; [apply raises_modify | intros; apply raises_ret].
Qed.

Lemma raises_launch i cmd : raises no_timeout (launch i cmd).
Proof.
  unfold launch, more_than_one. destruct i as [n |].
  - apply raises_bind; [apply raises_ret |]. intros [|].
    + apply raises_for_append. intros. apply raises_Popen.
    + apply raises_bind; [apply raises_Popen | intros; apply raises_ret].
  - apply raises_bind; [now apply raises_raise |]. intros [|].
    + apply raises_for_append. intros. apply raises_Popen.
    + apply raises_bind; [apply raises_Popen | intros; apply raises_ret].
Qed.

Lemma ends_after_validation clusters search_time instances temperature wr wn wd tol
    orig prepared :
  ends orig (after_validation H clusters search_time instances
                              temperature wr wn wd tol orig prepared).
Proof.
  unfold after_validation, Structure_to.
  apply ends_bind; [apply stays_write_file | apply raises_modify |]. intros _.
  apply ends_bind; [apply stays_Popen | apply raises_Popen |]. intros p.
  apply ends_bind; [apply stays_communicate | apply raises_communicate_None |]. intros _.
  apply ends_bind; [apply stays_launch | apply raises_launch |]. intros ps.
  apply ends_search.
Qed.

(** C4. After the waits, with or without a timeout, the two best-output
    files are looked for. When every wait has returned: if they are there
    the directory is parsed, if not Exception("mcsqs exited before timeout
    reached") is raised and the working directory stays the run directory.
    When a wait has timed out: if they are there the directory is parsed,
    if not the working directory is set back to the original one and
    TimeoutError is raised. For the run as a whole: it ends in the caller's
    working directory when it ends with TimeoutError, and in the run
    directory in every other case. *)
Theorem finalization_check
    (processes : list nat) (instances : option Z) (search_time : Q)
    (original_directory : string) (w : World)
    structure clusters scaling directory temperature wr wn wd tol :
  (forall w1 w2,
      wait_all H processes search_time w = (Ret tt, w1) ->
      select_best H instances w1 = (Ret tt, w2) ->
      search H processes instances search_time original_directory w
      = (if best_files_present w2 then _parse_sqs_path H "." w2
         else (Raise (Exception_ "mcsqs exited before timeout reached"), w2))
      /\ cwd w2 = cwd w)
  /\ (forall w1 w2 w3,
        wait_all H processes search_time w = (Raise TimeoutExpired, w1) ->
        kill_all H processes w1 = (Ret tt, w2) ->
        select_best H instances w2 = (Ret tt, w3) ->
        search H processes instances search_time original_directory w
        = (if best_files_present w3 then _parse_sqs_path H "." w3
           else (Raise (TimeoutError "Cluster expansion took too long."),
                 log (EvChdir original_directory) (set_cwd original_directory w3))))
  /\ (is_ordered structure = false ->
      let r := run_mcsqs H structure clusters scaling search_time directory instances
                         temperature wr wn wd tol w in
      match r.1 with
      | Raise (TimeoutError _) => cwd r.2 = cwd w
      | _ => cwd r.2 = run_directory H directory
      end).
Proof.
  split; [| split].
  - intros w1 w2 E1 E2.
    rewrite (search_completed _ _ _ _ _ _ _ E1), (on_completion_after_best _ _ _ _ E2).
    split; [reflexivity |].
    pose proof (stays_wait_all H processes search_time w) as S1.
    pose proof (stays_select_best H instances w1) as S2.
    rewrite E1 in S1. rewrite E2 in S2. simpl in *. congruence.
  - intros w1 w2 w3 E1 E2 E3.
    now rewrite (search_timed_out _ _ _ _ _ _ _ E1), (on_timeout_after_kill _ _ _ _ _ _ _ E2 E3).
  - intros Hd r. subst r. rewrite (run_mcsqs_disordered H); [| exact Hd].
    match goal with
    | |- context [ bind ?m ?k ?w0 ] =>
        pose proof (ends_bind (cwd w) m k (stays_prepare_scaling H _ _ _)
                      (raises_prepare_scaling _ _ _)
                      (ends_after_validation _ _ _ _ _ _ _ _ _) w0) as K
    end.
    simpl in K. exact K.
Qed.

End FinalCheck.


Lemma finalization_check_witness :
  is_ordered Demo.alloy = false /\
  (let r := run_mcsqs Demo.broken Demo.alloy Demo.clusters (Scalar (Int 4)) 1 (Some "/d")
                      (Some 2%Z) (Int 1) (Int 1) (Int 1) (Int 1) (Int 1) Demo.empty_world in
   r.1 = Raise (Exception_ "mcsqs exited before timeout reached") /\ cwd r.2 = "/d") /\
  (let r := run_mcsqs Demo.host Demo.alloy Demo.clusters (Scalar (Int 4)) (1 # 12) (Some "/d")
                      (Some 1%Z) (Int 1) (Int 1) (Int 1) (Int 1) (Int 1) Demo.empty_world in
   r.1 = Raise (TimeoutError "Cluster expansion took too long.") /\ cwd r.2 = "/home").
Proof.
  split; [reflexivity |]. split.
  - split; [vm_compute; reflexivity |].
    pose proof (proj2 (proj2 (finalization_check Demo.broken [] (Some 2%Z) 1 "/home"
                  Demo.empty_world Demo.alloy Demo.clusters (Scalar (Int 4)) (Some "/d")
                  (Int 1) (Int 1) (Int 1) (Int 1) (Int 1))) eq_refl) as K.
    cbv zeta in K.
    replace ((run_mcsqs Demo.broken Demo.alloy Demo.clusters (Scalar (Int 4)) 1 (Some "/d")
                (Some 2%Z) (Int 1) (Int 1) (Int 1) (Int 1) (Int 1) Demo.empty_world).1)
      with (@Raise Sqs (Exception_ "mcsqs exited before timeout reached")) in K
      by (vm_compute; reflexivity).
    exact K.
  - split; [vm_compute; reflexivity |].
    pose proof (proj2 (proj2 (finalization_check Demo.host [] (Some 1%Z) (1 # 12) "/home"
                  Demo.empty_world Demo.alloy Demo.clusters (Scalar (Int 4)) (Some "/d")
                  (Int 1) (Int 1) (Int 1) (Int 1) (Int 1))) eq_refl) as K.
    cbv zeta in K.
    replace ((run_mcsqs Demo.host Demo.alloy Demo.clusters (Scalar (Int 4)) (1 # 12) (Some "/d")
                (Some 1%Z) (Int 1) (Int 1) (Int 1) (Int 1) (Int 1) Demo.empty_world).1)
      with (@Raise Sqs (TimeoutError "Cluster expansion took too long.")) in K
      by (vm_compute; reflexivity).
    exact K.
Defined.

(* ===================================================================== *)
(** ** Parsing the run directory *)
(* ===================================================================== *)

Lemma bind_Ret_inv {A B} (m : M A) (k : A -> M B) w b w' :
  bind m k w = (Ret b, w') ->
  exists a w1, m w = (Ret a, w1) /\ k a w1 = (Ret b, w').
Proof.
  unfold bind. destruct (m w) as [[a | e |] w1]; intros E; try discriminate.
  now exists a, w1.
Qed.

Lemma for_append_length {A B} (l : list A) (body : A -> M B) acc w res w' :
  for_append l body acc w = (Ret res, w') ->
  length res = (length acc + length l)%nat.
Proof.
  revert acc w. induction l as [| x l IH]; intros acc w E; simpl in *.
  - injection E as <- _. lia.
  - apply bind_Ret_inv in E as (y & w1 & _ & E).
    apply IH in E. rewrite E, length_app. simpl. lia.
Qed.

Section Parsing.

Context (H : Host).

Lemma same_reports_refl f : same_reports f f.
Proof. now intros d name _. Qed.

Lemma same_reports_trans f1 f2 f3 :
  same_reports f1 f2 -> same_reports f2 f3 -> same_reports f1 f3.
Proof. intros H12 H23 d name Hp. now rewrite H23, H12. Qed.

(** The converter writes a [bestsqs...] file and nothing else. *)
Lemma shell_str2cif_reports d cmdline infile rest w :
  same_reports (fs w)
    (fs (shell_str2cif H d cmdline infile ("bestsqs" ++ rest)%string w).2).
Proof.
  rewrite fs_shell_str2cif.
  destruct (fs w !! (d, infile)); [| apply same_reports_refl].
  destruct (run_time H (shell_cmd cmdline)); [| apply same_reports_refl].
  intros d' name Hp. apply lookup_insert_ne.
  intros [= -> <-]. simpl in Hp. discriminate.
Qed.

Lemma last_token_Ret lines tok w w' :
  last_token lines w = (Ret tok, w') -> objective_token lines = Some tok /\ w' = w.
Proof.
  unfold last_token. destruct (objective_token lines); intros [= <- <-]; auto.
Qed.

Lemma float_Ret s x w w' :
  float H s w = (Ret x, w') -> float_of_str H s = Some x /\ w' = w.
Proof.
  unfold float. destruct (float_of_str H s); intros [= <- <-]; auto.
Qed.

Lemma read_lines_Ret d name lines w w' :
  read_lines d name w = (Ret lines, w') ->
  exists report, fs w !! (d, name) = Some report /\ lines = PyStr.readlines report /\ w' = w.
Proof.
  unfold read_lines. destruct (fs w !! (d, name)) as [c |]; intros [= <- <-].
  now exists c.
Qed.

(** Lines 213-215. *)
Lemma best_objective_Ret report o w w' :
  best_objective H (PyStr.readlines report) w = (Ret o, w') ->
  read_as H Perfect_match report o /\ w' = w.
Proof.
  unfold best_objective. intros E.
  apply bind_Ret_inv in E as (tok & w1 & Et & E).
  apply last_token_Ret in Et as [Et ->].
  destruct (String.eqb_spec tok "Perfect_match") as [-> | Hne]; simpl in E.
  - injection E as <- <-. split; [| reflexivity].
    exists "Perfect_match". repeat split; auto. now intros [].
  - apply bind_Ret_inv in E as (x & w2 & Ef & E).
    apply float_Ret in Ef as [Ef ->]. injection E as <- <-.
    split; [| reflexivity]. exists tok. repeat split; auto.
    + now intros ->.
    + intros _. now exists x.
Qed.

(** Lines 238-242. *)
Lemma instance_objective_Ret best report o w w' :
  instance_objective H best (PyStr.readlines report) w = (Ret o, w') ->
  read_as H best report o /\ w' = w.
Proof.
  unfold instance_objective. intros E.
  apply bind_Ret_inv in E as (tok & w1 & Et & E).
  apply last_token_Ret in Et as [Et ->].
  destruct (String.eqb_spec tok "Perfect_match") as [-> | Hne].
  - injection E as <- <-. split; [| reflexivity].
    exists "Perfect_match". repeat split; auto. now intros [].
  - apply bind_Ret_inv in E as (x & w2 & Ef & E).
    apply float_Ret in Ef as [Ef ->]. injection E as <- <-.
    split; [| reflexivity]. exists tok. repeat split; auto.
    + now intros ->.
    + intros _. now exists x.
Qed.

Lemma corr_out_prefix i : String.prefix "bestcorr" (corr_out i) = true.
Proof.
  unfold corr_out. simpl.
  match goal with |- String.prefix _ ?s = true => now destruct s end.
Qed.

Lemma files_kept_refl f : files_kept f f.
Proof. now intros k. Qed.

Lemma files_kept_trans f1 f2 f3 :
  files_kept f1 f2 -> files_kept f2 f3 -> files_kept f1 f3.
Proof. intros H12 H23 k Hk. now apply H23, H12. Qed.

Lemma shell_str2cif_keeps d cmdline infile outfile w :
  files_kept (fs w) (fs (shell_str2cif H d cmdline infile outfile w).2).
Proof.
  rewrite fs_shell_str2cif.
  destruct (fs w !! (d, infile)); [| apply files_kept_refl].
  destruct (run_time H (shell_cmd cmdline)); [| apply files_kept_refl].
  intros k Hk. destruct (decide ((d, outfile) = k)) as [<- | Hne].
  - rewrite lookup_insert_eq. eauto.
  - now rewrite lookup_insert_ne.
Qed.

Lemma Structure_from_file_Ret d name s w w' :
  Structure_from_file H d name w = (Ret s, w') ->
  is_Some (fs w !! (d, name)) /\ w' = w.
Proof.
  unfold Structure_from_file. destruct (fs w !! (d, name)) as [c |]; [| discriminate].
  destruct (from_cif H c); intros [= <- <-]; eauto.
Qed.

(** One round of the loop: the report read is the one of the instance,
    the other reports are left as they are, no file is lost, and the
    converted structure of the instance is there afterwards. *)
Lemma parse_instance_Ret d best i entry w w' :
  parse_instance H d best i w = (Ret entry, w') ->
  cwd w' = cwd w
  /\ same_reports (fs w) (fs w')
  /\ files_kept (fs w) (fs w')
  /\ is_Some (fs w' !! (cwd w, sqs_cif i))
  /\ exists report,
       fs w !! (d, corr_out i) = Some report
       /\ read_as H best report (entry_objective_function entry).
Proof.
  unfold parse_instance. intros E.
  apply bind_Ret_inv in E as ([] & w1 & E1 & E).
  assert (W1 : w1 = (shell_str2cif H d
        ("str2cif <" ++ ("bestsqs" ++ pretty (i + 1)%nat ++ ".out") ++ ">"
           ++ "bestsqs" ++ pretty (i + 1)%nat ++ ".cif")%string
        ("bestsqs" ++ pretty (i + 1)%nat ++ ".out")%string
        ("bestsqs" ++ (pretty (i + 1)%nat ++ ".cif"))%string w).2)
    by (now rewrite E1).
  assert (S1 : same_reports (fs w) (fs w1)) by (rewrite W1; apply shell_str2cif_reports).
  assert (K1 : files_kept (fs w) (fs w1)) by (rewrite W1; apply shell_str2cif_keeps).
  assert (C1 : cwd w1 = cwd w) by (rewrite W1; apply stays_shell_str2cif).
  clear W1.
  apply bind_Ret_inv in E as (here & w2 & E2 & E). injection E2 as <- <-.
  apply bind_Ret_inv in E as (sqs & w2 & E2 & E).
  apply Structure_from_file_Ret in E2 as [F ->].
  apply bind_Ret_inv in E as (lines & w2 & E3 & E).
  apply read_lines_Ret in E3 as (report & Er & -> & ->).
  apply bind_Ret_inv in E as (o & w2 & E4 & E).
  apply instance_objective_Ret in E4 as [R ->].
  injection E as <- <-.
  split; [exact C1 |]. split; [exact S1 |]. split; [exact K1 |]. split.
  { rewrite <- C1. exact F. }
  exists report. split; [| exact R].
  rewrite <- Er. symmetry. apply S1, corr_out_prefix.
Qed.

(** The loop of lines 220-243. *)
Lemma parse_loop d best (l : list nat) acc w res w' f0 :
  for_append l (parse_instance H d best) acc w = (Ret res, w') ->
  same_reports f0 (fs w) ->
  cwd w' = cwd w
  /\ same_reports f0 (fs w')
  /\ files_kept (fs w) (fs w')
  /\ Forall (fun i => is_Some (fs w' !! (cwd w, sqs_cif i))) l
  /\ exists new,
       res = acc ++ new
       /\ Forall2 (fun i entry =>
                     exists report,
                       f0 !! (d, corr_out i) = Some report
                       /\ read_as H best report (entry_objective_function entry))
                  l new.
Proof.
  revert acc w. induction l as [| i l IH]; intros acc w E S0; simpl in E.
  - injection E as <- <-. split; [reflexivity |]. split; [exact S0 |].
    split; [apply files_kept_refl |]. split; [constructor |].
    exists []. split; [now rewrite app_nil_r | constructor].
  - apply bind_Ret_inv in E as (entry & w1 & E1 & E).
    apply parse_instance_Ret in E1 as (C1 & S1 & K1 & F1 & report & Er & R).
    apply IH in E as (C2 & S2 & K2 & F2 & new & -> & F);
      [| eapply same_reports_trans; eauto].
    split; [congruence |]. split; [exact S2 |].
    split; [eapply files_kept_trans; eauto |]. split.
    { constructor; [now apply K2 | now rewrite <- C1]. }
    exists (entry :: new). split; [now rewrite <- app_assoc |].
    constructor; [| exact F].
    exists report. split; [| exact R]. rewrite <- Er. symmetry. apply S0, corr_out_prefix.
Qed.

(** What a parse that returns has read, and what it leaves. *)
Lemma _parse_sqs_path_Ret path w r w' :
  _parse_sqs_path H path w = (Ret r, w') ->
  let d := resolved w path in
  directory r = d
  /\ length (allsqs r) = indexed_count d (fs w)
  /\ (exists report,
        fs w !! (d, "bestcorr.out") = Some report
        /\ read_as H Perfect_match report (objective_function r))
  /\ Forall2 (fun i entry =>
                exists report,
                  fs w !! (d, corr_out i) = Some report
                  /\ read_as H (objective_function r) report
                             (entry_objective_function entry))
             (seq 0 (indexed_count d (fs w))) (allsqs r)
  /\ cwd w' = cwd w
  /\ same_reports (fs w) (fs w')
  /\ files_kept (fs w) (fs w')
  /\ Forall (fun i => is_Some (fs w' !! (cwd w, sqs_cif i)))
            (seq 0 (indexed_count d (fs w))).
Proof.
  intros E d. unfold _parse_sqs_path in E.
  apply bind_Ret_inv in E as (d' & w1 & E1 & E). injection E1 as <- <-.
  change (PyPath.resolve_from (cwd w) path) with d in E.
  apply bind_Ret_inv in E as (n & w1 & E1 & E). injection E1 as <- <-.
  fold (indexed_count d (fs w)) in E.
  apply bind_Ret_inv in E as ([] & w1 & E1 & E).
  assert (W1 : w1 = (shell_str2cif H d "str2cif < bestsqs.out > bestsqs.cif"
                       "bestsqs.out" "bestsqs.cif" w).2) by (now rewrite E1).
  assert (S1 : same_reports (fs w) (fs w1))
    by (rewrite W1; apply (shell_str2cif_reports d _ _ ".cif")).
  assert (K1 : files_kept (fs w) (fs w1)) by (rewrite W1; apply shell_str2cif_keeps).
  assert (C1 : cwd w1 = cwd w) by (rewrite W1; apply stays_shell_str2cif).
  clear W1.
  apply bind_Ret_inv in E as (best & w2 & E2 & E).
  apply Structure_from_file_Ret in E2 as [_ ->].
  apply bind_Ret_inv in E as (lines & w2 & E3 & E).
  apply read_lines_Ret in E3 as (report & Er & -> & ->).
  apply bind_Ret_inv in E as (o & w2 & E4 & E).
  apply best_objective_Ret in E4 as [R ->].
  apply bind_Ret_inv in E as (all & w2 & E5 & E).
  injection E as <- <-. simpl.
  pose proof (for_append_length _ _ _ _ _ _ E5) as L. simpl in L. rewrite length_seq in L.
  apply (parse_loop _ _ _ _ _ _ _ (fs w)) in E5 as (C2 & S2 & K2 & F2 & new & -> & F);
    [| exact S1].
  split; [reflexivity |]. split; [exact L |]. split.
  { exists report. split; [| exact R]. rewrite <- Er. symmetry. apply S1. reflexivity. }
  split; [exact F |]. split; [congruence |]. split; [exact S2 |].
  split; [eapply files_kept_trans; eauto |].
  now rewrite <- C1.
Qed.

End Parsing.


(* ===================================================================== *)
(** ** Reading the last field of the last line *)
(* ===================================================================== *)

Module PyStrFacts.

Import PyStr.

#[local] Arguments String.append !_ _ / : simpl nomatch.

Lemma append_assoc (a b c : string) : ((a ++ b) ++ c = a ++ b ++ c)%string.
Proof. induction a as [| x a IH]; simpl; [reflexivity | now rewrite IH]. Qed.

Lemma occurs_app c a b : occurs c (a ++ b)%string = occurs c a || occurs c b.
Proof.
  induction a as [| x a IH]; simpl; [reflexivity |].
  now rewrite IH, orb_assoc.
Qed.

(** Without carriage return the text is read as it is. *)
Lemma universal_newlines_id s :
  occurs carriage_return s = false -> universal_newlines s = s.
Proof.
  induction s as [| c s IH]; simpl; [reflexivity |].
  intros Hc. apply orb_false_elim in Hc as [Hc Hs].
  rewrite Hc. now rewrite IH.
Qed.

Lemma keepends_nil s : keepends s = [] -> s = EmptyString.
Proof.
  destruct s as [| c s]; [reflexivity |]. simpl.
  destruct (Ascii.eqb c newline); [discriminate |].
  destruct (keepends s); discriminate.
Qed.

(** A newline ends a line: what follows it is read on its own. *)
Lemma keepends_app a b :
  keepends (a ++ String newline b)%string
  = keepends (a ++ String newline "")%string ++ keepends b.
Proof.
  induction a as [| c a IH].
  - reflexivity.
  - change (keepends (String c a ++ String newline b)%string)
      with (if Ascii.eqb c newline
            then String c EmptyString :: keepends (a ++ String newline b)%string
            else match keepends (a ++ String newline b)%string with
                 | [] => [String c EmptyString]
                 | l :: ls => String c l :: ls
                 end).
    change (keepends (String c a ++ String newline "")%string)
      with (if Ascii.eqb c newline
            then String c EmptyString :: keepends (a ++ String newline "")%string
            else match keepends (a ++ String newline "")%string with
                 | [] => [String c EmptyString]
                 | l :: ls => String c l :: ls
                 end).
    rewrite IH. destruct (Ascii.eqb c newline); [reflexivity |].
    destruct (keepends (a ++ String newline "")%string) as [| l ls] eqn:E; [| reflexivity].
    apply keepends_nil in E. destruct a; discriminate.
Qed.

Lemma keepends_line l :
  occurs newline l = false ->
  keepends (l ++ String newline "")%string = [(l ++ String newline "")%string].
Proof.
  induction l as [| c l IH]; [reflexivity |].
  intros Hc. apply orb_false_elim in Hc as [Hc Hl].
  change (keepends (String c l ++ String newline "")%string)
    with (if Ascii.eqb c newline
          then String c EmptyString :: keepends (l ++ String newline "")%string
          else match keepends (l ++ String newline "")%string with
               | [] => [String c EmptyString]
               | x :: xs => String c x :: xs
               end).
  now rewrite Hc, IH.
Qed.

Lemma last_item_app {A} (l1 l2 : list A) :
  l2 <> [] -> last_item (l1 ++ l2) = last_item l2.
Proof.
  intros Hne. unfold last_item. induction l1 as [| x l1 IH]; [reflexivity |].
  simpl. rewrite <- IH.
  destruct (l1 ++ l2) as [| y l] eqn:E; [| reflexivity].
  apply app_eq_nil in E as [_ E]. contradiction.
Qed.

(** The last line of a text that ends with the line [l]. *)
Lemma last_line body l :
  whole_lines body -> occurs newline l = false ->
  last_item (keepends (body ++ l ++ String newline "")%string)
  = Some (l ++ String newline "")%string.
Proof.
  unfold whole_lines, nl. intros [-> | [b0 ->]] Hl.
  - change (EmptyString ++ l ++ String newline "")%string
      with (l ++ String newline "")%string.
    now rewrite keepends_line.
  - rewrite append_assoc.
    change (String newline "" ++ l ++ String newline "")%string
      with (String newline (l ++ String newline ""))%string.
    rewrite keepends_app, (keepends_line l Hl).
    now rewrite last_item_app.
Qed.

Lemma split_not_nil sep s : split sep s <> [].
Proof.
  destruct s as [| c s]; simpl; [discriminate |].
  destruct (Ascii.eqb c sep); [discriminate |]. destruct (split sep s); discriminate.
Qed.

(** A separator ends a field: what follows it is split on its own. *)
Lemma split_app sep a b :
  split sep (a ++ String sep b)%string = split sep a ++ split sep b.
Proof.
  induction a as [| c a IH]; simpl.
  - now rewrite Ascii.eqb_refl.
  - destruct (Ascii.eqb c sep); [now rewrite IH |].
    rewrite IH. destruct (split sep a) as [| x xs] eqn:E; [| reflexivity].
    now apply split_not_nil in E.
Qed.

Lemma split_field sep s : occurs sep s = false -> split sep s = [s].
Proof.
  induction s as [| c s IH]; simpl; [reflexivity |].
  intros Hc. apply orb_false_elim in Hc as [Hc Hs].
  rewrite Hc. now rewrite IH.
Qed.

(** The last field of a line that ends with the field [v]. *)
Lemma last_field_of_line sep k v :
  occurs sep v = false ->
  last_item (split sep (k ++ String sep v)%string) = Some v.
Proof.
  intros Hv. rewrite split_app, (split_field sep v Hv).
  now rewrite last_item_app.
Qed.

Lemma rstrip_space s c : is_space c = true -> rstrip (s ++ String c "")%string = rstrip s.
Proof.
  intros Hc. induction s as [| a s IH]; simpl.
  - now rewrite Hc.
  - now rewrite IH.
Qed.

Lemma lstrip_space s c :
  is_space c = true ->
  lstrip (s ++ String c "")%string = lstrip s
  \/ lstrip (s ++ String c "")%string = (lstrip s ++ String c "")%string.
Proof.
  intros Hc. induction s as [| a s IH]; simpl.
  - rewrite Hc. now left.
  - destruct (is_space a); [exact IH | now right].
Qed.

(** A blank at the end does not change what [strip] gives. *)
Lemma strip_space s c : is_space c = true -> strip (s ++ String c "")%string = strip s.
Proof.
  intros Hc. unfold strip.
  destruct (lstrip_space s c Hc) as [-> | ->]; [reflexivity |].
  now apply rstrip_space.
Qed.

End PyStrFacts.

(** The token read from a report is the text after the last ['='] of its
    last line, without the blanks around it. *)
Lemma objective_token_last_line body key value :
  occurs PyStr.carriage_return (body ++ key ++ "=" ++ value)%string = false ->
  whole_lines body ->
  occurs PyStr.newline key = false ->
  occurs PyStr.newline value = false ->
  occurs "=" value = false ->
  objective_token (PyStr.readlines (body ++ key ++ "=" ++ value ++ PyStr.nl)%string)
  = Some (PyStr.strip value).
Proof.
  intros Hcr Hb Hk Hv He.
  assert (Hnl : occurs PyStr.newline (key ++ String "=" value)%string = false).
  { rewrite PyStrFacts.occurs_app. cbn [occurs]. now rewrite Hk, Hv. }
  assert (Hcr' : occurs PyStr.carriage_return
                   (body ++ (key ++ String "=" value) ++ String PyStr.newline "")%string
                 = false).
  { rewrite !PyStrFacts.occurs_app in *. cbn [occurs] in *.
    destruct (occurs PyStr.carriage_return body), (occurs PyStr.carriage_return key),
      (occurs PyStr.carriage_return value); simpl in *; congruence. }
  unfold objective_token, PyStr.last_field, PyStr.readlines, PyStr.nl.
  replace (body ++ key ++ "=" ++ value ++ String PyStr.newline "")%string
    with (body ++ (key ++ String "=" value) ++ String PyStr.newline "")%string
    by (now rewrite !PyStrFacts.append_assoc).
  rewrite (PyStrFacts.universal_newlines_id _ Hcr').
  rewrite (PyStrFacts.last_line _ _ Hb Hnl).
  replace ((key ++ String "=" value) ++ String PyStr.newline "")%string
    with (key ++ String "=" (value ++ String PyStr.newline ""))%string
    by (now rewrite !PyStrFacts.append_assoc).
  rewrite PyStrFacts.last_field_of_line.
  - now rewrite PyStrFacts.strip_space.
  - rewrite PyStrFacts.occurs_app, He. reflexivity.
Qed.

(** The token of a report, on texts as [mcsqs] writes them. *)
Example objective_token_numeric :
  objective_token (PyStr.readlines
    ("2 1.0 0.25 0.30 -0.05" ++ PyStr.nl ++ "Objective_function= -0.987" ++ PyStr.nl)%string)
  = Some "-0.987".
Proof. reflexivity. Qed.

Example objective_token_sentinel :
  objective_token (PyStr.readlines
    ("2 1.0 0.25 0.25 0.0" ++ PyStr.nl ++ "Objective_function= Perfect_match")%string)
  = Some "Perfect_match".
Proof. reflexivity. Qed.

Example objective_token_last_equals :
  objective_token (PyStr.readlines
    ("a=1" ++ String PyStr.carriage_return PyStr.nl ++ "b = c = 3 "
       ++ String PyStr.carriage_return PyStr.nl)%string)
  = Some "3".
Proof. reflexivity. Qed.

Example objective_token_no_line : objective_token (PyStr.readlines "") = None.
Proof. reflexivity. Qed.

(** The pattern of line 194 on the names the module meets. *)
Example bestsqs_glob_names :
  map (glob_match bestsqs_glob)
      ["bestsqs1.out"; "bestsqs12.out"; "bestsqs1.cif"; "bestsqs.out"; "bestsqs.cif";
       "bestcorr1.out"; "rndstr.in"; "sqscell.out"]
  = [true; true; true; false; false; false; false; false].
Proof. reflexivity. Qed.

(** A new file that matches the pattern raises the count. *)
Lemma indexed_count_grows (d : string) (f f' : files) (name : string) :
  files_kept f f' ->
  f !! (d, name) = None ->
  is_Some (f' !! (d, name)) ->
  glob_match bestsqs_glob name = true ->
  (indexed_count d f + 1 <= indexed_count d f')%nat.
Proof.
  intros K Hnew Hthere Hm. unfold indexed_count.
  set (P := fun k : string * string => k.1 = d /\ glob_match bestsqs_glob k.2 = true).
  assert (Hsub : (d, name) :: filter P (elements (dom f)) ⊆+ filter P (elements (dom f'))).
  { apply NoDup_submseteq.
    - constructor.
      + rewrite list_elem_of_filter, elem_of_elements, elem_of_dom, Hnew.
        intros [_ [x Hx]]. discriminate.
      + apply NoDup_filter, NoDup_elements.
    - intros k. rewrite elem_of_cons, !list_elem_of_filter, !elem_of_elements, !elem_of_dom.
      intros [-> | [HP Hk]].
      + split; [now split | exact Hthere].
      + split; [exact HP | now apply K]. }
  apply submseteq_length in Hsub. rewrite length_cons in Hsub.
  fold P. lia.
Qed.

Section ParsedValues.

Context (H : Host).

(** C5. When the parse returns, the objective function of the result is
    read from the token after the last ['='] of the last line of
    [bestcorr.out]: the sentinel when the token is the sentinel text, and
    otherwise the float the token denotes. Every entry of [allsqs] is read
    in the same way from the report of its instance, except that the
    sentinel text gives the objective function of the result; so an instance
    whose report ends in the sentinel text gets the value [v] when the best
    objective function is the number [v]. The token of a text whose last
    line is [key=value] is [value] without the blanks around it. *)
Theorem sentinel_reconciliation path w r w' :
  _parse_sqs_path H path w = (Ret r, w') ->
  let d := resolved w path in
  (exists report tok,
      fs w !! (d, "bestcorr.out") = Some report
      /\ objective_token (PyStr.readlines report) = Some tok
      /\ (tok = "Perfect_match" -> objective_function r = Perfect_match)
      /\ (tok <> "Perfect_match" ->
          exists x, float_of_str H tok = Some x /\ objective_function r = Objective x))
  /\ (forall i entry,
        allsqs r !! i = Some entry ->
        exists report tok,
          fs w !! (d, corr_out i) = Some report
          /\ objective_token (PyStr.readlines report) = Some tok
          /\ (tok = "Perfect_match" ->
              entry_objective_function entry = objective_function r)
          /\ (tok <> "Perfect_match" ->
              exists x, float_of_str H tok = Some x
                        /\ entry_objective_function entry = Objective x))
  /\ (forall i entry report v,
        allsqs r !! i = Some entry ->
        fs w !! (d, corr_out i) = Some report ->
        objective_token (PyStr.readlines report) = Some "Perfect_match" ->
        objective_function r = Objective v ->
        entry_objective_function entry = Objective v)
  /\ (forall body key value,
        occurs PyStr.carriage_return (body ++ key ++ "=" ++ value)%string = false ->
        whole_lines body ->
        occurs PyStr.newline key = false ->
        occurs PyStr.newline value = false ->
        occurs "=" value = false ->
        objective_token (PyStr.readlines (body ++ key ++ "=" ++ value ++ PyStr.nl)%string)
        = Some (PyStr.strip value)).
Proof.
  intros E d. apply _parse_sqs_path_Ret in E as (_ & _ & Hbest & Hall & _).
  fold d in Hbest, Hall.
  assert (Hentry : forall i entry,
             allsqs r !! i = Some entry ->
             exists report,
               fs w !! (d, corr_out i) = Some report
               /\ read_as H (objective_function r) report (entry_objective_function entry)).
  { intros i entry Hi.
    destruct (Forall2_lookup_r _ _ _ _ _ Hall Hi) as (j & Hj & report & Hr & R).
    apply lookup_seq in Hj as [-> _]. simpl. now exists report. }
  split; [| split; [| split]].
  - destruct Hbest as (report & Hr & tok & Ht & Hs & Hn). now exists report, tok.
  - intros i entry Hi. destruct (Hentry i entry Hi) as (report & Hr & tok & Ht & Hs & Hn).
    now exists report, tok.
  - intros i entry report v Hi Hr Ht Hv.
    destruct (Hentry i entry Hi) as (report' & Hr' & tok & Ht' & Hs & _).
    assert (report' = report) as -> by congruence.
    assert (tok = "Perfect_match") as -> by congruence.
    now rewrite Hs.
  - intros body key value. apply objective_token_last_line.
Qed.

(** C2 fails on the code. Take a run directory with the output of at
    least one instance, not yet converted ([bestsqs1.cif] is not there) and
    with no report of an instance beyond those counted. When a parse of it
    returns, it has left the converted structure of every instance in the
    directory; the pattern of line 194 matches these too, so the next parse
    counts more instances than there are and does not return a result. *)
Theorem second_parse_fails w r w1 :
  _parse_sqs_path H "." w = (Ret r, w1) ->
  allsqs r <> [] ->
  fs w !! (cwd w, "bestsqs1.cif") = None ->
  fs w !! (cwd w, corr_out (length (allsqs r))) = None ->
  (length (allsqs r) < indexed_count (cwd w1) (fs w1))%nat
  /\ forall r', (_parse_sqs_path H "." w1).1 <> Ret r'.
Proof.
  intros E Hne Hcif Hrep.
  destruct (_parse_sqs_path_Ret H _ _ _ _ E) as (_ & L & _ & _ & C & S & K & F).
  change (resolved w ".") with (cwd w) in *.
  set (n := indexed_count (cwd w) (fs w)) in *.
  assert (Hn : (0 < n)%nat).
  { rewrite <- L. destruct (allsqs r); [contradiction | simpl; lia]. }
  assert (Hfirst : is_Some (fs w1 !! (cwd w, "bestsqs1.cif"))).
  { rewrite Forall_forall in F. apply (F 0%nat). apply elem_of_seq. lia. }
  assert (G : (n + 1 <= indexed_count (cwd w1) (fs w1))%nat).
  { rewrite C. apply (indexed_count_grows _ _ _ "bestsqs1.cif");
      [exact K | exact Hcif | exact Hfirst | reflexivity]. }
  split; [lia |].
  intros r' E'.
  destruct (_parse_sqs_path H "." w1) as [o w2] eqn:E2. simpl in E'. subst o.
  destruct (_parse_sqs_path_Ret H _ _ _ _ E2) as (_ & _ & _ & F2 & _).
  change (resolved w1 ".") with (cwd w1) in *.
  assert (Hl : seq 0 (indexed_count (cwd w1) (fs w1)) !! n = Some n).
  { apply lookup_seq. split; lia. }
  destruct (Forall2_lookup_l _ _ _ _ _ F2 Hl) as (entry & _ & report & Hr & _).
  rewrite S, C, <- L, Hrep in Hr by apply corr_out_prefix. discriminate.
Qed.

End ParsedValues.

Lemma sentinel_reconciliation_witness :
  let r := mkSqs [mkSite "Fe" 1] (Objective 7) [mkEntry [mkSite "Fe" 1] (Objective 7)] "/run" in
  (_parse_sqs_path Demo.host "." Demo.run_dir).1 = Ret r
  /\ objective_token (PyStr.readlines ("Objective_function= Perfect_match" ++ PyStr.nl)%string)
     = Some "Perfect_match"
  /\ map entry_objective_function (allsqs r) = [objective_function r].
Proof.
  intros r.
  assert (E : _parse_sqs_path Demo.host "." Demo.run_dir
              = (Ret r, (_parse_sqs_path Demo.host "." Demo.run_dir).2))
    by (vm_compute; reflexivity).
  split; [now rewrite E |]. split; [reflexivity |].
  pose proof (sentinel_reconciliation Demo.host "." Demo.run_dir r _ E) as K0.
  cbv zeta in K0. destruct K0 as (_ & _ & K & _).
  assert (F : fs Demo.run_dir !! (resolved Demo.run_dir ".", corr_out 0)
              = Some ("Objective_function= Perfect_match" ++ PyStr.nl)%string)
    by (vm_compute; reflexivity).
  exact (f_equal (fun o => [o])
           (K 0%nat (mkEntry [mkSite "Fe" 1] (Objective 7)) _ 7%Q eq_refl F eq_refl eq_refl)).
Defined.

Lemma second_parse_fails_witness :
  let first := _parse_sqs_path Demo.host "." Demo.run_dir in
  (exists r, first.1 = Ret r /\ length (allsqs r) = 1%nat)
  /\ indexed_count "/run" (fs first.2) = 2%nat
  /\ (_parse_sqs_path Demo.host "." first.2).1
     = Raise (FileNotFoundError "/run" "bestsqs2.cif")
  /\ forall r', (_parse_sqs_path Demo.host "." first.2).1 <> Ret r'.
Proof.
  intros first.
  set (r := mkSqs [mkSite "Fe" 1] (Objective 7) [mkEntry [mkSite "Fe" 1] (Objective 7)] "/run").
  assert (E : _parse_sqs_path Demo.host "." Demo.run_dir = (Ret r, first.2))
    by (vm_compute; reflexivity).
  assert (F1 : fs Demo.run_dir !! (cwd Demo.run_dir, "bestsqs1.cif") = None)
    by (vm_compute; reflexivity).
  assert (F2 : fs Demo.run_dir !! (cwd Demo.run_dir, corr_out (length (allsqs r))) = None)
    by (vm_compute; reflexivity).
  assert (N : allsqs r <> []) by discriminate.
  pose proof (second_parse_fails Demo.host Demo.run_dir r first.2 E N F1 F2) as [_ K].
  split; [exists r; split; [unfold first; now rewrite E | reflexivity] |].
  split; [vm_compute; reflexivity |].
  split; [vm_compute; reflexivity | exact K].
Defined.

(* ===================================================================== *)
(** ** A run with a single instance *)
(* ===================================================================== *)

Section Triples.

Context {A B : Type}.

Lemma triple_bind I (m : M A) (k : A -> M B) Q1 Q2 J :
  triple I m Q1 J -> (forall a, triple (Q1 a) (k a) Q2 J) -> triple I (bind m k) Q2 J.
Proof.
  intros Hm Hk w Hw. unfold bind. specialize (Hm w Hw).
  destruct (m w) as [[a | e |] w1]; simpl in *; auto.
  apply (Hk a w1 Hm).
Qed.

Lemma triple_conseq (I I' : World -> Prop) (m : M A) (Q Q' : A -> World -> Prop)
    (J J' : World -> Prop) :
  (forall w, I' w -> I w) -> (forall a w, Q a w -> Q' a w) -> (forall w, J w -> J' w) ->
  triple I m Q J -> triple I' m Q' J'.
Proof.
  intros HI HQ HJ Hm w Hw. specialize (Hm w (HI w Hw)).
  destruct (m w).1 as [a | e |]; auto. destruct e; auto.
Qed.

Lemma triple_ret I (a : A) (Q : A -> World -> Prop) J :
  (forall w, I w -> Q a w) -> triple I (ret a) Q J.
Proof. intros HQ w Hw. simpl. auto. Qed.

Lemma triple_get I (f : World -> A) (Q : A -> World -> Prop) J :
  (forall w, I w -> Q (f w) w) -> triple I (get f) Q J.
Proof. intros HQ w Hw. simpl. auto. Qed.

Lemma triple_raise I (e : exn) (Q : A -> World -> Prop) J :
  e <> TimeoutExpired -> triple I (@raise A e) Q J.
Proof. intros He w Hw. simpl. destruct e; auto. contradiction. Qed.

Lemma triple_try I (body handler : M A) Q J J' :
  triple I body Q J -> triple J handler Q J' ->
  triple I (try_except_TimeoutExpired body handler) Q J'.
Proof.
  intros Hb Hh w Hw. unfold try_except_TimeoutExpired. specialize (Hb w Hw).
  destruct (body w) as [[a | e |] w1]; simpl in *; auto.
  destruct e; simpl; auto. apply (Hh w1 Hb).
Qed.

End Triples.

Lemma triple_for_each {A} (I : World -> Prop) (l : list A) (body : A -> M unit) J :
  (forall x, In x l -> triple I (body x) (fun _ => I) J) ->
  triple I (for_each l body) (fun _ => I) J.
Proof.
  induction l as [| x l IH]; intros Hb; simpl.
  - now apply triple_ret.
  - eapply triple_bind; [apply Hb; now left |].
    intros u. apply IH. intros y Hy. apply Hb. now right.
Qed.

(** The decimal form of an integer does not begin with the letter i. *)
Lemma pretty_N_go_head x s :
  (exists c s', s = String c s' /\ c <> "i"%char) ->
  exists c s', pretty_N_go x s = String c s' /\ c <> "i"%char.
Proof.
  revert s. induction (N.lt_wf_0 x) as [x _ IH]; intros s Hs.
  destruct (decide (x = 0)%N) as [-> | Hx].
  - now rewrite pretty_N_go_0.
  - rewrite pretty_N_go_step by lia. apply IH.
    + apply N.div_lt; lia.
    + eexists _, _. split; [reflexivity |].
      unfold pretty_N_char. repeat case_match; discriminate.
Qed.

Lemma pretty_Z_head (z : Z) :
  exists c s', pretty z = String c s' /\ c <> "i"%char.
Proof.
  destruct z as [| p | p].
  - exists "0"%char, EmptyString. split; [reflexivity | discriminate].
  - unfold pretty, pretty_Z, pretty, pretty_positive, pretty, pretty_N.
    case_decide; [discriminate |].
    rewrite pretty_N_go_step by lia. apply pretty_N_go_head.
    eexists _, _. split; [reflexivity |].
    unfold pretty_N_char. repeat case_match; discriminate.
  - unfold pretty, pretty_Z. eexists _, _. split; [reflexivity | discriminate].
Qed.

Lemma no_indexed_count d f : no_indexed d f -> indexed_count d f = 0%nat.
Proof.
  intros Hn. unfold indexed_count.
  destruct (filter _ _) as [| k l] eqn:E; [reflexivity |].
  assert (Hk : k ∈ k :: l) by left. rewrite <- E in Hk.
  destruct k as [d' name].
  apply list_elem_of_filter in Hk as [[Hd Hm] Hk].
  apply elem_of_elements, elem_of_dom in Hk. cbn [fst snd] in Hd, Hm. subst d'.
  rewrite (Hn name Hk) in Hm. discriminate.
Qed.

Section SingleInstance.

Context (H : Host) (Hhost : writes_unindexed H) (d : string) (n0 : nat).

Lemma inv_log e w : single_inv d n0 w -> single_inv d n0 (log e w).
Proof. intros Hw. exact Hw. Qed.

Lemma inv_set_clock t w : single_inv d n0 w -> single_inv d n0 (set_clock t w).
Proof. intros Hw. exact Hw. Qed.

Lemma inv_set_state pid p st w :
  single_inv d n0 w -> procs w !! pid = Some p ->
  single_inv d n0 (set_procs (<[pid := set_state st p]> (procs w)) w).
Proof.
  intros (Hc & Hf & Hl & Hp) E. split; [exact Hc |]. split; [exact Hf |]. split.
  - simpl. now rewrite length_insert.
  - simpl. intros q x Hq Hx.
    apply list_lookup_insert_Some in Hx as [(-> & <- & _) | [_ Hx]].
    + simpl. eapply Hp; eauto.
    + eapply Hp; eauto.
Qed.

Lemma inv_reap pid p ran w :
  single_inv d n0 w -> (n0 <= pid)%nat -> procs w !! pid = Some p ->
  single_inv d n0 (reap H pid p ran w).
Proof.
  intros Hw Hpid E. unfold reap.
  assert (Hu : unindexed_cmd (p_cmd p)) by (destruct Hw as (_ & _ & _ & Hp); eauto).
  pose proof (inv_set_state pid p Reaped w Hw E) as (Hc & Hf & Hl & Hp).
  split; [exact Hc |]. split; [| split; [exact Hl | exact Hp]].
  simpl. intros name Hn.
  destruct (glob_match bestsqs_glob name) eqn:Em; [| reflexivity].
  apply Hhost in Hn; [| exact Hu | exact Em].
  rewrite <- Em. now apply Hf.
Qed.

Lemma inv_write_file name c J :
  glob_match bestsqs_glob name = false ->
  triple (single_inv d n0) (write_file name c) (fun _ => single_inv d n0) J.
Proof.
  intros Hm w (Hc & Hf & Hl & Hp). simpl.
  split; [exact Hc |]. split; [| split; [exact Hl | exact Hp]].
  simpl. intros name' Hn. rewrite Hc in Hn.
  destruct (decide (name = name')) as [<- | Hne]; [exact Hm |].
  rewrite lookup_insert_ne in Hn by congruence. now apply Hf.
Qed.

Lemma inv_Popen cmd J :
  unindexed_cmd cmd ->
  triple (single_inv d n0) (Popen cmd)
         (fun pid w => single_inv d n0 w /\ (n0 <= pid)%nat) J.
Proof.
  intros Hu w (Hc & Hf & Hl & Hp). simpl. split; [| exact Hl].
  split; [exact Hc |]. split; [exact Hf |]. split.
  - simpl. rewrite length_app. lia.
  - simpl. intros q x Hq Hx.
    apply lookup_app_Some in Hx as [Hx | [_ Hx]].
    + eapply Hp; eauto.
    + destruct (q - length (procs w))%nat; simpl in Hx; [| discriminate].
      injection Hx as <-. exact Hu.
Qed.

Lemma inv_communicate pid t :
  (n0 <= pid)%nat ->
  triple (single_inv d n0) (communicate H pid t) (fun _ => single_inv d n0) (single_inv d n0).
Proof.
  intros Hpid w Hw. unfold communicate.
  change (procs (log (EvCommunicate pid t) w)) with (procs w).
  destruct (procs w !! pid) as [p |] eqn:E; simpl; [| now apply inv_log].
  destruct (p_state p); simpl.
  - destruct (run_time H (p_cmd p)) as [r |], t as [t |]; simpl; auto.
    + destruct (Qle_bool _ _); simpl.
      * apply (inv_reap pid p r (set_clock _ (log _ w))); auto.
      * now apply inv_set_clock, inv_log.
    + apply (inv_reap pid p r (set_clock _ (log _ w))); auto.
  - apply (inv_reap pid p _ (log _ w)); auto.
  - now apply inv_log.
Qed.

Lemma inv_kill pid J :
  triple (single_inv d n0) (kill H pid) (fun _ => single_inv d n0) J.
Proof.
  intros w Hw. unfold kill.
  change (procs (log (EvKill pid) w)) with (procs w).
  destruct (procs w !! pid) as [p |] eqn:E; simpl; [| now apply inv_log].
  destruct (p_state p); simpl; try (now apply inv_log).
  destruct (exited H p _); simpl; [now apply inv_log |].
  apply (inv_set_state pid p _ (log _ w)); auto.
Qed.

Lemma inv_wait_all ps t :
  Forall (fun p => (n0 <= p)%nat) ps ->
  triple (single_inv d n0) (wait_all H ps t) (fun _ => single_inv d n0) (single_inv d n0).
Proof.
  intros Hps. unfold wait_all. apply triple_for_each.
  intros p Hp. apply inv_communicate. rewrite Forall_forall in Hps.
  apply Hps. now apply list_elem_of_In.
Qed.

Lemma inv_kill_all ps :
  Forall (fun p => (n0 <= p)%nat) ps ->
  triple (single_inv d n0) (kill_all H ps) (fun _ => single_inv d n0) (single_inv d n0).
Proof.
  intros Hps. unfold kill_all. apply triple_for_each.
  intros p Hp. eapply triple_bind; [apply inv_kill |].
  intros u. apply inv_communicate. rewrite Forall_forall in Hps.
  apply Hps. now apply list_elem_of_In.
Qed.

(** With no file that matches the pattern, the parse returns no entry. *)
Lemma inv__parse_sqs_path J :
  triple (single_inv d n0) (_parse_sqs_path H ".") (fun r _ => allsqs r = []) J.
Proof.
  intros w (Hc & Hf & _).
  destruct (_parse_sqs_path H "." w) as [[r | e |] w'] eqn:E; simpl; auto.
  - apply _parse_sqs_path_Ret in E as (_ & L & _).
    change (resolved w ".") with (cwd w) in L. rewrite Hc, (no_indexed_count _ _ Hf) in L.
    now destruct (allsqs r).
  - pose proof (raises__parse_sqs_path H "." w e) as R. rewrite E in R.
    specialize (R eq_refl). now destruct e.
Qed.

Lemma inv_select_best n :
  (n <= 1)%Z ->
  triple (single_inv d n0) (select_best H (Some n)) (fun _ => single_inv d n0) (single_inv d n0).
Proof. intros Hn w Hw. now rewrite select_best_single. Qed.

Lemma inv_best_files_exist :
  triple (single_inv d n0) best_files_exist (fun _ => single_inv d n0) (single_inv d n0).
Proof. intros w Hw. now rewrite best_files_exist_eq. Qed.

Lemma inv_on_completion n :
  (n <= 1)%Z ->
  triple (single_inv d n0) (on_completion H (Some n)) (fun r _ => allsqs r = [])
         (single_inv d n0).
Proof.
  intros Hn. unfold on_completion.
  eapply triple_bind; [now apply inv_select_best |]. intros u.
  eapply triple_bind; [apply inv_best_files_exist |]. intros [|].
  - apply inv__parse_sqs_path.
  - now apply triple_raise.
Qed.

Lemma inv_on_timeout ps n orig :
  (n <= 1)%Z -> Forall (fun p => (n0 <= p)%nat) ps ->
  triple (single_inv d n0) (on_timeout H ps (Some n) orig) (fun r _ => allsqs r = [])
         (single_inv d n0).
Proof.
  intros Hn Hps. unfold on_timeout. fold (kill_all H ps).
  eapply triple_bind; [now apply inv_kill_all |]. intros u.
  eapply triple_bind; [now apply inv_select_best |]. intros u'.
  eapply triple_bind; [apply inv_best_files_exist |]. intros [|].
  - apply inv__parse_sqs_path.
  - intros w Hw. exact I.
Qed.

Lemma inv_search ps n t orig :
  (n <= 1)%Z -> Forall (fun p => (n0 <= p)%nat) ps ->
  triple (single_inv d n0) (search H ps (Some n) t orig) (fun r _ => allsqs r = [])
         (single_inv d n0).
Proof.
  intros Hn Hps. unfold search. eapply triple_try.
  - eapply triple_bind; [now apply inv_wait_all |]. intros u. now apply inv_on_completion.
  - now apply inv_on_timeout.
Qed.

Lemma inv_launch n cmd :
  (n <= 1)%Z -> unindexed_cmd cmd ->
  triple (single_inv d n0) (launch (Some n) cmd)
         (fun ps w => single_inv d n0 w /\ Forall (fun p => (n0 <= p)%nat) ps)
         (single_inv d n0).
Proof.
  intros Hn Hu w Hw. unfold launch, more_than_one. unfold bind at 1. unfold ret at 1.
  replace (1 <? n)%Z with false by (symmetry; apply Z.ltb_ge; lia).
  pose proof (inv_Popen cmd (single_inv d n0) Hu w Hw) as K.
  simpl in K. destruct K as [K1 K2]. unfold bind, Popen. simpl.
  split; [exact K1 |]. now constructor.
Qed.

End SingleInstance.

Lemma triple_assume {A} (I : World -> Prop) (P : Prop) (m : M A) Q J :
  (P -> triple I m Q J) -> triple (fun w => I w /\ P) m Q J.
Proof. intros Hm w [Hw HP]. now apply Hm. Qed.

Section SingleRun.

Context (H : Host) (Hhost : writes_unindexed H) (d : string) (n0 : nat).

Lemma unindexed_generate_clusters_cmd clusters :
  unindexed_cmd (generate_clusters_cmd H clusters).
Proof.
  unfold generate_clusters_cmd. constructor; [reflexivity |].
  apply Forall_map, Forall_forall. intros [k v] _.
  change (String.prefix "-ip " ("-" ++ pretty (k, v).1 ++ "=" ++ str_num H (k, v).2)%string)
    with (String.prefix "ip " (pretty k ++ "=" ++ str_num H v)%string).
  destruct (pretty_Z_head k) as (c & s' & -> & Hc).
  change (String.prefix "ip " (String c s' ++ "=" ++ str_num H v)%string)
    with (if ascii_dec "i" c
          then String.prefix "p " (s' ++ "=" ++ str_num H v)%string else false).
  destruct (ascii_dec "i" c) as [<- | _]; [contradiction | reflexivity].
Qed.

Lemma unindexed_add_ons temperature wr wn wd tol :
  unindexed_cmd (add_ons H temperature wr wn wd tol).
Proof. unfold add_ons. repeat constructor. Qed.

Lemma inv_prepare_scaling structure num_atoms scaling :
  triple (single_inv d n0) (prepare_scaling H structure num_atoms scaling)
         (fun prepared w => single_inv d n0 w /\ unindexed_cmd prepared.2)
         (single_inv d n0).
Proof.
  unfold prepare_scaling. destruct scaling as [k | a b c].
  - destruct (num_truthy _); [now apply triple_raise |].
    apply triple_ret. intros w Hw. split; [exact Hw |]. repeat constructor.
  - eapply triple_bind; [apply inv_write_file; reflexivity |]. intros u.
    apply triple_ret. intros w Hw. split; [exact Hw |]. repeat constructor.
Qed.

Lemma inv_after_validation clusters search_time n temperature wr wn wd tol orig prepared :
  (n <= 1)%Z -> unindexed_cmd prepared.2 ->
  triple (single_inv d n0)
         (after_validation H clusters search_time (Some n) temperature wr wn wd tol
                           orig prepared)
         (fun r _ => allsqs r = []) (single_inv d n0).
Proof.
  intros Hn Hu. unfold after_validation, Structure_to.
  eapply triple_bind; [apply inv_write_file; reflexivity |]. intros u.
  eapply triple_bind; [apply inv_Popen, unindexed_generate_clusters_cmd |]. intros p.
  apply triple_assume. intros Hp.
  eapply triple_bind; [now apply inv_communicate |]. intros u'.
  eapply triple_bind.
  { apply inv_launch; [exact Hn |]. apply Forall_app. split; [exact Hu |].
    apply unindexed_add_ons. }
  intros ps. apply triple_assume. intros Hps. now apply inv_search.
Qed.

End SingleRun.

Lemma demo_instance_of_unindexed cmd :
  unindexed_cmd cmd -> Demo.instance_of cmd = None.
Proof.
  intros Hu. unfold Demo.instance_of.
  replace (filter (fun a => String.prefix "-ip " a = true) cmd) with (@nil string);
    [reflexivity |].
  induction Hu as [| a l Ha _ IH]; [reflexivity |].
  rewrite filter_cons_False by congruence. exact IH.
Qed.

(** The demo host is one whose binaries, run without [-ip] flag, write
    only names that the pattern does not match. *)
Lemma demo_writes_unindexed : writes_unindexed Demo.host.
Proof.
  intros cmd ran d f dir name Hu Hm Hs. simpl in Hs. unfold Demo.demo_output in Hs.
  assert (Hne : forall other, glob_match bestsqs_glob other = false ->
                              (d, other) <> (dir, name)).
  { intros other Ho [= -> ->]. congruence. }
  destruct (Demo.is_search cmd).
  - destruct (Qle_bool 10 ran); [| exact Hs].
    rewrite (demo_instance_of_unindexed cmd Hu) in Hs. simpl in Hs.
    rewrite !lookup_insert_ne in Hs by (apply Hne; reflexivity). exact Hs.
  - destruct (Demo.has_flag "-best" cmd).
    + unfold Demo.copy in Hs.
      destruct (f !! (d, "bestcorr1.out")) as [c1 |] eqn:E1.
      * destruct (<[(d, "bestcorr.out") := c1]> f !! (d, "bestsqs1.out")) as [c2 |] eqn:E2.
        -- rewrite !lookup_insert_ne in Hs by (apply Hne; reflexivity). exact Hs.
        -- rewrite !lookup_insert_ne in Hs by (apply Hne; reflexivity). exact Hs.
      * destruct (f !! (d, "bestsqs1.out")) as [c2 |] eqn:E2.
        -- rewrite !lookup_insert_ne in Hs by (apply Hne; reflexivity). exact Hs.
        -- exact Hs.
    + rewrite !lookup_insert_ne in Hs by (apply Hne; reflexivity). exact Hs.
Qed.

Section InstanceCount.

Context (H : Host).

(** C8. When the parse returns, [allsqs] has as many entries as the
    directory has files that match the pattern of line 194 at the time of
    the parse. And a run with a single instance returns no entry at all,
    provided that the run directory has no such file to begin with and that
    the binaries, run without [-ip] flag, create none. *)
Theorem instance_count_invariant :
  (forall path w r w',
      _parse_sqs_path H path w = (Ret r, w') ->
      length (allsqs r) = indexed_count (resolved w path) (fs w))
  /\ (forall structure clusters scaling search_time directory instances
             temperature wr wn wd tol n w r w',
        writes_unindexed H ->
        default_instances H instances = Some n -> (n <= 1)%Z ->
        no_indexed (run_directory H directory) (fs w) ->
        run_mcsqs H structure clusters scaling search_time directory instances
                  temperature wr wn wd tol w = (Ret r, w') ->
        length (allsqs r) = 0%nat).
Proof.
  split.
  - intros path w r w' E. now apply _parse_sqs_path_Ret in E as (_ & L & _).
  - intros structure clusters scaling search_time directory instances
           temperature wr wn wd tol n w r w' Hhost Hi Hn Hf E.
    destruct (is_ordered structure) eqn:Ho.
    { unfold run_mcsqs in E. rewrite Ho in E. discriminate. }
    rewrite (run_mcsqs_disordered H) in E by exact Ho. rewrite Hi in E.
    set (d := run_directory H directory) in *.
    set (w0 := log (EvChdir d) (set_cwd d w)) in *.
    assert (Hw0 : single_inv d (length (procs w)) w0).
    { split; [reflexivity |]. split; [exact Hf |]. split; [apply Nat.le_refl |].
      intros pid p Hpid Hp. simpl in Hp. apply lookup_lt_Some in Hp. lia. }
    assert (T : triple (single_inv d (length (procs w)))
                  (bind (prepare_scaling H structure (Z.of_nat (length structure)) scaling)
                        (after_validation H clusters search_time (Some n)
                                          temperature wr wn wd tol (cwd w)))
                  (fun r _ => allsqs r = []) (single_inv d (length (procs w)))).
    { eapply triple_bind; [apply inv_prepare_scaling |].
      intros prepared. apply triple_assume. intros Hu.
      now apply inv_after_validation. }
    specialize (T w0 Hw0). rewrite E in T. simpl in T. now rewrite T.
Qed.

End InstanceCount.

Lemma instance_count_invariant_witness :
  let run := run_mcsqs Demo.host Demo.alloy Demo.clusters (Scalar (Int 4)) 1 (Some "/d")
                       (Some 1%Z) (Int 1) (Int 1) (Int 1) (Int 1) (Int 1) Demo.empty_world in
  (exists r, run.1 = Ret r /\ length (allsqs r) = 0%nat)
  /\ exists r w', _parse_sqs_path Demo.host "." Demo.run_dir = (Ret r, w')
                  /\ length (allsqs r) = 1%nat.
Proof.
  intros run.
  set (r := mkSqs [mkSite "Fe" 1; mkSite "Ni" 1] (Objective 7) [] "/d").
  assert (E : run_mcsqs Demo.host Demo.alloy Demo.clusters (Scalar (Int 4)) 1 (Some "/d")
                (Some 1%Z) (Int 1) (Int 1) (Int 1) (Int 1) (Int 1) Demo.empty_world
              = (Ret r, run.2)) by (vm_compute; reflexivity).
  assert (F : no_indexed (run_directory Demo.host (Some "/d")) (fs Demo.empty_world)).
  { intros name [x Hx]. simpl in Hx. rewrite lookup_empty in Hx. discriminate. }
  destruct (instance_count_invariant Demo.host) as [Ka Kb].
  split.
  - exists r. split; [unfold run; now rewrite E |].
    assert (L : (1 <= 1)%Z) by lia.
    exact (Kb Demo.alloy Demo.clusters (Scalar (Int 4)) 1%Q (Some "/d") (Some 1%Z)
              (Int 1) (Int 1) (Int 1) (Int 1) (Int 1) 1%Z Demo.empty_world r run.2
              demo_writes_unindexed eq_refl L F E).
  - set (r1 := mkSqs [mkSite "Fe" 1] (Objective 7)
                     [mkEntry [mkSite "Fe" 1] (Objective 7)] "/run").
    assert (E1 : _parse_sqs_path Demo.host "." Demo.run_dir
                 = (Ret r1, (_parse_sqs_path Demo.host "." Demo.run_dir).2))
      by (vm_compute; reflexivity).
    exists r1, (_parse_sqs_path Demo.host "." Demo.run_dir).2.
    split; [exact E1 |].
    rewrite (Ka _ _ _ _ E1). vm_compute. reflexivity.
Defined.

(* ===================================================================== *)
(** ** Further properties of the module *)
(* ===================================================================== *)

Lemma glob_star_all t : glob_match [GStar] t = true.
Proof.
  induction t as [| c t IH]; [reflexivity |].
  change (glob_match [GStar] (String c t))
    with (glob_match [] (String c t) || glob_match [GStar] t).
  now rewrite IH, orb_true_r.
Qed.

(** What follows [bestsqs] matches when it holds a digit. *)
Lemma glob_digit_tail s :
  glob_match [GStar; GRange "0" "9"; GStar] s = has_digit s.
Proof.
  induction s as [| c s IH]; [reflexivity |].
  change (glob_match [GStar; GRange "0" "9"; GStar] (String c s))
    with ((in_range "0" "9" c && glob_match [GStar] s)
          || glob_match [GStar; GRange "0" "9"; GStar] s).
  now rewrite glob_star_all, andb_true_r, IH.
Qed.

Lemma glob_lits_app p q s :
  glob_match (glob_lits p ++ q) s = true
  <-> exists rest, s = (p ++ rest)%string /\ glob_match q rest = true.
Proof.
  revert s. induction p as [| c p IH]; intros s.
  - simpl. split; [intros Hm; now exists s | now intros (rest & -> & Hm)].
  - change (glob_match (glob_lits (String c p) ++ q) s)
      with (match s with
            | String c' s' => Ascii.eqb c c' && glob_match (glob_lits p ++ q) s'
            | EmptyString => false
            end).
    destruct s as [| c' s'].
    + split; [discriminate | now intros (rest & E & _)].
    + rewrite andb_true_iff, IH, Ascii.eqb_eq. split.
      * intros (<- & rest & -> & Hm). now exists rest.
      * intros (rest & [= -> ->] & Hm). split; [reflexivity | now exists rest].
Qed.

(** X1. The pattern of line 194, ['bestsqs*[0-9]*'], matches the names
    that begin with [bestsqs] and hold a decimal digit after it, and no
    others: the converted [bestsqsN.cif] as well as the [bestsqsN.out]. *)
Theorem bestsqs_glob_iff name :
  glob_match bestsqs_glob name = true
  <-> exists rest, name = ("bestsqs" ++ rest)%string /\ has_digit rest = true.
Proof.
  unfold bestsqs_glob. rewrite glob_lits_app.
  split; intros (rest & E & Hm); exists rest; split; auto.
  - now rewrite <- glob_digit_tail.
  - now rewrite glob_digit_tail.
Qed.

(** What [launch] returns and leaves behind. *)
Lemma launch_effect (n : Z) (cmd : list string) (w : World) :
  let count := Z.to_nat (Z.max n 1) in
  let r := launch (Some n) cmd w in
  r.1 = Ret (seq (length (procs w)) count)
  /\ length (procs r.2) = (length (procs w) + count)%nat
  /\ trace r.2 = trace w ++ launch_events (length (procs w)) n cmd
  /\ forall i, (i < count)%nat ->
       procs r.2 !! (length (procs w) + i)%nat
       = Some (mkProc (if (1 <? n)%Z then cmd ++ instance_cmd (Z.of_nat i) else cmd)
                      (cwd w) (clock w) Running).
Proof.
  intros count r. subst count r. unfold launch_events.
  destruct (1 <? n)%Z eqn:En.
  - apply Z.ltb_lt in En.
    assert (L : launch (Some n) cmd w
                = for_append (seqZ 0 n) (fun i => Popen (cmd ++ instance_cmd i)) [] w).
    { unfold launch, more_than_one, bind, ret.
      replace (1 <? n)%Z with true by (symmetry; apply Z.ltb_lt; lia). reflexivity. }
    rewrite L, launch_loop. simpl. rewrite Z.max_l by lia.
    rewrite length_seqZ. split; [reflexivity |]. split.
    { rewrite length_app, length_map, length_seqZ. reflexivity. }
    split; [reflexivity |].
    intros i Hi. rewrite lookup_app_r by lia.
    replace (length (procs w) + i - length (procs w))%nat with i by lia.
    rewrite list_lookup_fmap, lookup_seqZ_lt by lia. simpl.
    now rewrite Z.add_0_l.
  - apply Z.ltb_ge in En. rewrite Z.max_r by lia.
    unfold launch, more_than_one, bind, ret, Popen. simpl.
    replace (1 <? n)%Z with false by (symmetry; apply Z.ltb_ge; lia). simpl.
    split; [reflexivity |]. split; [now rewrite length_app |]. split; [reflexivity |].
    intros i Hi. assert (i = 0)%nat as -> by lia.
    rewrite Nat.add_0_r. apply list_lookup_middle. reflexivity.
Qed.

(** X2. Lines 129-141: the search is started as [instances] processes,
    and as one when [instances] is below two. The handles come back in the
    order of the launches; every process starts at the same time in the
    working directory, with the instance flag [-ip i+1] when there are
    several and without it when there is one. *)
Theorem launch_starts (n : Z) (cmd : list string) (w : World) :
  let count := Z.to_nat (Z.max n 1) in
  let r := launch (Some n) cmd w in
  r.1 = Ret (seq (length (procs w)) count)
  /\ length (procs r.2) = (length (procs w) + count)%nat
  /\ trace r.2 = trace w ++ launch_events (length (procs w)) n cmd
  /\ forall i, (i < count)%nat ->
       procs r.2 !! (length (procs w) + i)%nat
       = Some (mkProc (if (1 <? n)%Z then cmd ++ instance_cmd (Z.of_nat i) else cmd)
                      (cwd w) (clock w) Running).
Proof. exact (launch_effect n cmd w). Qed.


Section Orchestration.

Context (H : Host).
Variables (clusters : list (Z * num)) (search_time : Q)
          (directory : option string)
          (temperature wr wn wd tol : num).

(** An accepted scaling gives the structure to write and the search
    command, and writes [sqscell.out] in the vector case only. *)
Lemma prepare_scaling_accepted structure scaling w :
  scaling_accepted scaling ->
  prepare_scaling H structure (Z.of_nat (length structure)) scaling w
  = (Ret (written_structure structure scaling, find_sqs_cmd H structure scaling),
     match scaling with
     | Scalar _ => w
     | Vector _ _ _ =>
         log (EvWrite (cwd w) "sqscell.out" identity_cell)
             (set_fs (<[(cwd w, "sqscell.out") := identity_cell]> (fs w)) w)
     end).
Proof.
  intros Ha. destruct scaling as [k | a b c]; simpl in *.
  - apply integer_valued_iff in Ha. now rewrite Ha.
  - reflexivity.
Qed.

(** The world in which cluster generation is waited for. *)
Lemma run_until_clusters structure scaling instances w :
  is_ordered structure = false ->
  scaling_accepted scaling ->
  exists w3,
    run_mcsqs H structure clusters scaling search_time directory instances
              temperature wr wn wd tol w
    = bind (communicate H (length (procs w)) None)
           (fun _ =>
              bind (launch (default_instances H instances)
                           (find_sqs_cmd H structure scaling
                            ++ add_ons H temperature wr wn wd tol))
                   (fun ps => search H ps (default_instances H instances)
                                     search_time (cwd w)))
           w3
    /\ trace w3 = trace w ++ preparation_events H (run_directory H directory) structure scaling
                          ++ [EvPopen (length (procs w)) (generate_clusters_cmd H clusters)]
    /\ procs w3 = procs w ++ [mkProc (generate_clusters_cmd H clusters)
                                     (run_directory H directory) (clock w) Running]
    /\ clock w3 = clock w.
Proof.
  intros Hd Ha. rewrite (run_mcsqs_disordered H); [| exact Hd].
  set (d := run_directory H directory).
  set (w0 := log (EvChdir d) (set_cwd d w)).
  set (after := fun w1 : World =>
         log (EvPopen (length (procs w)) (generate_clusters_cmd H clusters))
             (set_procs (procs w ++ [mkProc (generate_clusters_cmd H clusters) d (clock w) Running])
                (log (EvWrite d "rndstr.in" (to_rndstr H (written_structure structure scaling)))
                   (set_fs (<[(d, "rndstr.in") :=
                               to_rndstr H (written_structure structure scaling)]> (fs w1))
                           w1)))).
  destruct scaling as [k | a b c].
  - apply integer_valued_iff in Ha. unfold prepare_scaling. rewrite Ha.
    exists (after w0). split; [reflexivity |]. split; [| split; reflexivity].
    unfold preparation_events. simpl. now rewrite <- !app_assoc.
  - exists (after (log (EvWrite d "sqscell.out" identity_cell)
                       (set_fs (<[(d, "sqscell.out") := identity_cell]> (fs w0)) w0))).
    split; [reflexivity |]. split; [| split; reflexivity].
    unfold preparation_events. simpl. now rewrite <- !app_assoc.
Qed.

(** X3. Lines 115-118: cluster generation is waited for without timeout.
    When [mcsqs] does not exit by itself there, the run blocks before any
    search is started, with the run directory prepared and one process
    launched. *)
Theorem cluster_generation_is_unbounded structure scaling instances w :
  is_ordered structure = false ->
  scaling_accepted scaling ->
  run_time H (generate_clusters_cmd H clusters) = None ->
  let r := run_mcsqs H structure clusters scaling search_time directory instances
                     temperature wr wn wd tol w in
  r.1 = Hang
  /\ trace r.2 = trace w ++ preparation_events H (run_directory H directory) structure scaling
                         ++ [EvPopen (length (procs w)) (generate_clusters_cmd H clusters);
                             EvCommunicate (length (procs w)) None].
Proof.
  intros Hd Ha Hrt r. subst r.
  destruct (run_until_clusters structure scaling instances w Hd Ha)
    as (w3 & -> & T3 & P3 & C3).
  pose proof (trace_communicate H (length (procs w)) None w3) as T4.
  destruct (communicate H (length (procs w)) None w3) as [o w4] eqn:E4.
  assert (o = Hang) as ->.
  { unfold communicate in E4.
    change (procs (log (EvCommunicate (length (procs w)) None) w3)) with (procs w3) in E4.
    rewrite P3, list_lookup_middle in E4 by reflexivity. simpl in E4. rewrite Hrt in E4.
    now injection E4 as <- _. }
  rewrite (bind_Hang _ _ _ _ E4). cbn [fst snd] in *.
  split; [reflexivity |]. rewrite T4, T3, <- !app_assoc. reflexivity.
Qed.


(** The world in which the search is launched, when cluster generation
    has exited. *)
Lemma run_until_launch structure scaling instances t w :
  is_ordered structure = false ->
  scaling_accepted scaling ->
  run_time H (generate_clusters_cmd H clusters) = Some t ->
  exists w4,
    run_mcsqs H structure clusters scaling search_time directory instances
              temperature wr wn wd tol w
    = bind (launch (default_instances H instances)
                   (find_sqs_cmd H structure scaling
                    ++ add_ons H temperature wr wn wd tol))
           (fun ps => search H ps (default_instances H instances) search_time (cwd w))
           w4
    /\ trace w4 = trace w ++ preparation_events H (run_directory H directory) structure scaling
                          ++ [EvPopen (length (procs w)) (generate_clusters_cmd H clusters);
                              EvCommunicate (length (procs w)) None]
    /\ length (procs w4) = S (length (procs w)).
Proof.
  intros Hd Ha Hrt.
  destruct (run_until_clusters structure scaling instances w Hd Ha)
    as (w3 & -> & T3 & P3 & C3).
  destruct (communicate H (length (procs w)) None w3) as [o w4] eqn:E4.
  assert (Ho : o = Ret tt /\ trace w4 = trace w3 ++ [EvCommunicate (length (procs w)) None]
               /\ length (procs w4) = S (length (procs w))).
  { pose proof (trace_communicate H (length (procs w)) None w3) as T4. rewrite E4 in T4.
    unfold communicate in E4.
    change (procs (log (EvCommunicate (length (procs w)) None) w3)) with (procs w3) in E4.
    rewrite P3, list_lookup_middle in E4 by reflexivity. simpl in E4. rewrite Hrt in E4.
    injection E4 as <- <-. split; [reflexivity |]. split; [exact T4 |].
    simpl. rewrite length_insert, P3, length_app. simpl. lia. }
  destruct Ho as (-> & T4 & L4).
  exists w4. rewrite (bind_Ret _ _ _ _ _ E4).
  split; [reflexivity |]. split; [| exact L4].
  rewrite T4, T3, <- !app_assoc. reflexivity.
Qed.

(** C10. When [instances] is omitted the run is the one with the host's
    CPU count as instance count. For a run that gets as far as the search
    (a disordered structure, an accepted scaling, cluster generation that
    exits): with more than one core the run launches that many search
    processes, the one of index [i] with the flag [-ip i+1], and goes on
    to wait for them as a parallel search; with one core it launches a
    single process with no such flag; and when the host reports no count
    the comparison of line 130 raises before any search is launched. The
    indexed file names are the binary's answer to the flag. *)
Theorem default_instances_is_cpu_count structure scaling w :
  let run := fun instances =>
    run_mcsqs H structure clusters scaling search_time directory instances
              temperature wr wn wd tol w in
  run None = run (Z.pos <$> cpu_count H)
  /\ (is_ordered structure = false ->
      scaling_accepted scaling ->
      is_Some (run_time H (generate_clusters_cmd H clusters)) ->
      let first := S (length (procs w)) in
      let cmd := find_sqs_cmd H structure scaling ++ add_ons H temperature wr wn wd tol in
      let before :=
        trace w ++ preparation_events H (run_directory H directory) structure scaling
                ++ [EvPopen (length (procs w)) (generate_clusters_cmd H clusters);
                    EvCommunicate (length (procs w)) None] in
      (forall c, cpu_count H = Some c -> (1 < c)%positive ->
         exists w5,
           run None = search H (seq first (Pos.to_nat c)) (Some (Z.pos c))
                             search_time (cwd w) w5
           /\ trace w5
              = before ++ imap (fun j i => EvPopen (first + j)
                                             (cmd ++ [("-ip " ++ pretty (i + 1)%Z)%string]))
                               (seqZ 0 (Z.pos c))
           /\ forall i, (i < Pos.to_nat c)%nat ->
                p_cmd <$> procs w5 !! (first + i)%nat
                = Some (cmd ++ [("-ip " ++ pretty (Z.of_nat i + 1)%Z)%string]))
      /\ (cpu_count H = Some 1%positive ->
           exists w5,
             run None = search H [first] (Some 1%Z) search_time (cwd w) w5
             /\ trace w5 = before ++ [EvPopen first cmd]
             /\ p_cmd <$> procs w5 !! first = Some cmd)
      /\ (cpu_count H = None ->
           (run None).1 = Raise TypeError /\ trace (run None).2 = before)).
Proof.
  intros run. subst run. cbv beta. split.
  { unfold run_mcsqs. destruct (is_ordered structure); [reflexivity |].
    now destruct (cpu_count H). }
  intros Hd Ha [t Hrt] first cmd before.
  destruct (run_until_launch structure scaling None t w Hd Ha Hrt) as (w4 & -> & T4 & L4).
  fold cmd. fold before in T4. unfold default_instances.
  split; [| split].
  - intros c Ec Hc. rewrite Ec. cbn [fmap option_fmap option_map].
    pose proof (launch_effect (Z.pos c) cmd w4) as K. cbv zeta in K.
    destruct K as (E5 & _ & T5 & P5).
    assert (Hn : (1 <? Z.pos c)%Z = true) by (apply Z.ltb_lt; lia).
    assert (Hm : Z.to_nat (Z.max (Z.pos c) 1) = Pos.to_nat c).
    { rewrite Z.max_l by lia. apply Z2Nat.inj_pos. }
    rewrite Hm in E5, P5. rewrite L4 in E5, T5, P5. fold first in E5, T5, P5.
    destruct (launch (Some (Z.pos c)) cmd w4) as [o5 w5] eqn:E5'. cbn [fst snd] in *.
    subst o5. exists w5. rewrite (bind_Ret _ _ _ _ _ E5').
    split; [reflexivity |]. split.
    + rewrite T5, T4. unfold launch_events. rewrite Hn. reflexivity.
    + intros i Hi. rewrite (P5 i Hi), Hn. reflexivity.
  - intros Ec. rewrite Ec. cbn [fmap option_fmap option_map].
    pose proof (launch_effect 1 cmd w4) as K. cbv zeta in K.
    destruct K as (E5 & _ & T5 & P5).
    rewrite L4 in E5, T5, P5. fold first in E5, T5, P5.
    destruct (launch (Some 1%Z) cmd w4) as [o5 w5] eqn:E5'. cbn [fst snd] in *.
    subst o5. exists w5. rewrite (bind_Ret _ _ _ _ _ E5').
    split; [reflexivity |]. split.
    + rewrite T5, T4. reflexivity.
    + specialize (P5 0%nat). rewrite Nat.add_0_r in P5. rewrite P5; [reflexivity |].
      simpl. lia.
  - intros Ec. rewrite Ec. cbn [fmap option_fmap option_map].
    assert (E5 : launch None cmd w4 = (Raise TypeError, w4)) by reflexivity.
    rewrite (bind_Raise _ _ _ _ _ E5). split; [reflexivity | exact T4].
Qed.

End Orchestration.

Lemma default_instances_is_cpu_count_witness :
  let run := fun host =>
    run_mcsqs host Demo.alloy Demo.clusters (Scalar (Int 4)) 1 (Some "/d") None
              (Int 1) (Int 1) (Int 1) (Int 1) (Int 1) Demo.empty_world in
  let cmd := ["mcsqs"; "-n 8"; "-T 1"; "-wr 1"; "-wn 1"; "-wd 1"; "-tol 1"] in
  cpu_count Demo.host = Some 2%positive /\ (1 < 2)%positive
  /\ cpu_count Demo.single_core = Some 1%positive
  /\ (exists w5,
        run Demo.host = search Demo.host [1; 2]%nat (Some 2%Z) 1 "/home" w5
        /\ p_cmd <$> procs w5 !! 1%nat = Some (cmd ++ ["-ip 1"])
        /\ p_cmd <$> procs w5 !! 2%nat = Some (cmd ++ ["-ip 2"]))
  /\ (exists w5,
        run Demo.single_core = search Demo.single_core [1]%nat (Some 1%Z) 1 "/home" w5
        /\ p_cmd <$> procs w5 !! 1%nat = Some cmd)
  /\ (exists r, (run Demo.host).1 = Ret r /\ length (allsqs r) = 2%nat)
  /\ (exists r, (run Demo.single_core).1 = Ret r /\ length (allsqs r) = 0%nat).
Proof.
  intros run cmd.
  assert (Hd : is_ordered Demo.alloy = false) by reflexivity.
  assert (Ha : scaling_accepted (Scalar (Int 4))) by exact I.
  assert (Hr : is_Some (run_time Demo.host (generate_clusters_cmd Demo.host Demo.clusters)))
    by (eexists; vm_compute; reflexivity).
  assert (Hr1 : is_Some (run_time Demo.single_core
                           (generate_clusters_cmd Demo.single_core Demo.clusters)))
    by (eexists; vm_compute; reflexivity).
  assert (L : (1 < 2)%positive) by reflexivity.
  split; [reflexivity |]. split; [exact L |]. split; [reflexivity |]. split.
  - pose proof (default_instances_is_cpu_count Demo.host Demo.clusters 1 (Some "/d")
                  (Int 1) (Int 1) (Int 1) (Int 1) (Int 1)
                  Demo.alloy (Scalar (Int 4)) Demo.empty_world) as K.
    cbv zeta in K. destruct K as (_ & K). destruct (K Hd Ha Hr) as (K2 & _ & _).
    destruct (K2 2%positive eq_refl L) as (w5 & E & _ & P).
    exists w5. split; [exact E |]. split.
    + assert (L0 : (0 < Pos.to_nat 2)%nat) by (vm_compute; lia). exact (P 0%nat L0).
    + assert (L1 : (1 < Pos.to_nat 2)%nat) by (vm_compute; lia). exact (P 1%nat L1).
  - pose proof (default_instances_is_cpu_count Demo.single_core Demo.clusters 1 (Some "/d")
                  (Int 1) (Int 1) (Int 1) (Int 1) (Int 1)
                  Demo.alloy (Scalar (Int 4)) Demo.empty_world) as K.
    cbv zeta in K. destruct K as (_ & K). destruct (K Hd Ha Hr1) as (_ & K1 & _).
    destruct (K1 eq_refl) as (w5 & E & _ & P).
    split; [exists w5; split; [exact E | exact P] |].
    split; eexists; (split; [vm_compute; reflexivity | reflexivity]).
Defined.

(* ===================================================================== *)
(** ** What a computation leaves related *)
(* ===================================================================== *)

Section Respects.

Context (R : World -> World -> Prop).
Hypothesis R_refl : forall w, R w w.
Hypothesis R_trans : forall w1 w2 w3, R w1 w2 -> R w2 w3 -> R w1 w3.

Lemma respects_pure {A} (m : M A) : pure m -> respects R m.
Proof. intros Hm w. rewrite Hm. apply R_refl. Qed.

Lemma respects_bind {A B} (m : M A) (k : A -> M B) :
  respects R m -> (forall a, respects R (k a)) -> respects R (bind m k).
Proof.
  intros Hm Hk w. unfold bind. specialize (Hm w).
  destruct (m w) as [[a | e |] w1]; simpl in *; auto.
  eapply R_trans; [exact Hm | apply Hk].
Qed.

Lemma respects_for_each {A} (l : list A) (body : A -> M unit) :
  (forall x, respects R (body x)) -> respects R (for_each l body).
Proof.
  intros Hb. induction l as [| x l IH]; simpl.
  - intros w. apply R_refl.
  - apply respects_bind; auto.
Qed.

Lemma respects_for_append {A B} (l : list A) (body : A -> M B) acc :
  (forall x, respects R (body x)) -> respects R (for_append l body acc).
Proof.
  intros Hb. revert acc. induction l as [| x l IH]; intros acc; simpl.
  - intros w. apply R_refl.
  - apply respects_bind; auto.
Qed.

Lemma respects_try {A} (body handler : M A) :
  respects R body -> respects R handler ->
  respects R (try_except_TimeoutExpired body handler).
Proof.
  intros Hb Hh w. unfold try_except_TimeoutExpired. specialize (Hb w).
  destruct (body w) as [[a | e |] w1]; simpl in *; auto.
  destruct e; auto. eapply R_trans; [exact Hb | apply Hh].
Qed.

End Respects.

Section Pure.

Context (H : Host).

Lemma pure_ret {A} (a : A) : pure (ret a).
Proof. now intros w. Qed.

Lemma pure_raise {A} e : pure (@raise A e).
Proof. now intros w. Qed.

Lemma pure_get {A} (f : World -> A) : pure (get f).
Proof. now intros w. Qed.

Lemma pure_bind {A B} (m : M A) (k : A -> M B) :
  pure m -> (forall a, pure (k a)) -> pure (bind m k).
Proof.
  intros Hm Hk w. unfold bind. specialize (Hm w).
  destruct (m w) as [[a | e |] w1]; simpl in *; subst; auto. apply Hk.
Qed.

Lemma pure_read_lines d name : pure (read_lines d name).
Proof. intros w. unfold read_lines. now destruct (fs w !! (d, name)). Qed.

Lemma pure_Structure_from_file d name : pure (Structure_from_file H d name).
Proof.
  intros w. unfold Structure_from_file.
  destruct (fs w !! (d, name)) as [c |]; [| reflexivity]. now destruct (from_cif H c).
Qed.

Lemma pure_float s : pure (float H s).
Proof. intros w. unfold float. now destruct (float_of_str H s). Qed.

Lemma pure_last_token l : pure (last_token l).
Proof. intros w. unfold last_token. now destruct (objective_token l). Qed.

Lemma pure_best_objective l : pure (best_objective H l).
Proof.
  unfold best_objective. apply pure_bind; [apply pure_last_token |].
  intros t. destruct (negb _); [| apply pure_ret].
  apply pure_bind; [apply pure_float | intros; apply pure_ret].
Qed.

Lemma pure_instance_objective o l : pure (instance_objective H o l).
Proof.
  unfold instance_objective. apply pure_bind; [apply pure_last_token |].
  intros t. destruct (String.eqb _ _); [apply pure_ret |].
  apply pure_bind; [apply pure_float | intros; apply pure_ret].
Qed.

Lemma pure_best_files_exist : pure best_files_exist.
Proof. intros w. now rewrite best_files_exist_eq. Qed.

End Pure.

(* ===================================================================== *)
(** ** The footprint of the parser *)
(* ===================================================================== *)

Section Footprint.

Context (H : Host) (d : string).

Lemma only_cif_written_refl w : only_cif_written d w w.
Proof.
  split; [reflexivity |]. split; [apply Qle_refl |]. split.
  { exists []. split; [now rewrite app_nil_r | constructor]. }
  split; [now intros k Hk |]. split; [now intros k Hk |].
  exists []. split; [now rewrite app_nil_r | constructor].
Qed.

Lemma only_cif_written_trans w1 w2 w3 :
  only_cif_written d w1 w2 -> only_cif_written d w2 w3 -> only_cif_written d w1 w3.
Proof.
  intros (C1 & T1 & (n1 & P1 & N1) & K1 & F1 & l1 & L1 & S1)
         (C2 & T2 & (n2 & P2 & N2) & K2 & F2 & l2 & L2 & S2).
  split; [congruence |]. split; [eapply Qle_trans; eauto |]. split.
  { exists (n1 ++ n2). split; [now rewrite P2, P1, app_assoc | now apply Forall_app]. }
  split; [intros k Hk; now apply K2, K1 |]. split.
  - intros k Hk. destruct (decide (fs w2 !! k = fs w1 !! k)) as [E | E].
    + apply F2. congruence.
    + now apply F1.
  - exists (l1 ++ l2). split; [now rewrite L2, L1, app_assoc | now apply Forall_app].
Qed.

(** The process table after a conversion: one shell more. *)
Lemma procs_shell_str2cif cmdline infile outfile w :
  exists p,
    procs (shell_str2cif H d cmdline infile outfile w).2 = procs w ++ [p]
    /\ shell_in d p.
Proof.
  unfold shell_str2cif. simpl.
  set (p := mkProc (shell_cmd cmdline) d (clock w) Running).
  assert (E : <[length (procs w) := set_state Reaped p]> (procs w ++ [p])
              = procs w ++ [set_state Reaped p]).
  { rewrite insert_app_r_alt by lia. now rewrite Nat.sub_diag. }
  assert (Sp : shell_in d p) by (split; [reflexivity | now exists cmdline]).
  assert (Sr : shell_in d (set_state Reaped p)) by (split; [reflexivity | now exists cmdline]).
  destruct (fs w !! (d, infile)); simpl.
  - destruct (run_time H (shell_cmd cmdline)); simpl.
    + exists (set_state Reaped p). now split.
    + exists p. now split.
  - exists (set_state Reaped p). now split.
Qed.

Lemma clock_shell_str2cif cmdline infile outfile w :
  (clock w <= clock (shell_str2cif H d cmdline infile outfile w).2)%Q.
Proof.
  unfold shell_str2cif. simpl.
  destruct (fs w !! (d, infile)); simpl; [| apply Qle_refl].
  destruct (run_time H (shell_cmd cmdline)); simpl; [apply Q.le_max_l | apply Qle_refl].
Qed.

(** A conversion writes its output file, in [d], and nothing else. *)
Lemma shell_str2cif_footprint cmdline infile outfile :
  cif_name outfile ->
  respects (only_cif_written d) (shell_str2cif H d cmdline infile outfile).
Proof.
  intros Hc w.
  split; [apply stays_shell_str2cif |]. split; [apply clock_shell_str2cif |]. split.
  { destruct (procs_shell_str2cif cmdline infile outfile w) as (p & E & Sp).
    exists [p]. split; [exact E | now constructor]. }
  split; [| split].
  - apply (shell_str2cif_keeps H d cmdline infile outfile w).
  - intros k Hk. rewrite fs_shell_str2cif in Hk.
    destruct (fs w !! (d, infile)) as [c |]; [| contradiction].
    destruct (run_time H (shell_cmd cmdline)); [| contradiction].
    destruct (decide ((d, outfile) = k)) as [<- | Hne]; [now split |].
    rewrite lookup_insert_ne in Hk by exact Hne. contradiction.
  - exists [EvShell d cmdline; EvCommunicate (length (procs w)) None].
    split; [apply trace_shell_str2cif | now repeat constructor].
Qed.

Lemma parse_instance_footprint best i :
  respects (only_cif_written d) (parse_instance H d best i).
Proof.
  unfold parse_instance.
  apply respects_bind; [apply only_cif_written_trans | |].
  { apply shell_str2cif_footprint. now exists (pretty (i + 1)%nat). }
  intros u. apply respects_pure; [apply only_cif_written_refl |].
  apply pure_bind; [apply pure_get |]. intros here.
  apply pure_bind; [apply pure_Structure_from_file |]. intros sqs.
  apply pure_bind; [apply pure_read_lines |]. intros lines.
  apply pure_bind; [apply pure_instance_objective |]. intros o. apply pure_ret.
Qed.

End Footprint.

(** The parser respects [only_cif_written], however it ends. *)
Lemma parse_footprint (H : Host) (path : string) (w : World) :
  only_cif_written (resolved w path) w (_parse_sqs_path H path w).2.
Proof.
  set (d := resolved w path).
  assert (K : respects (only_cif_written d)
                (instances <- glob_count d bestsqs_glob ;;
                 shell_str2cif H d "str2cif < bestsqs.out > bestsqs.cif"
                               "bestsqs.out" "bestsqs.cif" ;;
                 bestsqs <- Structure_from_file H d "bestsqs.cif" ;;
                 lines <- read_lines d "bestcorr.out" ;;
                 objective_function <- best_objective H lines ;;
                 allsqs <- for_append (seq 0 instances)
                                      (parse_instance H d objective_function) [] ;;
                 ret (mkSqs bestsqs objective_function allsqs d))).
  { pose proof (only_cif_written_refl d) as Hr.
    pose proof (only_cif_written_trans d) as Ht.
    apply respects_bind; [exact Ht | apply respects_pure, pure_get; exact Hr |]. intros n.
    apply respects_bind; [exact Ht | |].
    { apply shell_str2cif_footprint. now exists "". }
    intros u.
    apply respects_bind; [exact Ht | apply respects_pure, pure_Structure_from_file; exact Hr |].
    intros best.
    apply respects_bind; [exact Ht | apply respects_pure, pure_read_lines; exact Hr |].
    intros lines.
    apply respects_bind; [exact Ht | apply respects_pure, pure_best_objective; exact Hr |].
    intros o.
    apply respects_bind; [exact Ht | |].
    { apply respects_for_append; [exact Hr | exact Ht |]. intros i.
      apply parse_instance_footprint. }
    intros all. apply respects_pure, pure_ret. exact Hr. }
  exact (K w).
Qed.

(** X5. However it ends, a parse of a directory has only run
    conversions. It stays in the working directory, loses no file, and
    changes no file but converted structures [bestsqs...cif] of that
    directory. The processes that were there are left as they were, and
    those it adds are shells started in that directory; the clock does not
    go back; its calls are launches of shells and waits without timeout. *)
Theorem parser_footprint (H : Host) (path : string) (w : World) :
  only_cif_written (resolved w path) w (_parse_sqs_path H path w).2.
Proof. exact (parse_footprint H path w). Qed.

(* ===================================================================== *)
(** ** The processes of a search are all reaped *)
(* ===================================================================== *)

Section Reaping.

Context (H : Host).

Lemma reaped_kept_refl w : reaped_kept w w.
Proof. split; [apply Nat.le_refl | auto]. Qed.

Lemma reaped_kept_trans w1 w2 w3 :
  reaped_kept w1 w2 -> reaped_kept w2 w3 -> reaped_kept w1 w3.
Proof. intros [L1 K1] [L2 K2]. split; [lia | auto]. Qed.

Lemma reaped_kept_same_procs w w' : procs w' = procs w -> reaped_kept w w'.
Proof. intros E. unfold reaped_kept, state_of. rewrite E. split; [apply Nat.le_refl | auto]. Qed.

Lemma reaped_kept_more_procs w w' new : procs w' = procs w ++ new -> reaped_kept w w'.
Proof.
  intros E. unfold reaped_kept, state_of. rewrite E, length_app. split; [lia |].
  intros q Hq. rewrite lookup_app_l; [exact Hq |].
  destruct (procs w !! q) eqn:Eq; [| discriminate]. eapply lookup_lt_Some; eauto.
Qed.

Lemma reaped_kept_insert w w' pid p x :
  procs w !! pid = Some p ->
  procs w' = <[pid := x]> (procs w) ->
  (p_state p = Reaped -> p_state x = Reaped) ->
  reaped_kept w w'.
Proof.
  intros Ep E Hx. unfold reaped_kept, state_of. rewrite E, length_insert.
  split; [apply Nat.le_refl |]. intros q Hq.
  destruct (decide (pid = q)) as [<- | Hne].
  - rewrite list_lookup_insert_eq by (eapply lookup_lt_Some; eauto).
    rewrite Ep in Hq. simpl in *. injection Hq as Hq. now rewrite Hx.
  - now rewrite list_lookup_insert_ne.
Qed.

Lemma communicate_reaped_kept p t : respects reaped_kept (communicate H p t).
Proof.
  intros w. unfold communicate.
  change (procs (log (EvCommunicate p t) w)) with (procs w).
  destruct (procs w !! p) as [pr |] eqn:E; simpl; [| now apply reaped_kept_same_procs].
  destruct (p_state pr) eqn:Es; simpl.
  - destruct (run_time H (p_cmd pr)) as [r |], t as [t |]; simpl;
      try (now apply reaped_kept_same_procs).
    + destruct (Qle_bool _ _); simpl; [| now apply reaped_kept_same_procs].
      eapply reaped_kept_insert; [exact E | reflexivity | auto].
    + eapply reaped_kept_insert; [exact E | reflexivity | auto].
  - eapply reaped_kept_insert; [exact E | reflexivity | auto].
  - now apply reaped_kept_same_procs.
Qed.

Lemma kill_reaped_kept p : respects reaped_kept (kill H p).
Proof.
  intros w. unfold kill.
  change (procs (log (EvKill p) w)) with (procs w).
  destruct (procs w !! p) as [pr |] eqn:E; simpl; [| now apply reaped_kept_same_procs].
  destruct (p_state pr) eqn:Es; simpl; try (now apply reaped_kept_same_procs).
  destruct (exited H pr _); simpl; [now apply reaped_kept_same_procs |].
  eapply reaped_kept_insert; [exact E | reflexivity |]. rewrite Es. discriminate.
Qed.

Lemma Popen_reaped_kept cmd : respects reaped_kept (Popen cmd).
Proof.
  intros w. unfold reaped_kept, state_of. simpl. rewrite length_app. split; [lia |].
  intros q Hq. rewrite lookup_app_l; [exact Hq |].
  destruct (procs w !! q) eqn:E; [| discriminate]. eapply lookup_lt_Some; eauto.
Qed.

Lemma parse_reaped_kept path : respects reaped_kept (_parse_sqs_path H path).
Proof.
  intros w. destruct (parse_footprint H path w) as (_ & _ & (new & P & _) & _).
  now apply (reaped_kept_more_procs _ _ new).
Qed.

Lemma select_best_reaped_kept i : respects reaped_kept (select_best H i).
Proof.
  unfold select_best, more_than_one.
  apply respects_bind; [apply reaped_kept_trans | |].
  { apply respects_pure; [apply reaped_kept_refl |]. destruct i; [apply pure_ret | apply pure_raise]. }
  intros [|]; [| apply respects_pure; [apply reaped_kept_refl | apply pure_ret]].
  apply respects_bind; [apply reaped_kept_trans | apply Popen_reaped_kept |].
  intros p. apply communicate_reaped_kept.
Qed.

(** What follows the waits, on either path, loses no reaped process. *)
Lemma finish_reaped_kept i (otherwise : M Sqs) :
  respects reaped_kept otherwise ->
  respects reaped_kept
    (select_best H i ;;
     found <- best_files_exist ;;
     if found then _parse_sqs_path H "." else otherwise).
Proof.
  intros Ho.
  apply respects_bind; [apply reaped_kept_trans | apply select_best_reaped_kept |]. intros u.
  apply respects_bind; [apply reaped_kept_trans | |].
  { apply respects_pure; [apply reaped_kept_refl | apply pure_best_files_exist]. }
  intros [|]; [apply parse_reaped_kept | exact Ho].
Qed.

Lemma wait_all_reaped_kept ps t : respects reaped_kept (wait_all H ps t).
Proof.
  unfold wait_all. apply respects_for_each;
    [apply reaped_kept_refl | apply reaped_kept_trans |].
  intros p. apply communicate_reaped_kept.
Qed.

(** A wait that returns has reaped its process. *)
Lemma communicate_Ret_reaps p t w :
  (communicate H p t w).1 = Ret tt -> (p < length (procs w))%nat ->
  state_of (communicate H p t w).2 p = Some Reaped.
Proof.
  unfold communicate, state_of.
  change (procs (log (EvCommunicate p t) w)) with (procs w).
  destruct (procs w !! p) as [pr |] eqn:E; simpl.
  - intros Ho _.
    assert (Hin : forall ran w0, procs w0 = procs w ->
              p_state <$> procs (reap H p pr ran w0) !! p = Some Reaped).
    { intros ran w0 E0. simpl. rewrite E0.
      rewrite list_lookup_insert_eq by (eapply lookup_lt_Some; eauto). reflexivity. }
    destruct (p_state pr) eqn:Es; simpl in *.
    + destruct (run_time H (p_cmd pr)) as [r |], t as [t |]; simpl in *; try discriminate.
      * destruct (Qle_bool _ _); simpl in *; [| discriminate]. now apply Hin.
      * now apply Hin.
    + now apply Hin.
    + rewrite E. simpl. now rewrite Es.
  - intros _ Hlt. apply lookup_ge_None in E. lia.
Qed.

(** The waits end by returning or by timing out. *)
Lemma wait_all_outcome ps t w :
  (wait_all H ps t w).1 = Ret tt \/ (wait_all H ps t w).1 = Raise TimeoutExpired.
Proof.
  revert w. induction ps as [| p ps IH]; intros w; [now left |].
  unfold wait_all. cbn [for_each]. fold (wait_all H ps t).
  destruct (communicate_timeout_clock H p (t * 60)%Q w) as ([E | E] & _).
  - destruct (communicate H p (Some (t * 60)%Q) w) as [o w1] eqn:Ew. simpl in E. subst o.
    rewrite (bind_Ret _ _ _ _ _ Ew). apply IH.
  - destruct (communicate H p (Some (t * 60)%Q) w) as [o w1] eqn:Ew. simpl in E. subst o.
    rewrite (bind_Raise _ _ _ _ _ Ew). now right.
Qed.

Lemma wait_all_Ret_reaps ps t w w1 :
  wait_all H ps t w = (Ret tt, w1) ->
  forall p, In p ps -> (p < length (procs w))%nat -> state_of w1 p = Some Reaped.
Proof.
  revert w. induction ps as [| p0 ps IH]; intros w E p Hp Hlt; [destruct Hp |].
  unfold wait_all in E. cbn [for_each] in E. fold (wait_all H ps t) in E.
  apply bind_Ret_inv in E as ([] & w' & E0 & E).
  pose proof (communicate_reaped_kept p0 (Some (t * 60)%Q) w) as [L0 K0].
  rewrite E0 in L0, K0. simpl in L0, K0.
  destruct Hp as [<- | Hp].
  - pose proof (communicate_Ret_reaps p0 (Some (t * 60)%Q) w) as R0.
    rewrite E0 in R0. simpl in R0. specialize (R0 eq_refl Hlt).
    pose proof (wait_all_reaped_kept ps t w') as [_ K]. rewrite E in K. now apply K.
  - eapply IH; eauto. lia.
Qed.

(** X6. However a search ends, none of its processes is left unreaped:
    each one that was launched has been waited for to its end. *)
Theorem search_reaps_all ps instances t orig w p :
  In p ps -> (p < length (procs w))%nat ->
  state_of (search H ps instances t orig w).2 p = Some Reaped.
Proof.
  intros Hp Hlt.
  destruct (wait_all H ps t w) as [o w1] eqn:E.
  destruct (wait_all_outcome ps t w) as [Ho | Ho]; rewrite E in Ho; simpl in Ho; subst o.
  - rewrite (search_completed _ _ _ _ _ _ _ E).
    pose proof (wait_all_Ret_reaps _ _ _ _ E p Hp Hlt) as R1.
    unfold on_completion.
    now apply (finish_reaped_kept instances
                 (raise (Exception_ "mcsqs exited before timeout reached"))
                 (respects_pure _ reaped_kept_refl _ (pure_raise _)) w1).
  - rewrite (search_timed_out _ _ _ _ _ _ _ E).
    pose proof (wait_all_reaped_kept ps t w) as [L1 _]. rewrite E in L1. simpl in L1.
    destruct (kill_all_reaps H ps w1) as (w2 & E2 & _ & _ & _ & R2 & _).
    unfold on_timeout. fold (kill_all H ps). rewrite (bind_Ret _ _ _ _ _ E2).
    assert (Ho : respects reaped_kept
                   (chdir orig ;; raise (TimeoutError "Cluster expansion took too long.")
                    : M Sqs)).
    { intros w0. now apply reaped_kept_same_procs. }
    apply (finish_reaped_kept instances _ Ho w2). apply R2; [exact Hp | lia].
Qed.

End Reaping.

(* ===================================================================== *)
(** ** How a search ends *)
(* ===================================================================== *)

Section Outcomes.

Context (H : Host).

Lemma no_kill_refl w : no_kill w w.
Proof. exists []. split; [now rewrite app_nil_r | constructor]. Qed.

Lemma no_kill_trans w1 w2 w3 : no_kill w1 w2 -> no_kill w2 w3 -> no_kill w1 w3.
Proof.
  intros (l1 & E1 & F1) (l2 & E2 & F2). exists (l1 ++ l2). split.
  - now rewrite E2, E1, app_assoc.
  - now apply Forall_app.
Qed.

Lemma no_kill_step w w' e : trace w' = trace w ++ [e] -> is_kill e = false -> no_kill w w'.
Proof. intros E K. exists [e]. split; [exact E | now repeat constructor]. Qed.

Lemma communicate_no_kill p t : respects no_kill (communicate H p t).
Proof. intros w. eapply no_kill_step; [apply trace_communicate | reflexivity]. Qed.

Lemma Popen_no_kill cmd : respects no_kill (Popen cmd).
Proof. intros w. eapply no_kill_step; reflexivity. Qed.

Lemma parse_no_kill path : respects no_kill (_parse_sqs_path H path).
Proof.
  intros w. destruct (parse_footprint H path w) as (_ & _ & _ & _ & _ & l & E & F).
  exists l. split; [exact E |]. eapply Forall_impl; [exact F |].
  intros [] ?; simpl in *; congruence.
Qed.

Lemma wait_all_no_kill ps t : respects no_kill (wait_all H ps t).
Proof.
  unfold wait_all. apply respects_for_each; [apply no_kill_refl | apply no_kill_trans |].
  intros p. apply communicate_no_kill.
Qed.

Lemma on_completion_no_kill i : respects no_kill (on_completion H i).
Proof.
  unfold on_completion, select_best, more_than_one.
  apply respects_bind; [apply no_kill_trans | |].
  { apply respects_bind; [apply no_kill_trans | |].
    - apply respects_pure; [apply no_kill_refl |].
      destruct i; [apply pure_ret | apply pure_raise].
    - intros [|]; [| apply respects_pure; [apply no_kill_refl | apply pure_ret]].
      apply respects_bind; [apply no_kill_trans | apply Popen_no_kill |].
      intros p. apply communicate_no_kill. }
  intros u. apply respects_bind; [apply no_kill_trans | |].
  { apply respects_pure; [apply no_kill_refl | apply pure_best_files_exist]. }
  intros [|]; [apply parse_no_kill |].
  apply respects_pure; [apply no_kill_refl | apply pure_raise].
Qed.

(** X7. When every wait has returned within its timeout, the search
    kills no process, whatever it ends with. *)
Theorem completed_search_kills_nothing ps instances t orig w :
  (wait_all H ps t w).1 = Ret tt ->
  no_kill w (search H ps instances t orig w).2.
Proof.
  intros E. destruct (wait_all H ps t w) as [o w1] eqn:Ew. simpl in E. subst o.
  rewrite (search_completed _ _ _ _ _ _ _ Ew).
  eapply no_kill_trans; [| apply on_completion_no_kill].
  pose proof (wait_all_no_kill ps t w) as K. now rewrite Ew in K.
Qed.

(** A search that returns a result has parsed the working directory, in
    which both best-output files were present. *)
Lemma search_Ret_inv ps i t orig w r w' :
  search H ps i t orig w = (Ret r, w') ->
  exists w0,
    cwd w0 = cwd w /\ best_files_present w0 = true
    /\ _parse_sqs_path H "." w0 = (Ret r, w').
Proof.
  intros E.
  destruct (wait_all H ps t w) as [o w1] eqn:Ew.
  pose proof (stays_wait_all H ps t w) as S1. rewrite Ew in S1. simpl in S1.
  destruct (wait_all_outcome H ps t w) as [Ho | Ho]; rewrite Ew in Ho; simpl in Ho; subst o.
  - rewrite (search_completed _ _ _ _ _ _ _ Ew) in E.
    destruct (select_best H i w1) as [o w2] eqn:Es.
    pose proof (stays_select_best H i w1) as S2. rewrite Es in S2. simpl in S2.
    destruct o as [[] | e |].
    + rewrite (on_completion_after_best _ _ _ _ Es) in E.
      destruct (best_files_present w2) eqn:Eb; [| discriminate].
      exists w2. split; [congruence | split; [exact Eb | exact E]].
    + unfold on_completion in E. now rewrite (bind_Raise _ _ _ _ _ Es) in E.
    + unfold on_completion in E. now rewrite (bind_Hang _ _ _ _ Es) in E.
  - rewrite (search_timed_out _ _ _ _ _ _ _ Ew) in E.
    destruct (kill_all_reaps H ps w1) as (w2 & E2 & _ & S2 & _).
    destruct (select_best H i w2) as [o w3] eqn:Es.
    pose proof (stays_select_best H i w2) as S3. rewrite Es in S3. simpl in S3.
    destruct o as [[] | e |].
    + rewrite (on_timeout_after_kill _ _ _ _ _ _ _ E2 Es) in E.
      destruct (best_files_present w3) eqn:Eb; [| discriminate].
      exists w3. split; [congruence | split; [exact Eb | exact E]].
    + unfold on_timeout in E. fold (kill_all H ps) in E.
      rewrite (bind_Ret _ _ _ _ _ E2) in E. now rewrite (bind_Raise _ _ _ _ _ Es) in E.
    + unfold on_timeout in E. fold (kill_all H ps) in E.
      rewrite (bind_Ret _ _ _ _ _ E2) in E. now rewrite (bind_Hang _ _ _ _ Es) in E.
Qed.

(** From the exception of a search back to the outcome of its waits. *)
Lemma search_raise_inv ps instances t orig w e :
  (search H ps instances t orig w).1 = Raise e ->
  e <> TimeoutExpired
  /\ (forall msg, e = TimeoutError msg ->
        (wait_all H ps t w).1 = Raise TimeoutExpired
        /\ msg = "Cluster expansion took too long.")
  /\ (forall msg, e = Exception_ msg ->
        (wait_all H ps t w).1 = Ret tt
        /\ msg = "mcsqs exited before timeout reached").
Proof.
  intros E.
  destruct (wait_all H ps t w) as [o w1] eqn:Ew.
  destruct (wait_all_outcome H ps t w) as [Ho | Ho]; rewrite Ew in Ho; simpl in Ho; subst o.
  - rewrite (search_completed _ _ _ _ _ _ _ Ew) in E.
    pose proof (raises_on_completion H instances w1 e E) as N.
    destruct (select_best H instances w1) as [o w2] eqn:Es. destruct o as [[] | e' |].
    + rewrite (on_completion_after_best _ _ _ _ Es) in E.
      destruct (best_files_present w2).
      * pose proof (raises__parse_sqs_path H "." w2 e E) as P.
        split; [intros ->; destruct P | split; intros msg ->; destruct P].
      * simpl in E. injection E as <-.
        split; [discriminate | split; intros msg; [discriminate | now intros [= <-]]].
    + unfold on_completion in E. rewrite (bind_Raise _ _ _ _ _ Es) in E. simpl in E.
      injection E as <-.
      pose proof (raises_select_best H instances w1 e') as R. rewrite Es in R.
      rewrite (R eq_refl). split; [discriminate | split; intros msg; discriminate].
    + unfold on_completion in E. now rewrite (bind_Hang _ _ _ _ Es) in E.
  - rewrite (search_timed_out _ _ _ _ _ _ _ Ew) in E.
    destruct (kill_all_reaps H ps w1) as (w2 & E2 & _).
    destruct (select_best H instances w2) as [o w3] eqn:Es. destruct o as [[] | e' |].
    + rewrite (on_timeout_after_kill _ _ _ _ _ _ _ E2 Es) in E.
      destruct (best_files_present w3).
      * pose proof (raises__parse_sqs_path H "." w3 e E) as P.
        split; [intros ->; destruct P | split; intros msg ->; destruct P].
      * simpl in E. injection E as <-.
        split; [discriminate | split; intros msg; [now intros [= <-] | discriminate]].
    + unfold on_timeout in E. fold (kill_all H ps) in E.
      rewrite (bind_Ret _ _ _ _ _ E2), (bind_Raise _ _ _ _ _ Es) in E. simpl in E.
      injection E as <-.
      pose proof (raises_select_best H instances w2 e') as R. rewrite Es in R.
      rewrite (R eq_refl). split; [discriminate | split; intros msg; discriminate].
    + unfold on_timeout in E. fold (kill_all H ps) in E.
      now rewrite (bind_Ret _ _ _ _ _ E2), (bind_Hang _ _ _ _ Es) in E.
Qed.

(** X8. The exception of a search tells how the waits ended:
    TimeoutExpired never leaves it; TimeoutError comes only after a wait
    that timed out, and Exception only after waits that all returned, each
    with its own message. *)
Theorem search_error_kinds ps instances t orig w e :
  (search H ps instances t orig w).1 = Raise e ->
  e <> TimeoutExpired
  /\ (forall msg, e = TimeoutError msg ->
        (wait_all H ps t w).1 = Raise TimeoutExpired
        /\ msg = "Cluster expansion took too long.")
  /\ (forall msg, e = Exception_ msg ->
        (wait_all H ps t w).1 = Ret tt
        /\ msg = "mcsqs exited before timeout reached").
Proof. exact (search_raise_inv ps instances t orig w e). Qed.


End Outcomes.

Section RunOutcome.

Context (H : Host).
Variables (clusters : list (Z * num)) (search_time : Q)
          (dir : option string)
          (temperature wr wn wd tol : num).

Lemma raises_search ps i t orig : raises (fun e => e <> TimeoutExpired) (search H ps i t orig).
Proof. intros w e E. now apply (search_raise_inv H ps i t orig w e). Qed.

(** X9. TimeoutExpired, raised by a wait, never leaves the run: the
    handler of line 159 catches it, and nothing outside the [try] raises
    it. *)
Theorem run_contains_TimeoutExpired structure scaling instances w :
  (run_mcsqs H structure clusters scaling search_time dir instances
             temperature wr wn wd tol w).1 <> Raise TimeoutExpired.
Proof.
  destruct (is_ordered structure) eqn:Hd.
  { unfold run_mcsqs. rewrite Hd. discriminate. }
  rewrite (run_mcsqs_disordered H); [| exact Hd].
  assert (R : raises (fun e => e <> TimeoutExpired)
                (bind (prepare_scaling H structure (Z.of_nat (length structure)) scaling)
                      (after_validation H clusters search_time (default_instances H instances)
                                        temperature wr wn wd tol (cwd w)))).
  { assert (N : forall e, no_timeout e -> e <> TimeoutExpired) by (intros e N ->; exact N).
    apply raises_bind.
    { eapply raises_weaken; [exact N | apply raises_prepare_scaling]. }
    intros prepared. unfold after_validation.
    apply raises_bind; [intros w0 e; discriminate |]. intros u.
    apply raises_bind; [apply raises_Popen |]. intros p.
    apply raises_bind; [apply raises_communicate_None |]. intros u'.
    apply raises_bind.
    { eapply raises_weaken; [exact N | apply raises_launch]. }
    intros ps. apply raises_search. }
  intros E. exact (R _ _ E eq_refl).
Qed.

(** X10. A result of the run is what the parser returns on the working
    directory the run is in at its end: the input was a disordered
    structure with an accepted scaling, both best-output files were in
    that directory when it was parsed, and the directory of the result,
    [str(Path(".").resolve())], is that working directory. *)
Theorem run_result_is_parsed_run_directory structure scaling instances w r w' :
  run_mcsqs H structure clusters scaling search_time dir instances
            temperature wr wn wd tol w = (Ret r, w') ->
  is_ordered structure = false
  /\ scaling_accepted scaling
  /\ directory r = cwd w'
  /\ exists w0,
       cwd w0 = cwd w'
       /\ best_files_present w0 = true
       /\ _parse_sqs_path H "." w0 = (Ret r, w').
Proof.
  intros E.
  destruct (is_ordered structure) eqn:Hd.
  { unfold run_mcsqs in E. now rewrite Hd in E. }
  rewrite (run_mcsqs_disordered H) in E by exact Hd.
  apply bind_Ret_inv in E as (prepared & w1 & E1 & E).
  assert (Ha : scaling_accepted scaling).
  { destruct scaling as [k | a b c]; simpl; [| exact I].
    apply integer_valued_iff. unfold prepare_scaling in E1.
    destruct (num_truthy (num_mod_1 k)); [discriminate | reflexivity]. }
  unfold after_validation in E.
  apply bind_Ret_inv in E as (u2 & w2 & _ & E).
  apply bind_Ret_inv in E as (p & w3 & _ & E).
  apply bind_Ret_inv in E as (u4 & w4 & _ & E).
  apply bind_Ret_inv in E as (ps & w5 & _ & E).
  apply search_Ret_inv in E as (w6 & _ & Eb & E).
  pose proof (_parse_sqs_path_Ret H "." w6 r w' E) as K. cbv zeta in K.
  destruct K as (Kd & _ & _ & _ & Kc & _).
  split; [reflexivity |]. split; [exact Ha |]. split.
  - rewrite Kd, Kc. reflexivity.
  - exists w6. split; [now rewrite Kc | split; [exact Eb | exact E]].
Qed.

End RunOutcome.

(* ===================================================================== *)
(** ** The parser, step by step *)
(* ===================================================================== *)

Section ParserSteps.

Context (H : Host).

(** The parser from line 197 on, in the directory it resolves [path] to. *)
Lemma parse_steps path w :
  _parse_sqs_path H path w
  = bind (shell_str2cif H (resolved w path) "str2cif < bestsqs.out > bestsqs.cif"
                        "bestsqs.out" "bestsqs.cif")
      (fun _ =>
         bind (Structure_from_file H (resolved w path) "bestsqs.cif")
           (fun bestsqs =>
              bind (read_lines (resolved w path) "bestcorr.out")
                (fun lines =>
                   bind (best_objective H lines)
                     (fun o =>
                        bind (for_append (seq 0 (indexed_count (resolved w path) (fs w)))
                                         (parse_instance H (resolved w path) o) [])
                          (fun all => ret (mkSqs bestsqs o all (resolved w path)))))))
      w.
Proof. reflexivity. Qed.

(** A conversion whose converter exits, when it has to run, returns. *)
Lemma shell_done d cmdline infile outfile w :
  (is_Some (fs w !! (d, infile)) -> is_Some (run_time H (shell_cmd cmdline))) ->
  exists w1,
    shell_str2cif H d cmdline infile outfile w = (Ret tt, w1)
    /\ cwd w1 = cwd w
    /\ fs w1 = match fs w !! (d, infile) with
               | Some c => <[(d, outfile) := str2cif H c]> (fs w)
               | None => fs w
               end.
Proof.
  intros Hx. unfold shell_str2cif. simpl.
  destruct (fs w !! (d, infile)) as [c |]; [| eexists; split; [reflexivity | now split]].
  destruct (Hx ltac:(eauto)) as [t ->]. eexists. split; [reflexivity | now split].
Qed.

(** A conversion whose converter does not exit blocks. *)
Lemma shell_blocks d cmdline infile outfile w :
  is_Some (fs w !! (d, infile)) ->
  run_time H (shell_cmd cmdline) = None ->
  (shell_str2cif H d cmdline infile outfile w).1 = Hang.
Proof.
  intros [c Hc] Hn. unfold shell_str2cif. simpl. now rewrite Hc, Hn.
Qed.

Lemma converted_cif (d : string) (f f1 : files) w :
  fs w = f ->
  f1 = match f !! (d, "bestsqs.out") with
       | Some c => <[(d, "bestsqs.cif") := str2cif H c]> f
       | None => f
       end ->
  f1 !! (d, "bestsqs.cif") = converted_best H w d.
Proof.
  intros <- ->. unfold converted_best.
  destruct (fs w !! (d, "bestsqs.out")) as [c |]; [apply lookup_insert_eq | reflexivity].
Qed.

Lemma converted_other (d infile outfile : string) (f f1 : files) k :
  f1 = match f !! (d, infile) with
       | Some c => <[(d, outfile) := str2cif H c]> f
       | None => f
       end ->
  k <> (d, outfile) ->
  f1 !! k = f !! k.
Proof.
  intros -> Hk. destruct (f !! (d, infile)); [now apply lookup_insert_ne | reflexivity].
Qed.

Lemma bind_get {A B} (f : World -> A) (k : A -> M B) w : bind (get f) k w = k (f w) w.
Proof. reflexivity. Qed.

Lemma Structure_from_file_fs d name w :
  Structure_from_file H d name w
  = (match fs w !! (d, name) with
     | Some c => match from_cif H c with
                 | Some s => Ret s
                 | None => Raise StructureParseError
                 end
     | None => Raise (FileNotFoundError d name)
     end, w).
Proof. unfold Structure_from_file. repeat case_match; reflexivity. Qed.

Lemma read_lines_fs d name w :
  read_lines d name w
  = (match fs w !! (d, name) with
     | Some c => Ret (PyStr.readlines c)
     | None => Raise (FileNotFoundError d name)
     end, w).
Proof. unfold read_lines. case_match; reflexivity. Qed.

Lemma best_objective_read report o w :
  read_as H Perfect_match report o ->
  best_objective H (PyStr.readlines report) w = (Ret o, w).
Proof.
  intros (tok & Et & Hs & Hf). unfold best_objective, last_token. rewrite Et.
  unfold bind, ret at 1. destruct (String.eqb_spec tok "Perfect_match") as [-> | Hne]; simpl.
  - now rewrite (Hs eq_refl).
  - destruct (Hf Hne) as (x & Ex & ->). unfold float. now rewrite Ex.
Qed.

(** X11. The structure of the result is read from [bestsqs.cif] as line
    197 leaves it: the conversion of [bestsqs.out], or, when that file is
    missing, whatever [bestsqs.cif] held before the call. *)
Theorem best_structure_source path w r w' :
  _parse_sqs_path H path w = (Ret r, w') ->
  exists cif,
    converted_best H w (resolved w path) = Some cif
    /\ from_cif H cif = Some (bestsqs r).
Proof.
  intros E. rewrite parse_steps in E.
  apply bind_Ret_inv in E as ([] & ws & E0 & E).
  apply shell_str2cif_Ret in E0 as [F0 _].
  apply bind_Ret_inv in E as (s & w1 & E1 & E).
  rewrite Structure_from_file_fs in E1. apply pair_equal_spec in E1 as [E1 <-].
  rewrite (converted_cif _ _ _ w eq_refl F0) in E1.
  apply bind_Ret_inv in E as (lines & w2 & _ & E).
  apply bind_Ret_inv in E as (o & w3 & _ & E).
  apply bind_Ret_inv in E as (all & w4 & _ & E).
  apply pair_equal_spec in E as [E _]. injection E as <-.
  destruct (converted_best H w (resolved w path)) as [cif |]; [| discriminate E1].
  exists cif. split; [reflexivity |].
  destruct (from_cif H cif) as [s' |]; [| discriminate E1]. now injection E1 as ->.
Qed.

(** X12. How the parser fails, in the order of its steps. It blocks when
    [bestsqs.out] is there and the converter does not exit. When the
    conversion is over, it raises for the converted structure first
    (missing, then unreadable) and for the correlation report next
    (missing, then empty, then with a last token that is no float, whose
    [repr] ends the message). *)
Theorem parser_errors path w :
  let d := resolved w path in
  let out := (_parse_sqs_path H path w).1 in
  let converter := run_time H (shell_cmd "str2cif < bestsqs.out > bestsqs.cif") in
  (is_Some (fs w !! (d, "bestsqs.out")) -> converter = None -> out = Hang)
  /\ ((is_Some (fs w !! (d, "bestsqs.out")) -> is_Some converter) ->
      (converted_best H w d = None -> out = Raise (FileNotFoundError d "bestsqs.cif"))
      /\ (forall cif,
            converted_best H w d = Some cif ->
            (from_cif H cif = None -> out = Raise StructureParseError)
            /\ (is_Some (from_cif H cif) ->
                (fs w !! (d, "bestcorr.out") = None ->
                 out = Raise (FileNotFoundError d "bestcorr.out"))
                /\ (forall report,
                      fs w !! (d, "bestcorr.out") = Some report ->
                      (objective_token (PyStr.readlines report) = None ->
                       out = Raise IndexError)
                      /\ (forall tok,
                            objective_token (PyStr.readlines report) = Some tok ->
                            tok <> "Perfect_match" ->
                            float_of_str H tok = None ->
                            out = Raise (ValueError
                                           ("could not convert string to float: "
                                            ++ PyStr.repr tok))))))).
Proof.
  intros d out converter. subst out converter. rewrite parse_steps. fold d. split.
  { intros Hin Hn.
    pose proof (shell_blocks d "str2cif < bestsqs.out > bestsqs.cif" "bestsqs.out"
                  "bestsqs.cif" w Hin Hn) as B.
    destruct (shell_str2cif H d "str2cif < bestsqs.out > bestsqs.cif" "bestsqs.out"
                "bestsqs.cif" w) as [o0 w0] eqn:E0.
    simpl in B. subst o0. now rewrite (bind_Hang _ _ _ _ E0). }
  intros Hx.
  destruct (shell_done d "str2cif < bestsqs.out > bestsqs.cif" "bestsqs.out" "bestsqs.cif"
              w Hx) as (ws & E0 & _ & F0).
  rewrite (bind_Ret _ _ _ _ _ E0).
  assert (Ec : fs ws !! (d, "bestsqs.cif") = converted_best H w d).
  { rewrite F0. now apply (converted_cif d (fs w)). }
  assert (Er : fs ws !! (d, "bestcorr.out") = fs w !! (d, "bestcorr.out")).
  { apply (converted_other d "bestsqs.out" "bestsqs.cif"); [exact F0 | intros [= ]]. }
  clear E0 F0. split.
  - intros Hn. erewrite bind_Raise; [reflexivity |].
    rewrite Structure_from_file_fs, Ec, Hn. reflexivity.
  - intros cif Hc. split.
    + intros Hf. erewrite bind_Raise; [reflexivity |].
      rewrite Structure_from_file_fs, Ec, Hc, Hf. reflexivity.
    + intros [s Hs].
      erewrite bind_Ret; [| rewrite Structure_from_file_fs, Ec, Hc, Hs; reflexivity].
      split.
      * intros Hn. erewrite bind_Raise; [reflexivity |].
        rewrite read_lines_fs, Er, Hn. reflexivity.
      * intros report Hr.
        erewrite bind_Ret; [| rewrite read_lines_fs, Er, Hr; reflexivity].
        split.
        -- intros Hn. erewrite bind_Raise; [reflexivity |].
           unfold best_objective, last_token. rewrite Hn. reflexivity.
        -- intros tok Ht Hne Hf. erewrite bind_Raise; [reflexivity |].
           unfold best_objective, last_token. rewrite Ht.
           unfold bind, ret at 1. apply String.eqb_neq in Hne. rewrite Hne. simpl.
           unfold float. rewrite Hf. reflexivity.
Qed.

(** X13. The converted structure of an instance is written in the
    directory [path] names and read back in the working directory (line
    232). When [path] names another directory than the working one, which
    has no [bestsqs1.cif], a directory with an indexed file cannot be
    parsed, good as its files may be: once the two conversions are over,
    the parser raises for the file it looks for in the wrong place. *)
Theorem instance_structure_read_from_cwd path w cif report o :
  let d := resolved w path in
  d <> cwd w ->
  is_Some (run_time H (shell_cmd "str2cif < bestsqs.out > bestsqs.cif")) ->
  is_Some (run_time H (shell_cmd "str2cif <bestsqs1.out>bestsqs1.cif")) ->
  converted_best H w d = Some cif ->
  is_Some (from_cif H cif) ->
  fs w !! (d, "bestcorr.out") = Some report ->
  read_as H Perfect_match report o ->
  (0 < indexed_count d (fs w))%nat ->
  fs w !! (cwd w, "bestsqs1.cif") = None ->
  (_parse_sqs_path H path w).1 = Raise (FileNotFoundError (cwd w) "bestsqs1.cif").
Proof.
  intros d Hcwd Hx0 Hx1 Hc [s Hs] Hr Ho Hn Hmiss.
  rewrite parse_steps. fold d.
  destruct (shell_done d "str2cif < bestsqs.out > bestsqs.cif" "bestsqs.out" "bestsqs.cif"
              w (fun _ => Hx0)) as (ws & E0 & Ew & F0).
  rewrite (bind_Ret _ _ _ _ _ E0).
  assert (Ec : fs ws !! (d, "bestsqs.cif") = Some cif).
  { rewrite F0, <- Hc. now apply (converted_cif d (fs w)). }
  assert (Er : fs ws !! (d, "bestcorr.out") = Some report).
  { rewrite <- Hr. apply (converted_other d "bestsqs.out" "bestsqs.cif");
      [exact F0 | intros [= ]]. }
  assert (Em : fs ws !! (cwd w, "bestsqs1.cif") = None).
  { rewrite <- Hmiss. apply (converted_other d "bestsqs.out" "bestsqs.cif");
      [exact F0 | intros [= ]]. }
  clear E0 F0.
  erewrite bind_Ret; [| rewrite Structure_from_file_fs, Ec, Hs; reflexivity].
  erewrite bind_Ret; [| rewrite read_lines_fs, Er; reflexivity].
  erewrite bind_Ret; [| apply (best_objective_read report o); exact Ho].
  assert (Ei : exists wi, parse_instance H d o 0 ws
                          = (Raise (FileNotFoundError (cwd w) "bestsqs1.cif"), wi)).
  { unfold parse_instance.
    change ("str2cif <" ++ ("bestsqs" ++ pretty (0 + 1)%nat ++ ".out") ++ ">"
            ++ "bestsqs" ++ pretty (0 + 1)%nat ++ ".cif")%string
      with "str2cif <bestsqs1.out>bestsqs1.cif".
    change ("bestsqs" ++ pretty (0 + 1)%nat ++ ".out")%string with "bestsqs1.out".
    change ("bestsqs" ++ pretty (0 + 1)%nat ++ ".cif")%string with "bestsqs1.cif".
    destruct (shell_done d "str2cif <bestsqs1.out>bestsqs1.cif" "bestsqs1.out"
                "bestsqs1.cif" ws (fun _ => Hx1)) as (w1 & E1 & C1 & F1).
    exists w1. rewrite (bind_Ret _ _ _ _ _ E1).
    unfold getcwd. rewrite bind_get, C1, Ew.
    apply bind_Raise. rewrite Structure_from_file_fs.
    assert (M1 : fs w1 !! (cwd w, "bestsqs1.cif") = None).
    { rewrite <- Em. apply (converted_other d "bestsqs1.out" "bestsqs1.cif");
        [exact F1 |]. intros [= Hp]. now apply Hcwd. }
    rewrite M1. reflexivity. }
  destruct Ei as (wi & Ei).
  destruct (indexed_count d (fs w)) as [| n]; [lia |].
  cbn [seq for_append].
  erewrite bind_Raise; [reflexivity |].
  apply bind_Raise. exact Ei.
Qed.

Lemma indexed_count_zero d f : indexed_count d f = 0%nat -> no_indexed d f.
Proof.
  unfold indexed_count. intros E name [c Hc].
  apply length_zero_iff_nil in E.
  destruct (glob_match bestsqs_glob name) eqn:G; [| reflexivity].
  assert (Hin : (d, name) ∈ filter (fun k : string * string =>
                                     k.1 = d /\ glob_match bestsqs_glob k.2 = true)
                                  (elements (dom f))).
  { apply list_elem_of_filter. split; [now split |].
    apply elem_of_elements, elem_of_dom. now exists c. }
  rewrite E in Hin. now apply not_elem_of_nil in Hin.
Qed.

Lemma no_indexed_cif d f c :
  no_indexed d f -> no_indexed d (<[(d, "bestsqs.cif") := c]> f).
Proof.
  intros N name Hs.
  destruct (decide (name = "bestsqs.cif")) as [-> | Hne]; [reflexivity |].
  apply N. rewrite lookup_insert_ne in Hs; [exact Hs |]. intros [= ]. congruence.
Qed.

(** X14. Parsing a directory with no indexed file can be repeated: the
    second call returns the same result and leaves the files as they are. *)
Theorem parse_again_without_instances path w r w1 :
  _parse_sqs_path H path w = (Ret r, w1) ->
  allsqs r = [] ->
  exists w2, _parse_sqs_path H path w1 = (Ret r, w2) /\ fs w2 = fs w1.
Proof.
  intros E Hall.
  pose proof (_parse_sqs_path_Ret H path w r w1 E) as K. cbv zeta in K.
  destruct K as (_ & Kn & _). rewrite Hall in Kn. simpl in Kn. symmetry in Kn.
  rewrite parse_steps in E. rewrite Kn in E.
  set (d := resolved w path) in *.
  apply bind_Ret_inv in E as ([] & ws & E0 & E).
  pose proof (stays_shell_str2cif H d "str2cif < bestsqs.out > bestsqs.cif"
                "bestsqs.out" "bestsqs.cif" w) as Ew.
  rewrite E0 in Ew. cbn [snd] in Ew.
  apply shell_str2cif_Ret in E0 as [F0 X0].
  apply bind_Ret_inv in E as (s & wa & E1 & E).
  rewrite Structure_from_file_fs in E1. apply pair_equal_spec in E1 as [E1 <-].
  apply bind_Ret_inv in E as (lines & wb & E2 & E).
  rewrite read_lines_fs in E2. apply pair_equal_spec in E2 as [E2 <-].
  apply bind_Ret_inv in E as (o & wc & E3 & E).
  destruct (fs ws !! (d, "bestcorr.out")) as [report |] eqn:Er; [| discriminate E2].
  injection E2 as <-.
  apply best_objective_Ret in E3 as (Ro & ->).
  cbn [seq for_append] in E. apply pair_equal_spec in E as [E <-].
  injection E as <-.
  assert (Ed : resolved ws path = d).
  { unfold resolved, d. now rewrite Ew. }
  assert (Eo : fs ws !! (d, "bestsqs.out") = fs w !! (d, "bestsqs.out")).
  { apply (converted_other d "bestsqs.out" "bestsqs.cif"); [exact F0 | intros [= ]]. }
  assert (N : no_indexed d (fs ws)).
  { apply indexed_count_zero in Kn. rewrite F0.
    destruct (fs w !! (d, "bestsqs.out")); [now apply no_indexed_cif | exact Kn]. }
  destruct (shell_done d "str2cif < bestsqs.out > bestsqs.cif" "bestsqs.out" "bestsqs.cif"
              ws) as (ws2 & E02 & _ & F02).
  { rewrite Eo. exact X0. }
  assert (Ef : fs ws2 = fs ws).
  { rewrite F02, Eo. destruct (fs w !! (d, "bestsqs.out")) as [c |] eqn:Ec; [| reflexivity].
    apply insert_id. rewrite F0. apply lookup_insert_eq. }
  rewrite parse_steps, Ed, (no_indexed_count _ _ N).
  exists ws2. split; [| exact Ef].
  rewrite (bind_Ret _ _ _ _ _ E02).
  erewrite bind_Ret; [| rewrite Structure_from_file_fs, Ef; f_equal; exact E1].
  erewrite bind_Ret; [| rewrite read_lines_fs, Ef, Er; reflexivity].
  erewrite bind_Ret; [| apply (best_objective_read report o); exact Ro].
  reflexivity.
Qed.

End ParserSteps.

(* ===================================================================== *)
(** ** The token read from a correlation report *)
(* ===================================================================== *)

Module TokenFacts.

Import PyStr.

Lemma last_item_cons {A} (x : A) (l : list A) :
  last_item (x :: l) = match l with [] => Some x | _ => last_item l end.
Proof. unfold last_item. destruct l; reflexivity. Qed.

Lemma last_item_None {A} (l : list A) : last_item l = None <-> l = [].
Proof.
  split; [| now intros ->].
  induction l as [| x l IH]; [reflexivity |].
  rewrite last_item_cons. destruct l; [discriminate |]. intros E. now specialize (IH E).
Qed.

Lemma split_last_no_sep sep s t :
  last_item (split sep s) = Some t -> occurs sep t = false.
Proof.
  revert t. induction s as [| c s IH]; intros t.
  - simpl. now intros [= <-].
  - simpl. destruct (Ascii.eqb c sep) eqn:Ec.
    + rewrite last_item_cons.
      destruct (split sep s) eqn:Es; [| exact (IH t)].
      now intros [= <-].
    + destruct (split sep s) as [| x xs] eqn:Es.
      * intros [= <-]. simpl. now rewrite Ec.
      * rewrite last_item_cons. rewrite last_item_cons in IH.
        destruct xs; [| exact (IH t)].
        intros [= <-]. simpl. rewrite Ec. exact (IH x eq_refl).
Qed.

Lemma occurs_lstrip c s : occurs c s = false -> occurs c (lstrip s) = false.
Proof.
  induction s as [| a s IH]; [reflexivity |]. simpl.
  intros E. apply orb_false_iff in E as [Ea Es].
  destruct (is_space a); [now apply IH |]. simpl. now rewrite Ea, Es.
Qed.

Lemma occurs_rstrip c s : occurs c s = false -> occurs c (rstrip s) = false.
Proof.
  induction s as [| a s IH]; [reflexivity |]. simpl.
  intros E. apply orb_false_iff in E as [Ea Es].
  destruct (is_space a && is_empty (rstrip s)); [reflexivity |].
  simpl. now rewrite Ea, IH.
Qed.

Lemma rstrip_rstrip s : rstrip (rstrip s) = rstrip s.
Proof.
  induction s as [| a s IH]; [reflexivity |]. simpl.
  destruct (is_space a && is_empty (rstrip s)) eqn:E; [reflexivity |].
  simpl. now rewrite IH, E.
Qed.

(** What [lstrip] leaves does not begin with a blank. *)
Lemma lstrip_head s :
  match lstrip s with
  | EmptyString => True
  | String c _ => is_space c = false
  end.
Proof.
  induction s as [| a s IH]; [exact I |]. simpl.
  destruct (is_space a) eqn:E; [exact IH | exact E].
Qed.

Lemma strip_strip s : strip (strip s) = strip s.
Proof.
  unfold strip. pose proof (lstrip_head s) as Hh.
  destruct (lstrip s) as [| c u]; [reflexivity |].
  assert (E : rstrip (String c u) = String c (rstrip u)).
  { simpl. now rewrite Hh. }
  rewrite E. cbn [lstrip]. rewrite Hh, <- E. apply rstrip_rstrip.
Qed.

Lemma universal_newlines_empty s : universal_newlines s = EmptyString -> s = EmptyString.
Proof.
  destruct s as [| c s]; [reflexivity |]. simpl.
  destruct (Ascii.eqb c carriage_return); [| discriminate].
  destruct s as [| c' s']; [discriminate |].
  destruct (Ascii.eqb c' newline) eqn:E'; [| discriminate].
  apply Ascii.eqb_eq in E'. subst c'. simpl. discriminate.
Qed.

Lemma readlines_nil s : readlines s = [] <-> s = EmptyString.
Proof.
  split; [| now intros ->].
  intros E. apply universal_newlines_empty. now apply PyStrFacts.keepends_nil.
Qed.

End TokenFacts.

(** X15. The token of a report, lines 213 and 238, holds no ['='] and
    no blank at either end: stripping it again changes nothing. *)
Theorem objective_token_shape lines tok :
  objective_token lines = Some tok ->
  occurs "=" tok = false /\ PyStr.strip tok = tok.
Proof.
  unfold objective_token, PyStr.last_field.
  destruct (PyStr.last_item lines) as [l |]; [| discriminate].
  destruct (PyStr.last_item (PyStr.split "=" l)) as [t |] eqn:Et; [| discriminate].
  intros [= <-]. split.
  - unfold PyStr.strip. apply TokenFacts.occurs_rstrip, TokenFacts.occurs_lstrip.
    exact (TokenFacts.split_last_no_sep _ _ _ Et).
  - apply TokenFacts.strip_strip.
Qed.

(** X16. A report has no token, and IndexError is raised at line 213 or
    238, exactly when the file is empty. *)
Theorem objective_token_none_iff_empty report :
  objective_token (PyStr.readlines report) = None <-> report = EmptyString.
Proof.
  rewrite <- TokenFacts.readlines_nil. unfold objective_token, PyStr.last_field.
  split.
  - destruct (PyStr.last_item (PyStr.readlines report)) as [l |] eqn:El.
    + destruct (PyStr.last_item (PyStr.split "=" l)) as [t |] eqn:Et; [discriminate |].
      apply TokenFacts.last_item_None in Et. now apply PyStrFacts.split_not_nil in Et.
    + intros _. now apply TokenFacts.last_item_None.
  - now intros ->.
Qed.

(* ===================================================================== *)
(** ** The properties on the demo machines *)
(* ===================================================================== *)

Lemma launch_starts_witness :
  procs (launch (Some 2%Z) Demo.search_cmd Demo.empty_world).2 !! 1%nat
  = Some (mkProc (Demo.search_cmd ++ instance_cmd 1) "/home" 0 Running).
Proof.
  pose proof (launch_starts 2 Demo.search_cmd Demo.empty_world) as K. cbv zeta in K.
  destruct K as (_ & _ & _ & K).
  assert (L : (1 < Z.to_nat (Z.max 2 1))%nat) by (vm_compute; lia).
  exact (K 1%nat L).
Defined.

Lemma cluster_generation_is_unbounded_witness :
  (run_mcsqs Demo.stalled Demo.alloy Demo.clusters (Scalar (Int 4)) 1 None None
             (Int 1) (Int 1) (Int 1) (Int 1) (Int 1) Demo.empty_world).1 = Hang.
Proof.
  assert (Hd : is_ordered Demo.alloy = false) by reflexivity.
  assert (Ha : scaling_accepted (Scalar (Int 4))) by exact I.
  assert (Hr : run_time Demo.stalled (generate_clusters_cmd Demo.stalled Demo.clusters) = None)
    by reflexivity.
  pose proof (cluster_generation_is_unbounded Demo.stalled Demo.clusters 1 None
                (Int 1) (Int 1) (Int 1) (Int 1) (Int 1)
                Demo.alloy (Scalar (Int 4)) None Demo.empty_world Hd Ha Hr) as K.
  cbv zeta in K. exact (proj1 K).
Defined.


Lemma search_reaps_all_witness :
  state_of (search Demo.host [0; 1]%nat (Some 2%Z) 1 "/home" Demo.two_launched).2 0
  = Some Reaped.
Proof.
  assert (Hp : In 0%nat [0; 1]%nat) by (now left).
  assert (Hl : (0 < length (procs Demo.two_launched))%nat) by (vm_compute; lia).
  exact (search_reaps_all Demo.host [0; 1]%nat (Some 2%Z) 1 "/home" Demo.two_launched 0 Hp Hl).
Defined.

Lemma completed_search_kills_nothing_witness :
  no_kill Demo.two_launched
          (search Demo.host [0; 1]%nat (Some 2%Z) 2 "/home" Demo.two_launched).2.
Proof.
  assert (E : (wait_all Demo.host [0; 1]%nat 2 Demo.two_launched).1 = Ret tt)
    by (vm_compute; reflexivity).
  exact (completed_search_kills_nothing Demo.host [0; 1]%nat (Some 2%Z) 2 "/home"
           Demo.two_launched E).
Defined.

Lemma search_error_kinds_witness :
  (search Demo.broken [0; 1]%nat (Some 2%Z) 1 "/home" Demo.two_launched).1
  = Raise (Exception_ "mcsqs exited before timeout reached")
  /\ (wait_all Demo.broken [0; 1]%nat 1 Demo.two_launched).1 = Ret tt.
Proof.
  assert (E : (search Demo.broken [0; 1]%nat (Some 2%Z) 1 "/home" Demo.two_launched).1
              = Raise (Exception_ "mcsqs exited before timeout reached"))
    by (vm_compute; reflexivity).
  split; [exact E |].
  pose proof (search_error_kinds Demo.broken [0; 1]%nat (Some 2%Z) 1 "/home"
                Demo.two_launched _ E) as (_ & _ & K).
  exact (proj1 (K _ eq_refl)).
Defined.

Lemma run_result_is_parsed_run_directory_witness :
  let run := run_mcsqs Demo.host Demo.alloy Demo.clusters (Scalar (Int 4)) 1 (Some "/d")
                       (Some 1%Z) (Int 1) (Int 1) (Int 1) (Int 1) (Int 1) Demo.empty_world in
  exists r, run.1 = Ret r /\ directory r = cwd run.2 /\ cwd run.2 = "/d".
Proof.
  intros run.
  set (r := mkSqs [mkSite "Fe" 1; mkSite "Ni" 1] (Objective 7) [] "/d").
  assert (E : run_mcsqs Demo.host Demo.alloy Demo.clusters (Scalar (Int 4)) 1 (Some "/d")
                (Some 1%Z) (Int 1) (Int 1) (Int 1) (Int 1) (Int 1) Demo.empty_world
              = (Ret r, run.2)) by (vm_compute; reflexivity).
  exists r. split; [unfold run; now rewrite E |].
  pose proof (run_result_is_parsed_run_directory Demo.host Demo.clusters 1 (Some "/d")
                (Int 1) (Int 1) (Int 1) (Int 1) (Int 1)
                Demo.alloy (Scalar (Int 4)) (Some 1%Z) Demo.empty_world r run.2 E)
    as (_ & _ & K & _).
  split; [exact K | vm_compute; reflexivity].
Defined.

Lemma best_structure_source_witness :
  exists cif,
    converted_best Demo.host Demo.run_dir "/run" = Some cif
    /\ from_cif Demo.host cif = Some [mkSite "Fe" 1].
Proof.
  set (r := mkSqs [mkSite "Fe" 1] (Objective 7) [mkEntry [mkSite "Fe" 1] (Objective 7)] "/run").
  assert (E : _parse_sqs_path Demo.host "." Demo.run_dir
              = (Ret r, (_parse_sqs_path Demo.host "." Demo.run_dir).2))
    by (vm_compute; reflexivity).
  exact (best_structure_source Demo.host "." Demo.run_dir r _ E).
Defined.

Lemma parser_errors_witness :
  let w := mkWorld "/run"
             (<[("/run", "bestsqs.out") := ("Fe" ++ PyStr.nl)%string]>
                (<[("/run", "bestcorr.out") :=
                     ("Objective_function= abc" ++ PyStr.nl)%string]> ∅))
             0 [] [] in
  (_parse_sqs_path Demo.host "." Demo.empty_world).1
  = Raise (FileNotFoundError "/home" "bestsqs.cif")
  /\ (_parse_sqs_path Demo.host "." w).1
     = Raise (ValueError "could not convert string to float: 'abc'").
Proof.
  intros w.
  assert (X : forall w0 : World,
             is_Some (fs w0 !! (resolved w0 ".", "bestsqs.out")) ->
             is_Some (run_time Demo.host (shell_cmd "str2cif < bestsqs.out > bestsqs.cif")))
    by (intros w0 _; eexists; vm_compute; reflexivity).
  split.
  - assert (C : converted_best Demo.host Demo.empty_world (resolved Demo.empty_world ".")
                = None) by (vm_compute; reflexivity).
    pose proof (parser_errors Demo.host "." Demo.empty_world) as K. cbv zeta in K.
    destruct K as (_ & K). exact (proj1 (K (X Demo.empty_world)) C).
  - assert (C : converted_best Demo.host w (resolved w ".") = Some ("Fe" ++ PyStr.nl)%string)
      by (vm_compute; reflexivity).
    assert (S : is_Some (from_cif Demo.host ("Fe" ++ PyStr.nl)%string))
      by (eexists; reflexivity).
    assert (R : fs w !! (resolved w ".", "bestcorr.out")
                = Some ("Objective_function= abc" ++ PyStr.nl)%string)
      by (vm_compute; reflexivity).
    assert (T : objective_token (PyStr.readlines ("Objective_function= abc" ++ PyStr.nl)%string)
                = Some "abc") by (vm_compute; reflexivity).
    assert (N : "abc" <> "Perfect_match") by discriminate.
    assert (F : float_of_str Demo.host "abc" = None) by (vm_compute; reflexivity).
    pose proof (parser_errors Demo.host "." w) as K. cbv zeta in K.
    destruct K as (_ & K).
    exact (proj2 (proj2 (proj2 (proj2 (K (X w)) _ C) S) _ R) "abc" T N F).
Defined.

Lemma instance_structure_read_from_cwd_witness :
  resolved Demo.elsewhere "/run/" = "/run"
  /\ (_parse_sqs_path Demo.host "/run/" Demo.elsewhere).1
     = Raise (FileNotFoundError "/home" "bestsqs1.cif").
Proof.
  split; [vm_compute; reflexivity |].
  assert (H1 : resolved Demo.elsewhere "/run/" <> cwd Demo.elsewhere)
    by (vm_compute; discriminate).
  assert (X0 : is_Some (run_time Demo.host (shell_cmd "str2cif < bestsqs.out > bestsqs.cif")))
    by (eexists; vm_compute; reflexivity).
  assert (X1 : is_Some (run_time Demo.host (shell_cmd "str2cif <bestsqs1.out>bestsqs1.cif")))
    by (eexists; vm_compute; reflexivity).
  assert (H3 : converted_best Demo.host Demo.elsewhere (resolved Demo.elsewhere "/run/")
               = Some ("Fe" ++ PyStr.nl)%string)
    by (vm_compute; reflexivity).
  assert (H4 : is_Some (from_cif Demo.host ("Fe" ++ PyStr.nl)%string))
    by (eexists; reflexivity).
  assert (H5 : fs Demo.elsewhere !! (resolved Demo.elsewhere "/run/", "bestcorr.out")
               = Some ("Objective_function= 7" ++ PyStr.nl)%string)
    by (vm_compute; reflexivity).
  assert (H6 : read_as Demo.host Perfect_match ("Objective_function= 7" ++ PyStr.nl)%string
                       (Objective 7)).
  { exists "7". split; [vm_compute; reflexivity |].
    split; [discriminate |]. intros _. exists 7%Q. split; reflexivity. }
  assert (H7 : (0 < indexed_count (resolved Demo.elsewhere "/run/") (fs Demo.elsewhere))%nat)
    by (vm_compute; lia).
  assert (H8 : fs Demo.elsewhere !! (cwd Demo.elsewhere, "bestsqs1.cif") = None)
    by (vm_compute; reflexivity).
  exact (instance_structure_read_from_cwd Demo.host "/run/" Demo.elsewhere _ _ _
           H1 X0 X1 H3 H4 H5 H6 H7 H8).
Defined.

Lemma parse_again_without_instances_witness :
  let first := _parse_sqs_path Demo.host "." Demo.plain_dir in
  exists r w2,
    first.1 = Ret r
    /\ _parse_sqs_path Demo.host "." first.2 = (Ret r, w2)
    /\ fs w2 = fs first.2.
Proof.
  intros first.
  set (r := mkSqs [mkSite "Fe" 1] (Objective 7) [] "/run").
  assert (E : _parse_sqs_path Demo.host "." Demo.plain_dir = (Ret r, first.2))
    by (vm_compute; reflexivity).
  assert (N : allsqs r = []) by reflexivity.
  destruct (parse_again_without_instances Demo.host "." Demo.plain_dir r first.2 E N)
    as (w2 & E2 & F2).
  exists r, w2. split; [unfold first; now rewrite E |]. split; [exact E2 | exact F2].
Defined.

Lemma objective_token_shape_witness :
  occurs "=" "7" = false /\ PyStr.strip "7" = "7".
Proof.
  assert (E : objective_token [("Objective_function= 7" ++ PyStr.nl)%string] = Some "7")
    by (vm_compute; reflexivity).
  exact (objective_token_shape _ _ E).
Defined.
